(** * Import resolution and dependency ordering of the Gazelle Python extension

    A shallow embedding of [gazelle/python/resolve.go]: the declared-order
    table ([DepsOrderResolver]), the dependency sets built by [addDependency],
    and the [Resolve] pass that turns import records into the [deps],
    [pyi_deps] and [deps_to_remove] attributes of a rule; then [Imports] and
    [importSpecFromSrc], which name what a rule provides.

    Conventions.
    - Go strings are byte strings: [string] from the Standard Library.
    - [map[string]int] and [map[string][]string] are [gmap]s; a
      [*treeset.Set] of strings is a [gset string] (its sorted iteration
      order is not modelled: every loop over such a set here only inserts
      into another set).
    - [float64] is the kernel's binary64 type [float], so the quotient and the
      comparison of ranks are the ones the program computes.
    - Go's [int] is a [Z].  The counters [index] and [validSrcs] count the
      lines of a file and the elements of a slice, which keeps them below
      2^63; [totalIndex], a sum of ranks, is given its 64-bit wrap-around.
    - [log.Printf] appends to an explicit log, [os.Exit] is an outcome of
      [Resolve], and the answer of the operating system to opening
      [deps-order.txt] is an input ([OpenResult]).
    - What the file calls from other packages (the rule index, the override
      table, the third-party manifest, label rendering, path joining, Unicode
      aware string functions) is collected in the records [Host] and
      [Config], and for [Imports] in [Package]; the definitions are
      parametric in them. *)

From Stdlib Require Import ZArith Floats Ascii String.
From stdpp Require Import base option list gmap sets strings.
From Equations Require Import Equations.

Open Scope Z_scope.

(** ** Go's [int] and [float64] *)

(** Two's complement wrap-around of a 64-bit [int]. *)
Definition wrap64 (z : Z) : Z := (z + 2 ^ 63) mod 2 ^ 64 - 2 ^ 63.

Definition int_add (a b : Z) : Z := wrap64 (a + b).

(** [float64(n)] for an integer [n]: rounding to nearest, ties to even. *)
Definition float64 (n : Z) : float := SF2Prim (binary_normalize prec emax n 0 false).

(** ** The functions used from Go's [strings] package *)

Module strings.

(** [strings.HasPrefix(s, prefix)] *)
Definition HasPrefix (s pre : string) : bool := String.prefix pre s.

(** [strings.Split(s, sep)] for a one-byte separator. *)
Fixpoint Split (s : string) (sep : ascii) : list string :=
  match s with
  | EmptyString => [EmptyString]
  | String c s' =>
      if Ascii.eqb c sep then EmptyString :: Split s' sep
      else match Split s' sep with
           | hd :: tl => String c hd :: tl
           | [] => [String c EmptyString]
           end
  end.

(** [strings.Join(elems, sep)] *)
Fixpoint Join (elems : list string) (sep : string) : string :=
  match elems with
  | [] => EmptyString
  | [e] => e
  | e :: rest => e +:+ sep +:+ Join rest sep
  end.

(** [strings.TrimLeft(s, cutset)] for a one-byte cutset. *)
Fixpoint TrimLeft (s : string) (cut : ascii) : string :=
  match s with
  | String c s' => if Ascii.eqb c cut then TrimLeft s' cut else s
  | EmptyString => EmptyString
  end.

(** [strings.IndexFunc(s, f)]: the index of the first byte satisfying [f],
    or [-1].  The predicate of the caller only separates the ASCII dot from
    everything else, so bytes and runes agree. *)
Fixpoint IndexFunc_from (i : Z) (s : string) (f : ascii → bool) : Z :=
  match s with
  | EmptyString => -1
  | String c s' => if f c then i else IndexFunc_from (i + 1) s' f
  end.

Definition IndexFunc (s : string) (f : ascii → bool) : Z := IndexFunc_from 0 s f.

(** [strings.LastIndex(s, sep)] for a one-byte separator. *)
Fixpoint LastIndex_from (i : Z) (s : string) (sep : ascii) (found : Z) : Z :=
  match s with
  | EmptyString => found
  | String c s' =>
      LastIndex_from (i + 1) s' sep (if Ascii.eqb c sep then i else found)
  end.

Definition LastIndex (s : string) (sep : ascii) : Z := LastIndex_from 0 s sep (-1).

(** [strings.Contains(s, sep)] for a one-byte separator. *)
Fixpoint Contains (s : string) (sep : ascii) : bool :=
  match s with
  | EmptyString => false
  | String c s' => Ascii.eqb c sep || Contains s' sep
  end.

(** The slice expression [s[i:]]. *)
Fixpoint slice_from (s : string) (i : nat) {struct i} : string :=
  match i with
  | O => s
  | S i' =>
      match s with
      | String _ s' => slice_from s' i'
      | EmptyString => EmptyString
      end
  end.

End strings.

Definition len_string (s : string) : Z := Z.of_nat (String.length s).

Definition dot : ascii := "."%char.
Definition slash : ascii := "/"%char.

(** ** [filepath.Base] (Unix) *)

Module filepath.

(** Drop the trailing path separators of a path given in reverse. *)
Fixpoint strip_slashes (rev_path : list ascii) : list ascii :=
  match rev_path with
  | c :: rest => if Ascii.eqb c slash then strip_slashes rest else rev_path
  | [] => []
  end.

(** The last element of a path given in reverse, in reverse. *)
Fixpoint last_element (rev_path : list ascii) : list ascii :=
  match rev_path with
  | c :: rest => if Ascii.eqb c slash then [] else c :: last_element rest
  | [] => []
  end.

Definition Base (path : string) : string :=
  if String.eqb path "" then "."
  else
    let stripped := strip_slashes (rev (list_ascii_of_string path)) in
    let elem := string_of_list_ascii (rev (last_element stripped)) in
    if String.eqb elem "" then "/" else elem.

End filepath.

(** ** Labels ([label.Label] of bazel-gazelle) *)

Module label.

Record Label := mkLabel {
  Repo : string;
  Pkg : string;
  Name : string;
  Relative : bool
}.

(** [l.Equal(other)]: all four fields agree. *)
Definition Equal (l other : Label) : bool :=
  String.eqb (Repo l) (Repo other) && String.eqb (Pkg l) (Pkg other)
  && String.eqb (Name l) (Name other) && Bool.eqb (Relative l) (Relative other).

Definition withRepo (l : Label) (repo : string) : Label :=
  mkLabel repo (Pkg l) (Name l) (Relative l).

End label.

(** [resolve.FindResult] and its method [IsSelfImport]. *)
Record FindResult := mkFindResult {
  Label : label.Label;
  Embeds : list label.Label
}.

Definition IsSelfImport (r : FindResult) (from : label.Label) : bool :=
  label.Equal from (Label r) || existsb (label.Equal from) (Embeds r).

(** ** What [resolve.go] uses from its surroundings *)

(** The per-package configuration ([pythonconfig.Config]). *)
Record Config := mkConfig {
  ExperimentalAllowRelativeImports : bool;
  PerFileGeneration : bool;
  CoarseGrainedGeneration : bool;
  ValidateImportStatements : bool;
  GeneratePyiDeps : bool;
  PythonProjectRoot : string;
  (** the target and the distribution name of a third-party module *)
  FindThirdPartyDependency : string → option (string * string)
}.

(** Functions of other packages, and the environment of the process. *)
Record Host := mkHost {
  (** [resolve.FindRuleWithOverride(c, ImportSpec{py, imp}, py)] *)
  FindRuleWithOverride : string → option label.Label;
  (** [ix.FindRulesByImportWithConfig(c, ImportSpec{py, imp}, py)] *)
  FindRulesByImportWithConfig : string → list FindResult;
  (** [isStdModule(Module{Name: name})] *)
  isStdModule : string → bool;
  (** [l.Rel(repo, pkg)] and [l.String()] *)
  label_Rel : label.Label → string → string → label.Label;
  label_String : label.Label → string;
  (** [filepath.Join(dir, file)] *)
  filepath_Join : string → string → string;
  (** [strings.ToLower] and [strings.TrimSpace] *)
  ToLower : string → string;
  TrimSpace : string → string;
  (** [os.Getenv("EXPLAIN_DEPENDENCY")] *)
  EXPLAIN_DEPENDENCY : string
}.

(** An import record ([Module] of the parser). *)
Record PyModule := mkPyModule {
  Name : string;
  From : string;
  Filepath : string;
  LineNumber : Z;
  TypeCheckingOnly : bool
}.

(** ** The declared-order table *)

Definition depsOrderFilename : string := "deps-order.txt".

Record DepsOrderResolver := mkDepsOrderResolver {
  fileToIndex : gmap string Z;
  loaded : bool;
  importToSrcs : gmap string (list string)
}.

Definition NewDepsOrderResolver : DepsOrderResolver :=
  mkDepsOrderResolver ∅ false ∅.

(** What [os.Open] and the [bufio.Scanner] over the file answer: the file is
    missing, opening fails for another reason, or the scanner delivers
    [lines] and then stops, with or without an error. *)
Inductive OpenResult :=
| NotExist
| OpenError (err : string)
| Opened (lines : list string) (scanErr : option string).

Section Order.

Variable h : Host.

(** One turn of the scanning loop of [LoadDepsOrder]. *)
Definition scanLine (tbl : gmap string Z) (index : Z) (text : string)
  : gmap string Z * Z :=
  let line := TrimSpace h text in
  if String.eqb line "" || strings.HasPrefix line "#" then (tbl, index)
  else (<[line := index]> tbl, index + 1).

Fixpoint scanLoop (lines : list string) (tbl : gmap string Z) (index : Z)
  : gmap string Z * Z :=
  match lines with
  | [] => (tbl, index)
  | text :: rest =>
      let '(tbl', index') := scanLine tbl index text in
      scanLoop rest tbl' index'
  end.

(** [LoadDepsOrder]: the resolver after the call, and the error returned. *)
Definition LoadDepsOrder (d : DepsOrderResolver) (fs : OpenResult)
  : DepsOrderResolver * option string :=
  if loaded d then (d, None)
  else
    match fs with
    | NotExist => (mkDepsOrderResolver (fileToIndex d) true (importToSrcs d), None)
    | OpenError err => (d, Some ("failed to open " +:+ depsOrderFilename +:+ ": " +:+ err))
    | Opened lines scanErr =>
        let tbl := fst (scanLoop lines (fileToIndex d) 0) in
        match scanErr with
        | Some err =>
            (mkDepsOrderResolver tbl false (importToSrcs d),
             Some ("failed to read " +:+ depsOrderFilename +:+ ": " +:+ err))
        | None => (mkDepsOrderResolver tbl true (importToSrcs d), None)
        end
    end.

End Order.

(** The loop of [GetAverageIndex]: [totalIndex] and [validSrcs]. *)
Fixpoint sumIndexes (tbl : gmap string Z) (srcs : list string)
    (totalIndex validSrcs : Z) : Z * Z :=
  match srcs with
  | [] => (totalIndex, validSrcs)
  | src :: rest =>
      let filename := filepath.Base src in
      match tbl !! src with
      | Some index => sumIndexes tbl rest (int_add totalIndex index) (validSrcs + 1)
      | None =>
          match tbl !! filename with
          | Some index => sumIndexes tbl rest (int_add totalIndex index) (validSrcs + 1)
          | None => sumIndexes tbl rest totalIndex validSrcs
          end
      end
  end.

Definition len_map {V} (m : gmap string V) : Z := Z.of_nat (size m).

Definition GetAverageIndex (d : DepsOrderResolver) (srcs : list string) : float :=
  if len_map (fileToIndex d) =? 0 then 0%float
  else
    let '(totalIndex, validSrcs) := sumIndexes (fileToIndex d) srcs 0 0 in
    if validSrcs =? 0 then float64 (len_map (fileToIndex d))
    else (float64 totalIndex / float64 validSrcs)%float.

Definition ShouldAddToDepsToRemove (d : DepsOrderResolver)
    (currentTargetSrcs depTargetSrcs : list string) : bool :=
  if len_map (fileToIndex d) =? 0 then false
  else
    let currentAvg := GetAverageIndex d currentTargetSrcs in
    let depAvg := GetAverageIndex d depTargetSrcs in
    (currentAvg <? depAvg)%float.

Definition getSourcesForImport (d : DepsOrderResolver) (importName : string)
    : list string :=
  match importToSrcs d !! importName with
  | Some srcs => srcs
  | None => []
  end.

(** [RegisterImportSources], called by [Imports] with the names a rule provides. *)
Definition RegisterImportSources (h : Host) (d : DepsOrderResolver)
    (importSpecs : list string) (pkgPath : string) (srcs : list string)
    : DepsOrderResolver :=
  let repoRelativeSrcs := map (filepath_Join h pkgPath) srcs in
  mkDepsOrderResolver (fileToIndex d) (loaded d)
    (foldl (λ m imp, <[imp := repoRelativeSrcs]> m) (importToSrcs d) importSpecs).

(** ** The dependency sets *)

(** [addDependency]: the sets [deps] and [pyiDeps] after the call. *)
Definition addDependency (dep : string) (typeCheckingOnly : bool)
    (deps pyiDeps : gset string) : gset string * gset string :=
  if typeCheckingOnly then
    if negb (bool_decide (dep ∈ deps)) then (deps, {[dep]} ∪ pyiDeps)
    else (deps, pyiDeps)
  else ({[dep]} ∪ deps, pyiDeps ∖ {[dep]}).

(** A generated rule: its sources, the private attribute
    [_gazelle_python_resolved_deps], and the attributes [Resolve] sets. *)
Record Rule := mkRule {
  srcs : list string;
  resolvedDeps : gset string;
  attrs : gmap string (gset string)
}.

Definition SetAttr (r : Rule) (key : string) (value : gset string) : Rule :=
  mkRule (srcs r) (resolvedDeps r) (<[key := value]> (attrs r)).

(** [addResolvedDeps]: every pre-resolved name is inserted into [deps]. *)
Definition addResolvedDeps (r : Rule) (deps : gset string) : gset string :=
  if negb (bool_decide (resolvedDeps r = ∅))
  then foldl (λ acc dep, {[dep]} ∪ acc) deps (elements (resolvedDeps r))
  else deps.

(** ** Relative imports and the chain of candidate names *)

Definition len {A} (l : list A) : Z := Z.of_nat (length l).

(** The number of leading dots of [mod.From]. *)
Definition relativeDepthOf (from : string) : Z :=
  let relativeDepth := strings.IndexFunc from (λ r, negb (Ascii.eqb r dot)) in
  if relativeDepth =? -1 then len_string from else relativeDepth.

(** The final symbol of [mod.Name]. *)
Definition importedOf (name : string) : string :=
  let idx := strings.LastIndex name dot in
  if 0 <=? idx then strings.slice_from name (Z.to_nat (idx + 1)) else name.

(** The subpath of the [from] clause, as segments. *)
Definition fromPartsOf (from : string) : list string :=
  let fromPath := strings.TrimLeft from dot in
  if negb (String.eqb fromPath "") then strings.Split fromPath dot else [].

(** The body of the branch for a relative import: [None] stands for the
    "exceeds package root" exit, [Some moduleName] for the absolute name. *)
Definition normalizeRelative (mod_ : PyModule) (pkg : string) : option string :=
  let relativeDepth := relativeDepthOf (From mod_) in
  let imported := importedOf (Name mod_) in
  let fromParts := fromPartsOf (From mod_) in
  let pkgParts := strings.Split pkg slash in
  if len pkgParts <? relativeDepth - 1 then None
  else
    let baseParts :=
      if 1 <? relativeDepth
      then take (Z.to_nat (len pkgParts - (relativeDepth - 1))) pkgParts
      else pkgParts in
    let absParts := baseParts ++ fromParts ++ [imported] in
    Some (strings.Join absParts ".").

(** The loop [for len(moduleParts) > 1] that builds [possibleModules]. *)
Equations? possibleLoop (moduleParts possibleModules : list string) : list string
    by wf (length moduleParts) lt :=
  possibleLoop moduleParts possibleModules with decide (1 < length moduleParts)%nat := {
    | left _ =>
        possibleLoop (take (length moduleParts - 1) moduleParts)
          (possibleModules ++ [strings.Join (take (length moduleParts - 1) moduleParts) "."]);
    | right _ => possibleModules }.
Proof. rewrite length_take. lia. Qed.

Definition possibleModulesOf (moduleName : string) : list string :=
  possibleLoop (strings.Split moduleName dot) [moduleName].

(** ** Resolution of one unit *)

(** The errors collected in [errs]; the program formats them as text. *)
Inductive ResolveError :=
| UnresolvedImport (filepath : string) (line : Z) (moduleName : string)
| AmbiguousImport (filepath : string) (line : Z) (targets : string)
    (moduleName : string).

Inductive Strategy := ByOverride | ByThirdParty | ByIndex.

(** The calls of [log.Printf]. *)
Inductive LogEntry :=
| InvalidRelativeImport (name filepath : string)
| ExplainDependency (how : Strategy) (dep from filepath moduleName : string) (line : Z)
| ValidationFailed (from : string) (errs : list ResolveError)
| LoadWarning (err : string).

(** The variables the loop over the import records updates. *)
Record Loop := mkLoop {
  deps : gset string;
  pyiDeps : gset string;
  resolver : DepsOrderResolver;
  hasFatalError : bool;
  log : list LogEntry
}.

(** How one turn of the loop over [possibleModules] ends: with
    [continue MODULES_LOOP], or by going on to the next candidate. *)
Inductive Flow :=
| ContinueModules (st : Loop)
| ContinueCandidates (errs : list ResolveError).

Section Resolve.

Variable h : Host.
Variable cfg : Config.
Variable from : label.Label.

Definition fromString : string := label_String h from.

Definition explain (how : Strategy) (dep : string) (mod_ : PyModule)
    (moduleName : string) (lg : list LogEntry) : list LogEntry :=
  if String.eqb (EXPLAIN_DEPENDENCY h) dep
  then lg ++ [ExplainDependency how dep fromString (Filepath mod_) moduleName
                (LineNumber mod_)]
  else lg.

(** [addDependency] on the sets of the loop, followed by the explanation. *)
Definition addAndExplain (how : Strategy) (dep : string) (mod_ : PyModule)
    (moduleName : string) (st : Loop) (d : DepsOrderResolver) : Loop :=
  let '(deps', pyiDeps') :=
    addDependency dep (TypeCheckingOnly mod_) (deps st) (pyiDeps st) in
  mkLoop deps' pyiDeps' d (hasFatalError st) (explain how dep mod_ moduleName (log st)).

(** The four stub package names probed for a distribution. *)
Definition stubModules (distributionName : string) : list string :=
  let lower := ToLower h distributionName in
  [lower +:+ "_stubs"; lower +:+ "_types"; "types_" +:+ lower; "stubs_" +:+ lower].

Definition addStubs (modules : list string) (sets : gset string * gset string)
    : gset string * gset string :=
  foldl (λ acc module,
           match FindThirdPartyDependency cfg module with
           | Some (dep, _) => addDependency dep true acc.1 acc.2
           | None => acc
           end) sets modules.

(** The source file guessed for a first-party match. *)
Definition depSrcsPathsOf (moduleName : string) (m : FindResult) : list string :=
  if strings.Contains moduleName dot then
    let parts := strings.Split moduleName dot in
    let srcFile := default "" (last parts) +:+ ".py" in
    [filepath_Join h (label.Pkg (Label m)) srcFile]
  else
    let srcFile := moduleName +:+ ".py" in
    [filepath_Join h (label.Pkg (Label m)) srcFile].

Definition targetListFromResults (results : list FindResult) : string :=
  strings.Join (map (λ r, label_String h (Label r)) results) ", ".

(** The loop that copies [matches] to [filteredMatches]; [None] stands for
    the [continue MODULES_LOOP] taken at a match that is the unit itself. *)
Fixpoint filterSelf (matches filteredMatches : list FindResult)
    : option (list FindResult) :=
  match matches with
  | [] => Some filteredMatches
  | m :: rest =>
      if IsSelfImport m from then None
      else filterSelf rest (filteredMatches ++ [m])
  end.

(** The end of the loop body: [filteredMatches[0]] becomes a dependency.
    The callers pass a list with at least one element. *)
Definition acceptFirst (mod_ : PyModule) (moduleName : string) (st : Loop)
    (errs : list ResolveError) (filteredMatches : list FindResult) : Flow :=
  match filteredMatches with
  | [] => ContinueCandidates errs
  | m :: _ =>
      let matchLabel := label_Rel h (Label m) (label.Repo from) (label.Pkg from) in
      let dep := label_String h matchLabel in
      let depSrcsPaths := depSrcsPathsOf moduleName m in
      let d := resolver st in
      let d' := mkDepsOrderResolver (fileToIndex d) (loaded d)
                  (<[dep := depSrcsPaths]> (importToSrcs d)) in
      ContinueModules (addAndExplain ByIndex dep mod_ moduleName st d')
  end.

(** The part of the loop body after the lookup in the rule index. *)
Definition resolveFromIndex (mod_ : PyModule) (moduleName : string)
    (st : Loop) (errs : list ResolveError) (matches : list FindResult) : Flow :=
  match filterSelf matches [] with
  | None => ContinueModules st
  | Some filteredMatches =>
      if len filteredMatches =? 0 then ContinueCandidates errs
      else if 1 <? len filteredMatches then
        let sameRootMatches :=
          List.filter
            (λ m, strings.HasPrefix (label.Pkg (Label m)) (PythonProjectRoot cfg))
            filteredMatches in
        if negb (len sameRootMatches =? 1) then
          ContinueCandidates
            (errs ++ [AmbiguousImport (Filepath mod_) (LineNumber mod_)
                        (targetListFromResults filteredMatches) moduleName])
        else acceptFirst mod_ moduleName st errs sameRootMatches
      else acceptFirst mod_ moduleName st errs filteredMatches
  end.

(** [if override.Repo == "" { override.Repo = from.Repo }] *)
Definition defaultRepo (override : label.Label) : label.Label :=
  if String.eqb (label.Repo override) "" then label.withRepo override (label.Repo from)
  else override.

(** [if override.Repo == from.Repo { override.Repo = "" }] *)
Definition elideRepo (override : label.Label) : label.Label :=
  if String.eqb (label.Repo override) (label.Repo from) then label.withRepo override ""
  else override.

(** One turn of [POSSIBLE_MODULE_LOOP]. *)
Definition resolveCandidate (mod_ : PyModule) (st : Loop)
    (errs : list ResolveError) (moduleName : string) : Flow :=
  match FindRuleWithOverride h moduleName with
  | Some override =>
      let override := defaultRepo override in
      if negb (label.Equal override from) then
        let override := elideRepo override in
        let dep := label_String h (label_Rel h override (label.Repo from) (label.Pkg from)) in
        ContinueModules (addAndExplain ByOverride dep mod_ moduleName st (resolver st))
      else ContinueCandidates errs
  | None =>
      match FindThirdPartyDependency cfg moduleName with
      | Some (dep, distributionName) =>
          let '(deps1, pyiDeps1) :=
            addDependency dep (TypeCheckingOnly mod_) (deps st) (pyiDeps st) in
          let '(deps2, pyiDeps2) :=
            addStubs (stubModules distributionName) (deps1, pyiDeps1) in
          ContinueModules
            (mkLoop deps2 pyiDeps2 (resolver st) (hasFatalError st)
               (explain ByThirdParty dep mod_ moduleName (log st)))
      | None =>
          let matches := FindRulesByImportWithConfig h moduleName in
          if len matches =? 0 then
            if isStdModule h moduleName then ContinueModules st
            else if ValidateImportStatements cfg then
              ContinueCandidates
                (errs ++ [UnresolvedImport (Filepath mod_) (LineNumber mod_) moduleName])
            else resolveFromIndex mod_ moduleName st errs matches
          else resolveFromIndex mod_ moduleName st errs matches
      end
  end.

(** [POSSIBLE_MODULE_LOOP] and the report that follows it. *)
Fixpoint resolveCandidates (mod_ : PyModule) (st : Loop)
    (errs : list ResolveError) (possibleModules : list string) : Loop :=
  match possibleModules with
  | [] =>
      if 0 <? len errs then
        mkLoop (deps st) (pyiDeps st) (resolver st) true
          (log st ++ [ValidationFailed fromString errs])
      else st
  | moduleName :: rest =>
      match resolveCandidate mod_ st errs moduleName with
      | ContinueModules st' => st'
      | ContinueCandidates errs' => resolveCandidates mod_ st errs' rest
      end
  end.

Definition isPackageGeneration : bool :=
  negb (PerFileGeneration cfg) && negb (CoarseGrainedGeneration cfg).

(** One turn of [MODULES_LOOP]. *)
Definition resolveModule (st : Loop) (mod_ : PyModule) : Loop :=
  if strings.HasPrefix (From mod_) "." then
    if negb (ExperimentalAllowRelativeImports cfg) || negb isPackageGeneration then st
    else
      match normalizeRelative mod_ (label.Pkg from) with
      | None =>
          mkLoop (deps st) (pyiDeps st) (resolver st) (hasFatalError st)
            (log st ++ [InvalidRelativeImport (Name mod_) (Filepath mod_)])
      | Some moduleName =>
          resolveCandidates mod_ st [] (possibleModulesOf moduleName)
      end
  else resolveCandidates mod_ st [] (possibleModulesOf (Name mod_)).

Definition resolveModules (modules : list PyModule) (st : Loop) : Loop :=
  foldl resolveModule st modules.

End Resolve.

(** ** The attributes of the rule *)

Definition isEmpty (s : gset string) : bool := bool_decide (s = ∅).

(** The closure [createDepsToRemove] of [Resolve]. *)
Definition createDepsToRemove (d : DepsOrderResolver) (currentSrcsPaths : list string)
    (allDeps : gset string) : gset string :=
  if 0 <? len_map (fileToIndex d) then
    foldl (λ depsToRemove dep,
             let depSrcs := getSourcesForImport d dep in
             if ShouldAddToDepsToRemove d currentSrcsPaths depSrcs
             then {[dep]} ∪ depsToRemove else depsToRemove)
      ∅ (elements allDeps)
  else ∅.

(** The end of [Resolve]: the attributes written for the two settings of
    [generate_pyi_deps]. *)
Definition writeAttrs (cfg : Config) (d : DepsOrderResolver)
    (currentSrcsPaths : list string) (r : Rule) (deps pyiDeps : gset string) : Rule :=
  if GeneratePyiDeps cfg then
    let r1 :=
      if negb (isEmpty deps) then
        let r' := SetAttr r "deps" deps in
        let depsToRemove := createDepsToRemove d currentSrcsPaths deps in
        if negb (isEmpty depsToRemove) then SetAttr r' "deps_to_remove" depsToRemove
        else r'
      else r in
    if negb (isEmpty pyiDeps) then SetAttr r1 "pyi_deps" pyiDeps else r1
  else
    let combinedDeps := (∅ ∪ deps) ∪ pyiDeps in
    if negb (isEmpty combinedDeps) then
      let r' := SetAttr r "deps" combinedDeps in
      let depsToRemove := createDepsToRemove d currentSrcsPaths combinedDeps in
      if negb (isEmpty depsToRemove) then SetAttr r' "deps_to_remove" depsToRemove
      else r'
    else r.

(** How a call of [Resolve] ends: [os.Exit(code)], or a return with the rule
    and the shared resolver as the call leaves them.  Both carry what the
    call logged. *)
Inductive Outcome :=
| Exit (code : Z) (lg : list LogEntry)
| Return (r : Rule) (d : DepsOrderResolver) (lg : list LogEntry).

(** The variables of [Resolve] when the block [if modulesRaw != nil] is left
    (before [hasFatalError] is looked at). *)
Definition importLoop (h : Host) (cfg : Config) (d : DepsOrderResolver)
    (modulesRaw : option (list PyModule)) (from : label.Label) : Loop :=
  let st0 := mkLoop ∅ ∅ d false [] in
  match modulesRaw with
  | Some modules => resolveModules h cfg from modules st0
  | None => st0
  end.

Definition Resolve (h : Host) (cfg : Config) (d : DepsOrderResolver) (fs : OpenResult)
    (r : Rule) (modulesRaw : option (list PyModule)) (from : label.Label) : Outcome :=
  let st := importLoop h cfg d modulesRaw from in
  if hasFatalError st then Exit 1 (log st)
  else
    let deps := addResolvedDeps r (deps st) in
    let '(d', err) := LoadDepsOrder h (resolver st) fs in
    let lg :=
      match err with
      | Some e => log st ++ [LoadWarning e]
      | None => log st
      end in
    let currentSrcsPaths := map (filepath_Join h (label.Pkg from)) (srcs r) in
    Return (writeAttrs cfg d' currentSrcsPaths r deps (pyiDeps st)) d' lg.

(** ** A run over several units

    Gazelle calls [Resolve] once for every generated rule, one call after the
    other, on the one resolver of the language; [os.Exit] ends the process,
    so no call follows it. *)

Record ResolveCall := mkResolveCall {
  call_cfg : Config;
  call_fs : OpenResult;
  call_rule : Rule;
  call_modules : option (list PyModule);
  call_from : label.Label
}.

Inductive RunOutcome :=
| Aborted (code : Z) (resolved : list Rule) (lg : list LogEntry)
| Finished (resolved : list Rule) (d : DepsOrderResolver) (lg : list LogEntry).

Fixpoint run (h : Host) (calls : list ResolveCall) (d : DepsOrderResolver)
    (resolved : list Rule) (lg : list LogEntry) : RunOutcome :=
  match calls with
  | [] => Finished resolved d lg
  | c :: rest =>
      match Resolve h (call_cfg c) d (call_fs c) (call_rule c) (call_modules c)
              (call_from c) with
      | Exit code lg' => Aborted code resolved (lg ++ lg')
      | Return r d' lg' => run h rest d' (resolved ++ [r]) (lg ++ lg')
      end
  end.


(** ** The names a rule provides

    [Imports] and [importSpecFromSrc], with the functions of [strings] and
    [filepath] they use. *)

(** [strings.ReplaceAll(s, old, new)] for one-byte [old] and [new]. *)
Fixpoint strings_ReplaceAll (s : string) (old new : ascii) : string :=
  match s with
  | EmptyString => EmptyString
  | String c s' =>
      String (if Ascii.eqb c old then new else c) (strings_ReplaceAll s' old new)
  end.

(** The slice expression [s[:i]]. *)
Fixpoint slice_to (s : string) (i : nat) {struct i} : string :=
  match i with
  | O => EmptyString
  | S i' =>
      match s with
      | String c s' => String c (slice_to s' i')
      | EmptyString => EmptyString
      end
  end.

(** [strings.HasSuffix(s, suffix)] and [strings.TrimSuffix(s, suffix)] *)
Definition strings_HasSuffix (s suffix : string) : bool :=
  (String.length suffix <=? String.length s)%nat
  && String.eqb (strings.slice_from s (String.length s - String.length suffix)) suffix.

Definition strings_TrimSuffix (s suffix : string) : string :=
  if strings_HasSuffix s suffix
  then slice_to s (String.length s - String.length suffix)
  else s.

(** The loop of [filepath.Ext], over the path in reverse: [tail] holds the
    bytes already passed. *)
Fixpoint ext_loop (rev_path tail : list ascii) : list ascii :=
  match rev_path with
  | [] => []
  | c :: rest =>
      if Ascii.eqb c slash then []
      else if Ascii.eqb c dot then c :: tail
      else ext_loop rest (c :: tail)
  end.

Definition filepath_Ext (path : string) : string :=
  string_of_list_ascii (ext_loop (rev (list_ascii_of_string path)) []).

(** What [Imports] uses beyond [Host]: [filepath.Dir], [filepath.Rel] (whose
    error is [None]), and the constant [pyLibraryEntrypointFilename] of the
    generator. *)
Record Package := mkPackage {
  filepath_Dir : string → string;
  filepath_Rel : string → string → option string;
  pyLibraryEntrypointFilename : string
}.

Section Provides.

Variable h : Host.
Variable p : Package.

(** [importSpecFromSrc]: the [Imp] of the import spec; [None] is the panic
    on an error of [filepath.Rel]. *)
Definition importSpecFromSrc (pythonProjectRoot bzlPkg src : string) : option string :=
  let pythonPkgDir := filepath_Join h bzlPkg (filepath_Dir p src) in
  match filepath_Rel p pythonProjectRoot pythonPkgDir with
  | None => None
  | Some relPythonPkgDir =>
      let relPythonPkgDir :=
        if String.eqb relPythonPkgDir "." then "" else relPythonPkgDir in
      let pythonPkg := strings_ReplaceAll relPythonPkgDir slash dot in
      let filename := filepath.Base src in
      if String.eqb filename (pyLibraryEntrypointFilename p)
         && negb (String.eqb pythonPkg "")
      then Some pythonPkg
      else
        let moduleName := strings_TrimSuffix filename ".py" in
        if String.eqb pythonPkg "" then Some moduleName
        else Some (pythonPkg +:+ "." +:+ moduleName)
  end.

(** The loop of [Imports] over the sources; [None] is the panic. *)
Fixpoint providesLoop (cfg : Config) (pkg : string) (allSrcs srcs : list string)
    (provides : list string) : option (list string) :=
  match srcs with
  | [] => Some provides
  | src :: rest =>
      let ext := filepath_Ext src in
      if negb (String.eqb ext ".py") then providesLoop cfg pkg allSrcs rest provides
      else if PerFileGeneration cfg && (1 <? len allSrcs)
              && String.eqb src (pyLibraryEntrypointFilename p)
      then providesLoop cfg pkg allSrcs rest provides
      else
        match importSpecFromSrc (PythonProjectRoot cfg) pkg src with
        | None => None
        | Some provide => providesLoop cfg pkg allSrcs rest (provides ++ [provide])
        end
  end.

(** How a call of [Imports] ends: a panic, or a return of [nil] or of a list
    of names, with the resolver as the call leaves it. *)
Inductive ImportsOutcome :=
| ImportsPanic
| ImportsReturn (provides : option (list string)) (d : DepsOrderResolver).

Definition Imports (cfg : Config) (d : DepsOrderResolver) (r : Rule) (pkg : string)
    : ImportsOutcome :=
  match providesLoop cfg pkg (srcs r) (srcs r) [] with
  | None => ImportsPanic
  | Some provides =>
      if len provides =? 0 then ImportsReturn None d
      else ImportsReturn (Some provides)
             (RegisterImportSources h d provides pkg (srcs r))
  end.

End Provides.

(** ** Vocabulary of the statements *)

(** The rank [GetAverageIndex] gives to a list of sources. *)
Definition rank (d : DepsOrderResolver) (srcs : list string) : float :=
  GetAverageIndex d srcs.

(** The rank of one source file: its exact path first, its bare filename
    otherwise. *)
Definition rankOfFile (tbl : gmap string Z) (src : string) : option Z :=
  match tbl !! src with
  | Some index => Some index
  | None => tbl !! filepath.Base src
  end.

(** The ranks of the sources that the table knows. *)
Definition foundRanks (tbl : gmap string Z) (srcs : list string) : list Z :=
  omap (rankOfFile tbl) srcs.

Definition sumZ (l : list Z) : Z := foldr Z.add 0 l.

(** The arithmetic mean of a list of ranks, as a [float64] quotient. *)
Definition mean (ranks : list Z) : float :=
  (float64 (sumZ ranks) / float64 (len ranks))%float.

(** The lines of the order file that are neither blank nor comments. *)
Definition keptLines (h : Host) (lines : list string) : list string :=
  List.filter (λ line, negb (String.eqb line "" || strings.HasPrefix line "#"))
    (map (TrimSpace h) lines).

(** The position of the last occurrence of [k] in [ks]. *)
Fixpoint lastIndexOf (k : string) (ks : list string) : option nat :=
  match ks with
  | [] => None
  | x :: rest =>
      match lastIndexOf k rest with
      | Some j => Some (S j)
      | None => if decide (x = k) then Some 0%nat else None
      end
  end.

(** The number of leading dots of a string. *)
Fixpoint leadingDots (s : string) : nat :=
  match s with
  | String c s' => if Ascii.eqb c dot then S (leadingDots s') else 0
  | EmptyString => 0
  end.

(** The position of the last separator of a string. *)
Fixpoint lastSep (s : string) (sep : ascii) : option nat :=
  match s with
  | EmptyString => None
  | String c s' =>
      match lastSep s' sep with
      | Some j => Some (S j)
      | None => if Ascii.eqb c sep then Some 0%nat else None
      end
  end.

(** The dotted segments of a qualified name, and its chain of candidates:
    the first [k] segments joined again, for [k] from the number of segments
    down to one. *)
Definition segments (name : string) : list string := strings.Split name dot.

Definition candidateChain (name : string) : list string :=
  map (λ k, strings.Join (take k (segments name)) ".")
    (rev (seq 1 (length (segments name)))).

(** The absolute name of a relative import made in package [pkg]: with [d]
    leading dots, climb [d - 1] levels from the segments of the package,
    then the segments of the subpath, then the imported symbol, all joined
    with dots. *)
Definition absoluteName (pkg : string) (mod_ : PyModule) : string :=
  let d := leadingDots (From mod_) in
  let pkgParts := strings.Split pkg slash in
  let subpath := strings.slice_from (From mod_) d in
  let subParts := if String.eqb subpath "" then [] else strings.Split subpath dot in
  let symbol := default "" (last (segments (Name mod_))) in
  strings.Join (take (length pkgParts - (d - 1)) pkgParts ++ subParts ++ [symbol]) ".".

(** A rule as the generator hands it to [Resolve]: none of the three
    attributes that [Resolve] writes is set. *)
Definition fresh (r : Rule) : Prop :=
  attrs r !! "deps" = None ∧ attrs r !! "pyi_deps" = None
  ∧ attrs r !! "deps_to_remove" = None.

(** An attribute of a rule, read as a set (empty when it is not set). *)
Definition attrSet (r : Rule) (key : string) : gset string :=
  default ∅ (attrs r !! key).

Definition isValidationFailed (e : LogEntry) : bool :=
  match e with ValidationFailed _ _ => true | _ => false end.

(** The three ways in which the loop over the import records obtains a
    target: an override whose label differs from the unit, the third-party
    manifest, or a match of the rule index that is not the unit. *)
Definition viaOverride (h : Host) (from : label.Label) (dep : string) : Prop :=
  ∃ name override,
    FindRuleWithOverride h name = Some override
    ∧ label.Equal (defaultRepo from override) from = false
    ∧ dep = label_String h
              (label_Rel h (elideRepo from (defaultRepo from override))
                 (label.Repo from) (label.Pkg from)).

Definition viaThirdParty (cfg : Config) (dep : string) : Prop :=
  ∃ name distributionName,
    FindThirdPartyDependency cfg name = Some (dep, distributionName).

Definition viaIndex (h : Host) (from : label.Label) (dep : string) : Prop :=
  ∃ name m,
    m ∈ FindRulesByImportWithConfig h name
    ∧ IsSelfImport m from = false
    ∧ dep = label_String h (label_Rel h (Label m) (label.Repo from) (label.Pkg from)).

Definition resolvedTarget (h : Host) (cfg : Config) (from : label.Label)
    (dep : string) : Prop :=
  viaOverride h from dep ∨ viaThirdParty cfg dep ∨ viaIndex h from dep.

(** The changes a turn of the loops makes to the variables of [Resolve]. *)
Definition added (st : Loop) (dep : string) (typeCheckingOnly : bool)
    (srcsIndex : gmap string (list string)) : Loop :=
  mkLoop (addDependency dep typeCheckingOnly (deps st) (pyiDeps st)).1
    (addDependency dep typeCheckingOnly (deps st) (pyiDeps st)).2
    (mkDepsOrderResolver (fileToIndex (resolver st)) (loaded (resolver st)) srcsIndex)
    (hasFatalError st) (log st).

Definition noted (st : Loop) (e : LogEntry) : Loop :=
  mkLoop (deps st) (pyiDeps st) (resolver st) (hasFatalError st) (log st ++ [e]).

Definition reported (st : Loop) (from : string) (errs : list ResolveError) : Loop :=
  mkLoop (deps st) (pyiDeps st) (resolver st) true
    (log st ++ [ValidationFailed from errs]).

(** The end of a record none of whose candidates resolved. *)
Definition finish (h : Host) (from : label.Label) (st : Loop)
    (errs : list ResolveError) : Loop :=
  if 0 <? len errs then reported st (fromString h from) errs else st.

(** A turn that reports no validation failure: it adds targets that satisfy
    [ok], and logs entries other than validation failures. *)
Inductive quiet (ok : string → Prop) : Loop → Loop → Prop :=
| quiet_none st : quiet ok st st
| quiet_add st dep typeCheckingOnly srcsIndex :
    ok dep → quiet ok st (added st dep typeCheckingOnly srcsIndex)
| quiet_note st e : isValidationFailed e = false → quiet ok st (noted st e)
| quiet_trans st1 st2 st3 : quiet ok st1 st2 → quiet ok st2 st3 → quiet ok st1 st3.

(** The error one candidate name contributes to [errs], if any. *)
Definition candidateErrors (h : Host) (cfg : Config) (from : label.Label)
    (mod_ : PyModule) (st : Loop) (moduleName : string) : list ResolveError :=
  match resolveCandidate h cfg from mod_ st [] moduleName with
  | ContinueCandidates errs => errs
  | ContinueModules _ => []
  end.

(** ** A sample host for the closed examples

    Paths are joined with a slash, labels are rendered in the long form
    [//pkg:name] (relative ones as [:name]), lower-casing and trimming are
    the identity (the examples use lower case names without surrounding
    blanks), and no explanation is asked for. *)

Module Sample.

Definition join (dir file : string) : string :=
  if String.eqb dir "" then file else dir +:+ "/" +:+ file.

Definition rel (l : label.Label) (repo pkg : string) : label.Label :=
  if label.Relative l || negb (String.eqb (label.Repo l) repo) then l
  else if String.eqb (label.Pkg l) pkg then label.mkLabel "" "" (label.Name l) true
  else label.mkLabel "" (label.Pkg l) (label.Name l) false.

Definition render (l : label.Label) : string :=
  if label.Relative l then ":" +:+ label.Name l
  else (if String.eqb (label.Repo l) "" then "" else "@" +:+ label.Repo l)
       +:+ "//" +:+ label.Pkg l +:+ ":" +:+ label.Name l.

Definition host (overrides : string → option label.Label)
    (index : string → list FindResult) : Host :=
  mkHost overrides index (λ _, false) rel render join (λ s, s) (λ s, s) "".

Definition noOverride : string → option label.Label := λ _, None.

(** The rule index: the package [app] has one library for each of its three
    modules. *)
Definition index (name : string) : list FindResult :=
  if String.eqb name "foundation" || String.eqb name "middleware"
     || String.eqb name "application"
  then [mkFindResult (label.mkLabel "" "app" name false) []]
  else [].

Definition h : Host := host noOverride index.

(** Strict validation, relative imports allowed, package generation;
    [pyi] is the setting of [generate_pyi_deps]. *)
Definition cfg (pyi : bool) : Config :=
  mkConfig true false false true pyi "" (λ _, None).

Definition unit (name : string) : label.Label := label.mkLabel "" "app" name false.

(** The rule generated for a module of [app], with its pre-resolved names. *)
Definition rule (name : string) (preResolved : gset string) : Rule :=
  mkRule [name +:+ ".py"] preResolved ∅.

Definition import (name : string) (typeCheckingOnly : bool) : PyModule :=
  mkPyModule name "" "app/source.py" 1 typeCheckingOnly.

(** The declared order of the three layers. *)
Definition layers : OpenResult :=
  Opened ["# layers"; "app/foundation.py"; ""; "app/middleware.py";
          "app/application.py"] None.

(** An order file with a comment, a blank line and a repeated entry. *)
Definition orderLines : list string :=
  ["# layers"; "pkg/lib.py"; ""; "foo.py"; "pkg/lib.py"; "pkg/lib.py"; "top.py"].

Definition ordered : DepsOrderResolver :=
  (LoadDepsOrder h NewDepsOrderResolver (Opened orderLines None)).1.

(** The parts of an outcome that returned. *)
Definition ruleOf (o : Outcome) : Rule :=
  match o with Return r _ _ => r | Exit _ _ => mkRule [] ∅ ∅ end.

Definition resolverOf (o : Outcome) : DepsOrderResolver :=
  match o with Return _ d _ => d | Exit _ _ => NewDepsOrderResolver end.

Definition logOf (o : Outcome) : list LogEntry :=
  match o with Return _ _ lg => lg | Exit _ lg => lg end.

(** The variables of [Resolve] before the first import record. *)
Definition start : Loop := mkLoop ∅ ∅ NewDepsOrderResolver false [].

(** [from ..shared.util import helper], and an import that climbs too far. *)
Definition relative : PyModule :=
  mkPyModule "helper" "..shared.util" "app/sub/source.py" 1 false.

Definition tooDeep : PyModule :=
  mkPyModule "helper" "...." "app/sub/source.py" 2 false.

Definition nested : label.Label := label.mkLabel "" "app/sub" "sub" false.

(** [middleware] imports [foundation], and [application] for type checking
    only. *)
Definition middleware (pyi : bool) : Outcome :=
  Resolve h (cfg pyi) NewDepsOrderResolver layers (rule "middleware" ∅)
    (Some [import "foundation" false; import "application" true]) (unit "middleware").

(** [foundation] imports [middleware]. *)
Definition foundation : Outcome :=
  Resolve h (cfg true) NewDepsOrderResolver layers (rule "foundation" ∅)
    (Some [import "middleware" false]) (unit "foundation").

(** [middleware] as generated for a file with [include_dep :foundation] that
    also imports [foundation] under [TYPE_CHECKING]. *)
Definition overlapping : Outcome :=
  Resolve h (cfg true) NewDepsOrderResolver layers (rule "middleware" {[":foundation"]})
    (Some [import "foundation" true]) (unit "middleware").

(** [foundation] with its own label among the pre-resolved names. *)
Definition selfListed : Outcome :=
  Resolve h (cfg true) NewDepsOrderResolver layers (rule "foundation" {[":foundation"]})
    (Some []) (unit "foundation").

(** Two calls of a run: [middleware] with two imports that nothing provides,
    then [foundation]. *)
Definition brokenCall : ResolveCall :=
  mkResolveCall (cfg true) layers (rule "middleware" ∅)
    (Some [import "missing_one" false; import "missing_two" false]) (unit "middleware").

Definition foundationCall : ResolveCall :=
  mkResolveCall (cfg true) layers (rule "foundation" ∅)
    (Some [import "middleware" false]) (unit "foundation").

(** The root package: [//:main], beside a library [//:y] that provides [y]. *)
Definition rootIndex (name : string) : list FindResult :=
  if String.eqb name "y" then [mkFindResult (label.mkLabel "" "" "y" false) []] else [].

Definition main : label.Label := label.mkLabel "" "" "main" false.

(** [from . import y], [from .. import y] and [from ... import y]. *)
Definition fromHere : PyModule := mkPyModule "y" "." "main.py" 1 false.
Definition fromParent : PyModule := mkPyModule "y" ".." "main.py" 1 false.
Definition fromGrandparent : PyModule := mkPyModule "y" "..." "main.py" 1 false.

Definition atRoot (mod_ : PyModule) : Outcome :=
  Resolve (host noOverride rootIndex) (cfg true) NewDepsOrderResolver NotExist
    (mkRule ["main.py"] ∅ ∅) (Some [mod_]) main.

End Sample.


(** A series of calls of [addDependency], in order. *)
Definition addAll (calls : list (string * bool)) (sets : gset string * gset string)
    : gset string * gset string :=
  foldl (λ acc call, addDependency call.1 call.2 acc.1 acc.2) sets calls.

(** The stub targets the third-party manifest knows for a list of names. *)
Definition stubTargets (cfg : Config) (modules : list string) : list string :=
  omap (λ module, fst <$> FindThirdPartyDependency cfg module) modules.

(** What one import record does to the variables of [Resolve]: nothing, the
    log entry of an invalid relative import, a resolution (the target, the
    stub targets added for type checking only, and the sources recorded for
    the target, if any), or a report of errors. *)
Inductive Action :=
| Skip
| Invalid
| Resolved (how : Strategy) (moduleName dep : string) (stubs : list string)
    (paths : option (list string))
| Reported (errs : list ResolveError).

Definition callsOf (mod_ : PyModule) (a : Action) : list (string * bool) :=
  match a with
  | Resolved _ _ dep stubs _ => (dep, TypeCheckingOnly mod_) :: map (λ s, (s, true)) stubs
  | _ => []
  end.

Definition applyAction (h : Host) (from : label.Label) (mod_ : PyModule) (a : Action)
    (st : Loop) : Loop :=
  match a with
  | Skip => st
  | Invalid => noted st (InvalidRelativeImport (Name mod_) (Filepath mod_))
  | Resolved how moduleName dep stubs paths =>
      let sets := addAll (callsOf mod_ a) (deps st, pyiDeps st) in
      let d := resolver st in
      mkLoop sets.1 sets.2
        (mkDepsOrderResolver (fileToIndex d) (loaded d)
           match paths with
           | Some srcs => <[dep := srcs]> (importToSrcs d)
           | None => importToSrcs d
           end)
        (hasFatalError st) (explain h from how dep mod_ moduleName (log st))
  | Reported errs => reported st (fromString h from) errs
  end.

(** Where an error comes from. *)
Definition describesError (h : Host) (cfg : Config) (from : label.Label)
    (mod_ : PyModule) (e : ResolveError) : Prop :=
  match e with
  | UnresolvedImport filepath line moduleName =>
      filepath = Filepath mod_ ∧ line = LineNumber mod_
      ∧ ValidateImportStatements cfg = true
      ∧ FindRuleWithOverride h moduleName = None
      ∧ FindThirdPartyDependency cfg moduleName = None
      ∧ FindRulesByImportWithConfig h moduleName = []
      ∧ isStdModule h moduleName = false
  | AmbiguousImport filepath line targets moduleName =>
      let matches := FindRulesByImportWithConfig h moduleName in
      filepath = Filepath mod_ ∧ line = LineNumber mod_
      ∧ FindRuleWithOverride h moduleName = None
      ∧ FindThirdPartyDependency cfg moduleName = None
      ∧ Forall (λ m, IsSelfImport m from = false) matches
      ∧ (2 ≤ length matches)%nat
      ∧ length (List.filter
                  (λ m, strings.HasPrefix (label.Pkg (Label m)) (PythonProjectRoot cfg))
                  matches) ≠ 1%nat
      ∧ targets = targetListFromResults h matches
  end.

(** Where an action comes from. *)
Definition describes (h : Host) (cfg : Config) (from : label.Label) (mod_ : PyModule)
    (a : Action) : Prop :=
  match a with
  | Skip | Invalid => True
  | Resolved ByOverride moduleName dep stubs paths =>
      (∃ override,
         FindRuleWithOverride h moduleName = Some override
         ∧ label.Equal (defaultRepo from override) from = false
         ∧ dep = label_String h
                   (label_Rel h (elideRepo from (defaultRepo from override))
                      (label.Repo from) (label.Pkg from)))
      ∧ stubs = [] ∧ paths = None
  | Resolved ByThirdParty moduleName dep stubs paths =>
      (∃ distributionName,
         FindThirdPartyDependency cfg moduleName = Some (dep, distributionName)
         ∧ stubs = stubTargets cfg (stubModules h distributionName))
      ∧ FindRuleWithOverride h moduleName = None ∧ paths = None
  | Resolved ByIndex moduleName dep stubs paths =>
      (∃ m,
         m ∈ FindRulesByImportWithConfig h moduleName
         ∧ dep = label_String h (label_Rel h (Label m) (label.Repo from) (label.Pkg from))
         ∧ paths = Some (depSrcsPathsOf h moduleName m))
      ∧ Forall (λ m, IsSelfImport m from = false) (FindRulesByImportWithConfig h moduleName)
      ∧ FindRuleWithOverride h moduleName = None
      ∧ FindThirdPartyDependency cfg moduleName = None
      ∧ stubs = []
  | Reported errs => errs ≠ [] ∧ Forall (describesError h cfg from mod_) errs
  end.

Definition isAmbiguous (e : ResolveError) : bool :=
  match e with AmbiguousImport _ _ _ _ => true | _ => false end.

Definition isRelative (mod_ : PyModule) : bool := strings.HasPrefix (From mod_) ".".

(** The candidate names that [Resolve] tries for an import record: its list
    [possibleModules], and no name for a record that is left before the list
    is built. *)
Definition candidatesOf (cfg : Config) (from : label.Label) (mod_ : PyModule)
    : list string :=
  if strings.HasPrefix (From mod_) "." then
    if negb (ExperimentalAllowRelativeImports cfg) || negb (isPackageGeneration cfg)
    then []
    else
      match normalizeRelative mod_ (label.Pkg from) with
      | None => []
      | Some moduleName => possibleModulesOf moduleName
      end
  else possibleModulesOf (Name mod_).

(** The name an error is about. *)
Definition errorName (e : ResolveError) : string :=
  match e with
  | UnresolvedImport _ _ moduleName => moduleName
  | AmbiguousImport _ _ _ moduleName => moduleName
  end.

(** The names an action is about are among [names]. *)
Definition namedIn (names : list string) (a : Action) : Prop :=
  match a with
  | Resolved _ moduleName _ _ _ => moduleName ∈ names
  | Reported errs => Forall (λ e, errorName e ∈ names) errs
  | Skip | Invalid => True
  end.

(** A label as [Resolve] writes it among the dependencies of the unit, and
    the unit's own label written that way. *)
Definition rendered (h : Host) (from l : label.Label) : string :=
  label_String h (label_Rel h l (label.Repo from) (label.Pkg from)).

Definition ownLabel (h : Host) (from : label.Label) : string := rendered h from from.

(** The sources of a unit as [Resolve] ranks them: the [srcs] of its rule
    joined with its package. *)
Definition unitSources (h : Host) (l : label.Label) (r : Rule) : list string :=
  map (filepath_Join h (label.Pkg l)) (srcs r).

(** The targets [Resolve] obtains for a candidate name: the label of an
    override that is not the unit; the target the third-party manifest gives
    for the name, or one it gives for a stub package of the distribution; a
    match of the rule index that is not the unit and does not embed it. *)
Definition obtainedFor (h : Host) (cfg : Config) (from : label.Label)
    (moduleName x : string) : Prop :=
  (∃ override,
     FindRuleWithOverride h moduleName = Some override
     ∧ label.Equal (defaultRepo from override) from = false
     ∧ x = rendered h from (elideRepo from (defaultRepo from override)))
  ∨ (∃ dep distributionName,
       FindThirdPartyDependency cfg moduleName = Some (dep, distributionName)
       ∧ (x = dep
          ∨ ∃ module stubDistribution,
              module ∈ stubModules h distributionName
              ∧ FindThirdPartyDependency cfg module = Some (x, stubDistribution)))
  ∨ (∃ m,
       m ∈ FindRulesByImportWithConfig h moduleName
       ∧ IsSelfImport m from = false
       ∧ x = rendered h from (Label m)).

(** What the statement about the unit's own label takes from Gazelle: the
    labels of the unit, of the rule index and of the override table are
    absolute; an absolute label is written as the unit's own only when its
    repository, package and name are the unit's; the third-party manifest
    does not name the unit. *)
Definition absoluteLabels (h : Host) (from : label.Label) : Prop :=
  label.Relative from = false
  ∧ (∀ moduleName m, m ∈ FindRulesByImportWithConfig h moduleName →
                     label.Relative (Label m) = false)
  ∧ (∀ moduleName override, FindRuleWithOverride h moduleName = Some override →
                            label.Relative override = false).

Definition rendersOnlyUnit (h : Host) (from : label.Label) : Prop :=
  ∀ l, label.Relative l = false → rendered h from l = ownLabel h from →
       label.Repo l = label.Repo from ∧ label.Pkg l = label.Pkg from
       ∧ label.Name l = label.Name from.

Definition externalManifest (cfg : Config) (own : string) : Prop :=
  ∀ moduleName distributionName,
    FindThirdPartyDependency cfg moduleName ≠ Some (own, distributionName).

(** The part of the variables of [Resolve] that decides what is written and
    whether the process exits: the two sets and [hasFatalError]. *)
Definition core (st : Loop) : gset string * gset string * bool :=
  (deps st, pyiDeps st, hasFatalError st).

Definition isReported (a : Action) : bool :=
  match a with Reported _ => true | _ => false end.

Definition coreStep (mod_ : PyModule) (a : Action)
    (c : gset string * gset string * bool) : gset string * gset string * bool :=
  (addAll (callsOf mod_ a) c.1, c.2 || isReported a).

(** ** Further samples *)

Module Further.

(** The sample configuration with validation off. *)
Definition cfg : Config := mkConfig true false false false true "" (λ _, None).

(** A host that is asked to explain the dependency on [:foundation]. *)
Definition explaining : Host :=
  mkHost Sample.noOverride Sample.index (λ _, false) Sample.rel Sample.render
    Sample.join (λ s, s) (λ s, s) ":foundation".

(** Sources directly in their package: [filepath.Dir] answers [.], and
    [filepath.Rel] from the repository root drops the [/.] that the sample
    join leaves; the sample has no other project root. *)
Definition package : Package :=
  mkPackage (λ _, ".")
    (λ root path, if String.eqb root "" then Some (strings_TrimSuffix path "/.") else None)
    "__init__.py".

(** A library of [app] with a data file. *)
Definition library : Rule := mkRule ["foundation.py"; "data.txt"] ∅ ∅.

(** A third-party manifest with the distribution [requests] and its stub
    package [types_requests]. *)
Definition manifest (name : string) : option (string * string) :=
  if String.eqb name "requests" then Some ("@pip//requests", "requests")
  else if String.eqb name "types_requests" then Some ("@pip//types_requests", "types-requests")
  else None.

Definition pip : Config := mkConfig true false false true true "" manifest.

(** The sample configuration with one rule for every file. *)
Definition perFile : Config := mkConfig true true false true true "" (λ _, None).

(** [foundation] with a pre-resolved name and no import. *)
Definition listed : Outcome :=
  Resolve Sample.h (Sample.cfg true) NewDepsOrderResolver Sample.layers
    (Sample.rule "foundation" {[":external"]}) (Some []) (Sample.unit "foundation").

End Further.

(** A source from which [Imports] derives a name: a [.py] file, other than
    the entrypoint file of a rule with several sources under per-file
    generation. *)
Definition indexable (p : Package) (cfg : Config) (allSrcs : list string)
    (src : string) : bool :=
  String.eqb (filepath_Ext src) ".py"
  && negb (PerFileGeneration cfg && (1 <? len allSrcs)
           && String.eqb src (pyLibraryEntrypointFilename p)).

(** * Properties *)

(** ** Integers, strings and lists *)

Lemma wrap64_small (z : Z) : - 2 ^ 63 ≤ z < 2 ^ 63 → wrap64 z = z.
Proof. intros Hz. unfold wrap64. rewrite Z.mod_small; lia. Qed.

Lemma wrap64_add_l (a b : Z) : wrap64 (wrap64 a + b) = wrap64 (a + b).
Proof.
  unfold wrap64. f_equal.
  replace ((a + 2 ^ 63) mod 2 ^ 64 - 2 ^ 63 + b + 2 ^ 63)
    with ((a + 2 ^ 63) mod 2 ^ 64 + b) by lia.
  rewrite Zplus_mod_idemp_l. f_equal. lia.
Qed.

Lemma len_map_zero {V} (m : gmap string V) : (len_map m =? 0) = true ↔ m = ∅.
Proof.
  unfold len_map. rewrite Z.eqb_eq, <- map_size_empty_iff.
  destruct (size m); split; intros; (done || lia).
Qed.

Lemma len_map_nonzero {V} (m : gmap string V) : m ≠ ∅ → (len_map m =? 0) = false.
Proof.
  intros Hm. destruct (len_map m =? 0) eqn:E; [|done].
  apply len_map_zero in E. done.
Qed.

Lemma len_map_positive {V} (m : gmap string V) : m ≠ ∅ → (0 <? len_map m) = true.
Proof.
  intros Hm. apply Z.ltb_lt. unfold len_map.
  destruct (size m) eqn:E; [|lia].
  by apply map_size_empty_iff in E.
Qed.

(** ** The rank of a unit *)

Lemma sumIndexes_spec (tbl : gmap string Z) (srcs : list string) (t v : Z) :
  sumIndexes tbl srcs (wrap64 t) v
  = (wrap64 (t + sumZ (foundRanks tbl srcs)), v + len (foundRanks tbl srcs)).
Proof.
  revert t v. induction srcs as [|src rest IH]; intros t v.
  - simpl. unfold len. simpl. by rewrite !Z.add_0_r.
  - assert (Hcons : foundRanks tbl (src :: rest)
                    = match rankOfFile tbl src with
                      | Some i => i :: foundRanks tbl rest
                      | None => foundRanks tbl rest
                      end) by reflexivity.
    rewrite Hcons. clear Hcons. unfold rankOfFile. simpl.
    destruct (tbl !! src) as [i|] eqn:Hsrc;
      [|destruct (tbl !! filepath.Base src) as [i|] eqn:Hbase].
    3: apply IH.
    all: unfold int_add; rewrite wrap64_add_l, IH; unfold len; simpl;
      f_equal; [f_equal|]; lia.
Qed.

Lemma foundRanks_len_zero (tbl : gmap string Z) (srcs : list string) :
  (len (foundRanks tbl srcs) =? 0) = true ↔ foundRanks tbl srcs = [].
Proof.
  unfold len. rewrite Z.eqb_eq. destruct (foundRanks tbl srcs); simpl; [done|].
  split; [lia|done].
Qed.

(** C3. With a non-empty order table, the rank of a unit is the mean of the
    ranks of those of its sources that the table lists, each source looked up
    by its exact path and otherwise by its bare filename, sources under
    neither key left out; when no source is listed the rank is the number of
    entries of the table.  (The sum of the ranks is taken to fit Go's [int].) *)
Theorem GetAverageIndex_mean (d : DepsOrderResolver) (srcs : list string) :
  fileToIndex d ≠ ∅ →
  - 2 ^ 63 ≤ sumZ (foundRanks (fileToIndex d) srcs) < 2 ^ 63 →
  rank d srcs =
    if decide (foundRanks (fileToIndex d) srcs = [])
    then float64 (Z.of_nat (size (fileToIndex d)))
    else mean (foundRanks (fileToIndex d) srcs).
Proof.
  intros Hne Hsum. unfold rank, GetAverageIndex.
  rewrite (len_map_nonzero _ Hne).
  change (sumIndexes (fileToIndex d) srcs 0 0)
    with (sumIndexes (fileToIndex d) srcs (wrap64 0) 0).
  rewrite sumIndexes_spec, !Z.add_0_l, (wrap64_small _ Hsum).
  destruct (decide (foundRanks (fileToIndex d) srcs = [])) as [Hnil|Hcons].
  - rewrite (proj2 (foundRanks_len_zero _ _) Hnil). done.
  - destruct (len (foundRanks (fileToIndex d) srcs) =? 0) eqn:E.
    + apply foundRanks_len_zero in E. done.
    + done.
Qed.

Lemma GetAverageIndex_mean_witness :
  rank Sample.ordered ["pkg/lib.py"; "other/foo.py"; "other/missing.py"]
  = mean [3; 1]
  ∧ rank Sample.ordered ["other/missing.py"] = float64 3.
Proof.
  split.
  - rewrite (GetAverageIndex_mean Sample.ordered
               ["pkg/lib.py"; "other/foo.py"; "other/missing.py"]);
      [reflexivity | by vm_compute | by vm_compute].
  - rewrite (GetAverageIndex_mean Sample.ordered ["other/missing.py"]);
      [reflexivity | by vm_compute | by vm_compute].
Defined.

(** ** Loading the order table *)

Lemma lastIndexOf_None (k : string) (ks : list string) :
  lastIndexOf k ks = None ↔ k ∉ ks.
Proof.
  induction ks as [|x rest IH]; simpl.
  - split; [intros _; apply not_elem_of_nil | done].
  - rewrite not_elem_of_cons. destruct (lastIndexOf k rest) as [j|].
    + split; [done|]. intros [_ Hrest]. by apply IH in Hrest.
    + destruct (decide (x = k)) as [->|Hne]; split; try done.
      * by intros [Hk _].
      * intros _. split; [done | by apply IH].
Qed.

Lemma lastIndexOf_Some (k : string) (ks : list string) (j : nat) :
  lastIndexOf k ks = Some j
  ↔ ks !! j = Some k ∧ ∀ j', (j < j')%nat → ks !! j' ≠ Some k.
Proof.
  revert j. induction ks as [|x rest IH]; intros j; simpl.
  - split; [done | by intros [? _]].
  - destruct (lastIndexOf k rest) as [j0|] eqn:Hlast.
    + split.
      * intros [= <-]. destruct (proj1 (IH j0) eq_refl) as [Hat Hlater].
        split; [done|]. intros [|j'] Hlt; [lia|]. apply Hlater. lia.
      * intros [Hat Hlater]. destruct j as [|j].
        -- destruct (proj1 (IH j0) eq_refl) as [Hat0 _].
           exfalso. apply (Hlater (S j0)); [lia | done].
        -- f_equal. f_equal. assert (Some j0 = Some j) as [= ->]; [|done].
           apply IH. split; [done|]. intros j' Hlt. apply (Hlater (S j')). lia.
    + apply lastIndexOf_None in Hlast.
      destruct (decide (x = k)) as [->|Hne]; split.
      * intros [= <-]. split; [done|]. intros [|j'] Hlt; [lia|]. simpl.
        intros Hin. apply Hlast. by eapply list_elem_of_lookup_2.
      * intros [Hat _]. destruct j as [|j]; [done|]. simpl in Hat.
        exfalso. apply Hlast. by eapply list_elem_of_lookup_2.
      * done.
      * intros [Hat _]. destruct j as [|j]; simpl in Hat; [congruence|].
        exfalso. apply Hlast. by eapply list_elem_of_lookup_2.
Qed.

Section LoadFacts.

Variable h : Host.

Lemma keptLines_cons (text : string) (rest : list string) :
  keptLines h (text :: rest)
  = if String.eqb (TrimSpace h text) "" || strings.HasPrefix (TrimSpace h text) "#"
    then keptLines h rest
    else TrimSpace h text :: keptLines h rest.
Proof.
  unfold keptLines. simpl.
  by destruct (String.eqb (TrimSpace h text) "" || strings.HasPrefix (TrimSpace h text) "#").
Qed.

(** The counter of the scanning loop advances once per kept line. *)
Lemma scanLoop_index (lines : list string) (tbl : gmap string Z) (i : Z) :
  (scanLoop h lines tbl i).2 = i + len (keptLines h lines).
Proof.
  revert tbl i. induction lines as [|text rest IH]; intros tbl i.
  - simpl. unfold len. simpl. lia.
  - simpl. unfold scanLine. rewrite keptLines_cons.
    destruct (String.eqb (TrimSpace h text) "" || strings.HasPrefix (TrimSpace h text) "#").
    + apply IH.
    + rewrite IH. unfold len. simpl. lia.
Qed.

(** A key of the table holds the position of its last kept occurrence. *)
Lemma scanLoop_lookup (lines : list string) (tbl : gmap string Z) (i : Z) (k : string) :
  (scanLoop h lines tbl i).1 !! k
  = match lastIndexOf k (keptLines h lines) with
    | Some j => Some (i + Z.of_nat j)
    | None => tbl !! k
    end.
Proof.
  revert tbl i. induction lines as [|text rest IH]; intros tbl i.
  - done.
  - simpl. unfold scanLine. rewrite keptLines_cons.
    destruct (String.eqb (TrimSpace h text) "" || strings.HasPrefix (TrimSpace h text) "#").
    + apply IH.
    + rewrite IH. simpl. destruct (lastIndexOf k (keptLines h rest)) as [j|].
      * f_equal. lia.
      * destruct (decide (TrimSpace h text = k)) as [->|Hne].
        -- rewrite lookup_insert_eq. f_equal. lia.
        -- by rewrite lookup_insert_ne.
Qed.

Lemma scanLoop_dom (lines : list string) :
  dom (scanLoop h lines ∅ 0).1 = list_to_set (keptLines h lines).
Proof.
  apply set_eq. intros k.
  rewrite elem_of_dom, scanLoop_lookup, elem_of_list_to_set.
  destruct (lastIndexOf k (keptLines h lines)) as [j|] eqn:Hlast.
  - split; [intros _ | by eauto].
    apply lastIndexOf_Some in Hlast as [Hat _]. by eapply list_elem_of_lookup_2.
  - rewrite lookup_empty. apply lastIndexOf_None in Hlast.
    split; [by intros [? ?] | done].
Qed.

Lemma LoadDepsOrder_loaded (d : DepsOrderResolver) (fs : OpenResult) :
  loaded d = true → LoadDepsOrder h d fs = (d, None).
Proof. intros Hl. unfold LoadDepsOrder. by rewrite Hl. Qed.

Lemma LoadDepsOrder_no_error (d d' : DepsOrderResolver) (fs : OpenResult) :
  LoadDepsOrder h d fs = (d', None) → loaded d' = true.
Proof.
  unfold LoadDepsOrder. destruct (loaded d) eqn:Hl.
  - by intros [= <-].
  - destruct fs as [|err|lines [err|]]; intros [= <-]; done.
Qed.

End LoadFacts.

(** ** One turn of the loops of [Resolve] *)

Lemma quiet_mono (ok ok' : string → Prop) (st st' : Loop) :
  (∀ dep, ok dep → ok' dep) → quiet ok st st' → quiet ok' st st'.
Proof.
  intros Hsub Hq. induction Hq.
  - constructor.
  - constructor. by apply Hsub.
  - by constructor.
  - by eapply quiet_trans.
Qed.

Section Turns.

Variable h : Host.
Variable cfg : Config.
Variable from : label.Label.

Abbreviation ok := (resolvedTarget h cfg from).

Lemma explain_quiet (how : Strategy) (dep : string) (mod_ : PyModule)
    (moduleName : string) (st : Loop) :
  quiet ok st
    (mkLoop (deps st) (pyiDeps st) (resolver st) (hasFatalError st)
       (explain h from how dep mod_ moduleName (log st))).
Proof.
  unfold explain. destruct (String.eqb (EXPLAIN_DEPENDENCY h) dep).
  - by apply (quiet_note ok st).
  - destruct st. apply quiet_none.
Qed.

Lemma addAndExplain_quiet (how : Strategy) (dep : string) (mod_ : PyModule)
    (moduleName : string) (st : Loop) (d' : DepsOrderResolver) :
  ok dep →
  fileToIndex d' = fileToIndex (resolver st) →
  loaded d' = loaded (resolver st) →
  quiet ok st (addAndExplain h from how dep mod_ moduleName st d').
Proof.
  intros Hok Htable Hloaded. unfold addAndExplain.
  destruct (addDependency dep (TypeCheckingOnly mod_) (deps st) (pyiDeps st))
    as [deps' pyiDeps'] eqn:Hadd.
  eapply quiet_trans.
  - apply (quiet_add ok st dep (TypeCheckingOnly mod_) (importToSrcs d') Hok).
  - unfold added. rewrite Hadd, <- Htable, <- Hloaded. cbn [fst snd].
    replace (mkDepsOrderResolver (fileToIndex d') (loaded d') (importToSrcs d'))
      with d' by (by destruct d').
    apply (explain_quiet how dep mod_ moduleName
             (mkLoop deps' pyiDeps' d' (hasFatalError st) (log st))).
Qed.

Lemma addStubs_cons (module : string) (rest : list string)
    (sets : gset string * gset string) :
  addStubs cfg (module :: rest) sets
  = addStubs cfg rest
      match FindThirdPartyDependency cfg module with
      | Some (dep, _) => addDependency dep true sets.1 sets.2
      | None => sets
      end.
Proof. reflexivity. Qed.

Lemma addStubs_quiet (modules : list string) (deps0 pyiDeps0 : gset string)
    (d : DepsOrderResolver) (fatal : bool) (lg : list LogEntry) :
  quiet ok (mkLoop deps0 pyiDeps0 d fatal lg)
    (mkLoop (addStubs cfg modules (deps0, pyiDeps0)).1
       (addStubs cfg modules (deps0, pyiDeps0)).2 d fatal lg).
Proof.
  revert deps0 pyiDeps0. induction modules as [|module rest IH]; intros deps0 pyiDeps0.
  - apply quiet_none.
  - rewrite addStubs_cons.
    destruct (FindThirdPartyDependency cfg module) as [[dep dist]|] eqn:Hfind.
    + eapply quiet_trans.
      * apply (quiet_add ok _ dep true (importToSrcs d)).
        right; left. by exists module, dist.
      * unfold added. cbn [deps pyiDeps resolver hasFatalError log fst snd].
        destruct (addDependency dep true deps0 pyiDeps0) as [deps' pyiDeps'].
        destruct d. apply IH.
    + apply IH.
Qed.

Lemma filterSelf_Some (matches acc filteredMatches : list FindResult) :
  filterSelf from matches acc = Some filteredMatches →
  filteredMatches = acc ++ matches
  ∧ Forall (λ m, IsSelfImport m from = false) matches.
Proof.
  revert acc. induction matches as [|m rest IH]; intros acc; simpl.
  - intros [= <-]. by rewrite app_nil_r.
  - destruct (IsSelfImport m from) eqn:Hself; [done|].
    intros Hrest. apply IH in Hrest as [-> Hall].
    split; [by rewrite <- app_assoc | by constructor].
Qed.

Lemma acceptFirst_quiet (mod_ : PyModule) (moduleName : string) (st st' : Loop)
    (errs : list ResolveError) (candidates : list FindResult) :
  Forall (λ m, m ∈ FindRulesByImportWithConfig h moduleName
               ∧ IsSelfImport m from = false) candidates →
  acceptFirst h from mod_ moduleName st errs candidates = ContinueModules st' →
  quiet ok st st'.
Proof.
  intros Hall. unfold acceptFirst. destruct candidates as [|m rest]; [done|].
  intros [= <-]. apply addAndExplain_quiet; [|done..].
  apply Forall_cons in Hall as [[Hin Hself] _].
  right; right. by exists moduleName, m.
Qed.

Lemma resolveFromIndex_quiet (mod_ : PyModule) (moduleName : string) (st st' : Loop)
    (errs : list ResolveError) :
  resolveFromIndex h cfg from mod_ moduleName st errs
    (FindRulesByImportWithConfig h moduleName) = ContinueModules st' →
  quiet ok st st'.
Proof.
  unfold resolveFromIndex.
  destruct (filterSelf from (FindRulesByImportWithConfig h moduleName) [])
    as [filteredMatches|] eqn:Hfilter.
  2: { intros [= <-]. apply quiet_none. }
  apply filterSelf_Some in Hfilter as [-> Hall]. simpl.
  assert (Hmatches : Forall (λ m, m ∈ FindRulesByImportWithConfig h moduleName
                                  ∧ IsSelfImport m from = false)
                       (FindRulesByImportWithConfig h moduleName)).
  { rewrite Forall_forall in *. intros m Hm. split; [done | by apply Hall]. }
  destruct (len (FindRulesByImportWithConfig h moduleName) =? 0); [done|].
  destruct (1 <? len (FindRulesByImportWithConfig h moduleName)).
  - destruct (negb (len _ =? 1)); [done|].
    apply acceptFirst_quiet. rewrite Forall_forall in *. intros m Hm.
    apply Hmatches. apply list_elem_of_In in Hm. apply filter_In in Hm as [Hm _].
    by apply list_elem_of_In.
  - by apply acceptFirst_quiet.
Qed.

(** A candidate that ends the record leaves a quiet change behind. *)
Lemma resolveCandidate_quiet (mod_ : PyModule) (st st' : Loop)
    (errs : list ResolveError) (moduleName : string) :
  resolveCandidate h cfg from mod_ st errs moduleName = ContinueModules st' →
  quiet ok st st'.
Proof.
  unfold resolveCandidate.
  destruct (FindRuleWithOverride h moduleName) as [override|] eqn:Hover.
  - destruct (label.Equal (defaultRepo from override) from) eqn:Heq; [done|].
    simpl. intros [= <-].
    apply addAndExplain_quiet; [|done..]. left. by exists moduleName, override.
  - destruct (FindThirdPartyDependency cfg moduleName) as [[dep dist]|] eqn:Hthird.
    + destruct (addDependency dep (TypeCheckingOnly mod_) (deps st) (pyiDeps st))
        as [deps1 pyiDeps1] eqn:Hadd.
      destruct (addStubs cfg (stubModules h dist) (deps1, pyiDeps1))
        as [deps2 pyiDeps2] eqn:Hstubs.
      intros [= <-].
      eapply quiet_trans.
      { apply (quiet_add ok st dep (TypeCheckingOnly mod_) (importToSrcs (resolver st))).
        right; left. by exists moduleName, dist. }
      unfold added. rewrite Hadd. cbn [fst snd].
      replace (mkDepsOrderResolver (fileToIndex (resolver st)) (loaded (resolver st))
                 (importToSrcs (resolver st)))
        with (resolver st) by (by destruct (resolver st)).
      eapply quiet_trans.
      { apply (addStubs_quiet (stubModules h dist)). }
      rewrite Hstubs. cbn [fst snd].
      apply (explain_quiet ByThirdParty dep mod_ moduleName
               (mkLoop deps2 pyiDeps2 _ (hasFatalError st) (log st))).
    + destruct (len (FindRulesByImportWithConfig h moduleName) =? 0).
      * destruct (isStdModule h moduleName).
        -- intros [= <-]. apply quiet_none.
        -- destruct (ValidateImportStatements cfg); [done|].
           apply resolveFromIndex_quiet.
      * apply resolveFromIndex_quiet.
Qed.

End Turns.

Section Records.

Variable h : Host.
Variable cfg : Config.
Variable from : label.Label.

Abbreviation target := (resolvedTarget h cfg from).

(** The errors collected so far only ever grow by what the candidate adds. *)
Lemma resolveCandidate_errs (mod_ : PyModule) (st : Loop)
    (errs : list ResolveError) (moduleName : string) :
  resolveCandidate h cfg from mod_ st errs moduleName
  = match resolveCandidate h cfg from mod_ st [] moduleName with
    | ContinueModules st' => ContinueModules st'
    | ContinueCandidates _ =>
        ContinueCandidates (errs ++ candidateErrors h cfg from mod_ st moduleName)
    end.
Proof.
  unfold candidateErrors, resolveCandidate, resolveFromIndex, acceptFirst.
  repeat match goal with
         | |- context [match ?x with _ => _ end] =>
             lazymatch x with
             | context [match _ with _ => _ end] => fail
             | _ => destruct x eqn:?
             end
         end; simpl; rewrite ?app_nil_r; try done.
Qed.

(** When no candidate of a record resolves, the errors of all its candidates
    end in one report. *)
Lemma resolveCandidates_unresolved (mod_ : PyModule) (st : Loop)
    (errs : list ResolveError) (possibleModules : list string) :
  Forall (λ name, ∃ es, resolveCandidate h cfg from mod_ st [] name
                        = ContinueCandidates es) possibleModules →
  resolveCandidates h cfg from mod_ st errs possibleModules
  = finish h from st
      (errs ++ flat_map (candidateErrors h cfg from mod_ st) possibleModules).
Proof.
  revert errs. induction possibleModules as [|name rest IH]; intros errs Hall.
  - simpl. by rewrite app_nil_r.
  - apply Forall_cons in Hall as [[es Hes] Hrest]. simpl.
    rewrite resolveCandidate_errs, Hes, (IH _ Hrest), app_assoc. done.
Qed.

(** When a candidate resolves, the record ends there, whatever the earlier
    candidates had added to [errs]. *)
Lemma resolveCandidates_resolved (mod_ : PyModule) (st st' : Loop)
    (errs : list ResolveError) (before after : list string) (name : string) :
  Forall (λ n, ∃ es, resolveCandidate h cfg from mod_ st [] n
                     = ContinueCandidates es) before →
  resolveCandidate h cfg from mod_ st [] name = ContinueModules st' →
  resolveCandidates h cfg from mod_ st errs (before ++ name :: after) = st'.
Proof.
  intros Hbefore Hname. revert errs.
  induction before as [|n rest IH]; intros errs; simpl.
  - by rewrite resolveCandidate_errs, Hname.
  - apply Forall_cons in Hbefore as [[es Hes] Hrest].
    rewrite resolveCandidate_errs, Hes. by apply IH.
Qed.

(** A record either leaves a quiet change or exactly one report. *)
Lemma resolveCandidates_turn (mod_ : PyModule) (st : Loop)
    (errs : list ResolveError) (possibleModules : list string) :
  quiet target st (resolveCandidates h cfg from mod_ st errs possibleModules)
  ∨ ∃ es, es ≠ []
      ∧ resolveCandidates h cfg from mod_ st errs possibleModules
        = reported st (fromString h from) es.
Proof.
  revert errs. induction possibleModules as [|name rest IH]; intros errs; simpl.
  - destruct errs as [|e errs]; simpl.
    + left. apply quiet_none.
    + right. exists (e :: errs). split; [done|].
      unfold len. simpl. by destruct (length errs).
  - destruct (resolveCandidate h cfg from mod_ st errs name) as [st'|errs'] eqn:Hcand.
    + left. by eapply resolveCandidate_quiet.
    + apply IH.
Qed.

Lemma resolveModule_turn (st : Loop) (mod_ : PyModule) :
  quiet target st (resolveModule h cfg from st mod_)
  ∨ ∃ es, es ≠ []
      ∧ resolveModule h cfg from st mod_ = reported st (fromString h from) es.
Proof.
  unfold resolveModule. destruct (strings.HasPrefix (From mod_) ".").
  - destruct (negb (ExperimentalAllowRelativeImports cfg)
              || negb (isPackageGeneration cfg)).
    + left. apply quiet_none.
    + destruct (normalizeRelative mod_ (label.Pkg from)) as [moduleName|].
      * apply resolveCandidates_turn.
      * left. by apply (quiet_note target st).
  - apply resolveCandidates_turn.
Qed.

End Records.

(** ** What the loops preserve *)

Lemma addDependency_disjoint (dep : string) (typeCheckingOnly : bool)
    (deps0 pyiDeps0 : gset string) :
  deps0 ## pyiDeps0 →
  (addDependency dep typeCheckingOnly deps0 pyiDeps0).1
  ## (addDependency dep typeCheckingOnly deps0 pyiDeps0).2.
Proof.
  intros Hdisj. unfold addDependency. destruct typeCheckingOnly.
  - destruct (bool_decide (dep ∈ deps0)) eqn:Hin; simpl; [done|].
    apply bool_decide_eq_false in Hin.
    apply disjoint_union_r. split; [by apply disjoint_singleton_r | done].
  - simpl. apply elem_of_disjoint. intros x Hx Hy.
    apply elem_of_difference in Hy as [Hy Hne].
    apply elem_of_union in Hx as [Hx|Hx]; [done|].
    by apply (proj1 (elem_of_disjoint _ _) Hdisj x).
Qed.

Lemma addDependency_elem (dep x : string) (typeCheckingOnly : bool)
    (deps0 pyiDeps0 : gset string) :
  x ∈ (addDependency dep typeCheckingOnly deps0 pyiDeps0).1
      ∪ (addDependency dep typeCheckingOnly deps0 pyiDeps0).2 →
  x = dep ∨ x ∈ deps0 ∪ pyiDeps0.
Proof.
  unfold addDependency. destruct typeCheckingOnly.
  - destruct (negb (bool_decide (dep ∈ deps0))); simpl;
      rewrite !elem_of_union, ?elem_of_singleton; tauto.
  - simpl. rewrite !elem_of_union, elem_of_difference, elem_of_singleton. tauto.
Qed.

Section Invariants.

Variable ok : string → Prop.

Lemma quiet_disjoint (st st' : Loop) :
  quiet ok st st' → deps st ## pyiDeps st → deps st' ## pyiDeps st'.
Proof.
  induction 1; simpl; auto using addDependency_disjoint.
Qed.

Lemma quiet_table (st st' : Loop) :
  quiet ok st st' →
  fileToIndex (resolver st') = fileToIndex (resolver st)
  ∧ loaded (resolver st') = loaded (resolver st).
Proof.
  induction 1; simpl; try done.
  destruct IHquiet1 as [E1 E2], IHquiet2 as [E3 E4]. split; congruence.
Qed.

Lemma quiet_log (st st' : Loop) :
  quiet ok st st' →
  hasFatalError st' = hasFatalError st
  ∧ ∃ tail, log st' = log st ++ tail ∧ existsb isValidationFailed tail = false.
Proof.
  induction 1; simpl.
  - split; [done|]. exists []. by rewrite app_nil_r.
  - split; [done|]. exists []. by rewrite app_nil_r.
  - split; [done|]. exists [e]. simpl. by rewrite H.
  - destruct IHquiet1 as [Hf1 (t1 & Hl1 & Hv1)], IHquiet2 as [Hf2 (t2 & Hl2 & Hv2)].
    split; [congruence|]. exists (t1 ++ t2).
    rewrite Hl2, Hl1, app_assoc, existsb_app, Hv1, Hv2. done.
Qed.

Lemma quiet_targets (st st' : Loop) (x : string) :
  quiet ok st st' →
  x ∈ deps st' ∪ pyiDeps st' → x ∈ deps st ∪ pyiDeps st ∨ ok x.
Proof.
  induction 1; simpl; intros Hx.
  - by left.
  - apply addDependency_elem in Hx as [->|Hx]; [by right | by left].
  - by left.
  - destruct (IHquiet2 Hx) as [Hmid|Hok]; [auto | by right].
Qed.

End Invariants.

Section WholeLoop.

Variable h : Host.
Variable cfg : Config.
Variable from : label.Label.

(** Whatever quiet turns and reports preserve, the loop over the import
    records preserves. *)
Lemma resolveModules_preserves (P : Loop → Prop) :
  (∀ st st', quiet (resolvedTarget h cfg from) st st' → P st → P st') →
  (∀ st es, es ≠ [] → P st → P (reported st (fromString h from) es)) →
  ∀ modules st, P st → P (resolveModules h cfg from modules st).
Proof.
  intros Hquiet Hreport modules. unfold resolveModules.
  induction modules as [|m rest IH]; intros st HP; simpl; [done|].
  apply IH. destruct (resolveModule_turn h cfg from st m) as [Hq|(es & Hes & ->)].
  - by eapply Hquiet.
  - by apply Hreport.
Qed.

Lemma resolveModules_disjoint (modules : list PyModule) (st : Loop) :
  deps st ## pyiDeps st →
  deps (resolveModules h cfg from modules st)
  ## pyiDeps (resolveModules h cfg from modules st).
Proof.
  apply (resolveModules_preserves (λ st, deps st ## pyiDeps st)).
  - intros st1 st2 Hq. exact (quiet_disjoint _ _ _ Hq).
  - done.
Qed.

Lemma resolveModules_table (modules : list PyModule) (st : Loop) :
  fileToIndex (resolver (resolveModules h cfg from modules st))
  = fileToIndex (resolver st)
  ∧ loaded (resolver (resolveModules h cfg from modules st)) = loaded (resolver st).
Proof.
  apply (resolveModules_preserves
           (λ st', fileToIndex (resolver st') = fileToIndex (resolver st)
                   ∧ loaded (resolver st') = loaded (resolver st))); [| |done].
  - intros st1 st2 Hq [E1 E2]. apply quiet_table in Hq as [E3 E4]. split; congruence.
  - done.
Qed.

Lemma resolveModules_targets (modules : list PyModule) (st : Loop) (x : string) :
  x ∈ deps (resolveModules h cfg from modules st)
      ∪ pyiDeps (resolveModules h cfg from modules st) →
  x ∈ deps st ∪ pyiDeps st ∨ resolvedTarget h cfg from x.
Proof.
  apply (resolveModules_preserves
           (λ st', x ∈ deps st' ∪ pyiDeps st' →
                   x ∈ deps st ∪ pyiDeps st ∨ resolvedTarget h cfg from x)); [| |tauto].
  - intros st1 st2 Hq IH Hx.
    destruct (quiet_targets _ _ _ x Hq Hx) as [Hold|Hok]; [auto | by right].
  - done.
Qed.

(** The flag [hasFatalError] is raised exactly by the reports in the log. *)
Lemma resolveModules_fatal (modules : list PyModule) (st : Loop) :
  ∃ tail,
    log (resolveModules h cfg from modules st) = log st ++ tail
    ∧ hasFatalError (resolveModules h cfg from modules st)
      = hasFatalError st || existsb isValidationFailed tail.
Proof.
  apply (resolveModules_preserves
           (λ st', ∃ tail, log st' = log st ++ tail
                     ∧ hasFatalError st'
                       = hasFatalError st || existsb isValidationFailed tail)).
  - intros st1 st2 Hq (t1 & Hl1 & Hf1).
    apply quiet_log in Hq as [Hf2 (t2 & Hl2 & Hv2)].
    exists (t1 ++ t2). rewrite Hl2, Hl1, app_assoc, existsb_app, Hv2, Hf2, Hf1.
    split; [done|]. by rewrite orb_false_r.
  - intros st1 es _ (t1 & Hl1 & Hf1). exists (t1 ++ [ValidationFailed (fromString h from) es]).
    simpl. rewrite Hl1, app_assoc, existsb_app. simpl.
    split; [done|]. by rewrite !orb_true_r.
  - exists []. simpl. by rewrite app_nil_r, orb_false_r.
Qed.

End WholeLoop.

(** ** The attributes written at the end *)

Lemma addResolvedDeps_elem (r : Rule) (deps0 : gset string) (x : string) :
  x ∈ addResolvedDeps r deps0 ↔ x ∈ deps0 ∨ x ∈ resolvedDeps r.
Proof.
  unfold addResolvedDeps.
  assert (Hfold : ∀ (l : list string) (acc : gset string),
            x ∈ foldl (λ acc dep, {[dep]} ∪ acc) acc l
                           ↔ x ∈ acc ∨ x ∈ l).
  { induction l as [|y l IH]; intros acc; simpl.
    - rewrite elem_of_nil. tauto.
    - rewrite IH, elem_of_union, elem_of_singleton, elem_of_cons. tauto. }
  destruct (bool_decide (resolvedDeps r = ∅)) eqn:Hempty; simpl.
  - apply bool_decide_eq_true in Hempty. rewrite Hempty, elem_of_empty. tauto.
  - by rewrite Hfold, elem_of_elements.
Qed.

Lemma ShouldAddToDepsToRemove_rank (d : DepsOrderResolver) (current dep : list string) :
  ShouldAddToDepsToRemove d current dep = (rank d current <? rank d dep)%float.
Proof.
  unfold ShouldAddToDepsToRemove, rank, GetAverageIndex.
  by destruct (len_map (fileToIndex d) =? 0).
Qed.

Lemma createDepsToRemove_elem (d : DepsOrderResolver) (current : list string)
    (allDeps : gset string) (dep : string) :
  dep ∈ createDepsToRemove d current allDeps
  ↔ dep ∈ allDeps
    ∧ (rank d current <? rank d (getSourcesForImport d dep))%float = true.
Proof.
  unfold createDepsToRemove.
  assert (Hfold : ∀ (l : list string) (acc : gset string),
            dep ∈ foldl (λ depsToRemove x,
                           if ShouldAddToDepsToRemove d current (getSourcesForImport d x)
                           then {[x]} ∪ depsToRemove else depsToRemove) acc l
            ↔ dep ∈ acc
              ∨ (dep ∈ l
                 ∧ ShouldAddToDepsToRemove d current (getSourcesForImport d dep) = true)).
  { induction l as [|y l IH]; intros acc; simpl.
    - rewrite elem_of_nil. tauto.
    - rewrite IH, elem_of_cons.
      destruct (ShouldAddToDepsToRemove d current (getSourcesForImport d y)) eqn:Hy.
      + rewrite elem_of_union, elem_of_singleton. split; [|intros [?|[[->|?] ?]]; auto].
        intros [[->|?]|[? ?]]; auto.
      + split; [intros [?|[? ?]]; auto|]. intros [?|[[->|?] ?]]; auto. congruence. }
  destruct (0 <? len_map (fileToIndex d)) eqn:Hlen.
  - rewrite Hfold, elem_of_empty, elem_of_elements, ShouldAddToDepsToRemove_rank. tauto.
  - rewrite elem_of_empty. split; [done|]. intros [_ Hlt].
    unfold rank, GetAverageIndex in Hlt.
    assert (Hzero : (len_map (fileToIndex d) =? 0) = true).
    { apply Z.eqb_eq. apply Z.ltb_ge in Hlen. unfold len_map in *. lia. }
    rewrite Hzero in Hlt. done.
Qed.

Lemma isEmpty_true (s : gset string) : isEmpty s = true → s = ∅.
Proof. apply bool_decide_eq_true. Qed.

Lemma attrSet_SetAttr (r : Rule) (key key' : string) (value : gset string) :
  attrSet (SetAttr r key value) key'
  = if decide (key = key') then value else attrSet r key'.
Proof.
  unfold attrSet, SetAttr. simpl. destruct (decide (key = key')) as [->|Hne].
  - by rewrite lookup_insert_eq.
  - by rewrite lookup_insert_ne.
Qed.

Lemma fresh_attrSet (r : Rule) :
  fresh r →
  attrSet r "deps" = ∅ ∧ attrSet r "pyi_deps" = ∅ ∧ attrSet r "deps_to_remove" = ∅.
Proof. unfold fresh, attrSet. by intros (-> & -> & ->). Qed.

(** The three attributes after [writeAttrs], for a rule that had none. *)
Lemma writeAttrs_attrs (cfg : Config) (d : DepsOrderResolver) (current : list string)
    (r : Rule) (deps0 pyiDeps0 : gset string) :
  fresh r →
  let emitted := if GeneratePyiDeps cfg then deps0 else deps0 ∪ pyiDeps0 in
  let r' := writeAttrs cfg d current r deps0 pyiDeps0 in
  attrSet r' "deps" = emitted
  ∧ attrSet r' "pyi_deps" = (if GeneratePyiDeps cfg then pyiDeps0 else ∅)
  ∧ attrSet r' "deps_to_remove" = createDepsToRemove d current emitted.
Proof.
  intros Hfresh. apply fresh_attrSet in Hfresh as (Hd & Hp & Hr).
  assert (Hnone : createDepsToRemove d current ∅ = ∅).
  { apply set_eq. intros x. rewrite createDepsToRemove_elem, elem_of_empty. tauto. }
  unfold writeAttrs. destruct (GeneratePyiDeps cfg); simpl.
  - destruct (isEmpty deps0) eqn:Ed; [apply isEmpty_true in Ed as ->|];
      (destruct (isEmpty pyiDeps0) eqn:Ep; [apply isEmpty_true in Ep as ->|]); simpl;
      try destruct (isEmpty (createDepsToRemove d current deps0)) eqn:Er;
      try apply isEmpty_true in Er; simpl;
      rewrite ?attrSet_SetAttr; simpl; rewrite ?attrSet_SetAttr; simpl;
      rewrite ?attrSet_SetAttr; simpl; rewrite ?Hd, ?Hp, ?Hr, ?Hnone, ?Er; done.
  - rewrite (left_id_L ∅ (∪) deps0).
    destruct (isEmpty (deps0 ∪ pyiDeps0)) eqn:Ed; [apply isEmpty_true in Ed as ->|]; simpl;
      try destruct (isEmpty (createDepsToRemove d current (deps0 ∪ pyiDeps0))) eqn:Er;
      try apply isEmpty_true in Er; simpl;
      rewrite ?attrSet_SetAttr; simpl; rewrite ?attrSet_SetAttr; simpl;
      rewrite ?Hd, ?Hp, ?Hr, ?Hnone, ?Er; done.
Qed.

(** ** [Resolve] as a whole *)

Section ResolveFacts.

Variable h : Host.
Variable cfg : Config.
Variable from : label.Label.

Lemma importLoop_disjoint (d : DepsOrderResolver) (modulesRaw : option (list PyModule)) :
  deps (importLoop h cfg d modulesRaw from) ## pyiDeps (importLoop h cfg d modulesRaw from).
Proof.
  unfold importLoop. destruct modulesRaw as [modules|]; simpl.
  - apply resolveModules_disjoint. simpl. apply disjoint_empty_l.
  - apply disjoint_empty_l.
Qed.

Lemma importLoop_table (d : DepsOrderResolver) (modulesRaw : option (list PyModule)) :
  fileToIndex (resolver (importLoop h cfg d modulesRaw from)) = fileToIndex d
  ∧ loaded (resolver (importLoop h cfg d modulesRaw from)) = loaded d.
Proof.
  unfold importLoop. destruct modulesRaw as [modules|]; simpl; [|done].
  apply (resolveModules_table h cfg from modules (mkLoop ∅ ∅ d false [])).
Qed.

Lemma importLoop_targets (d : DepsOrderResolver) (modulesRaw : option (list PyModule))
    (x : string) :
  x ∈ deps (importLoop h cfg d modulesRaw from)
      ∪ pyiDeps (importLoop h cfg d modulesRaw from) →
  resolvedTarget h cfg from x.
Proof.
  unfold importLoop. destruct modulesRaw as [modules|]; simpl.
  - intros Hx. apply resolveModules_targets in Hx as [Hx|Hx]; [|done].
    simpl in Hx. rewrite elem_of_union, elem_of_empty in Hx. tauto.
  - rewrite elem_of_union, elem_of_empty. tauto.
Qed.

Lemma importLoop_fatal (d : DepsOrderResolver) (modulesRaw : option (list PyModule)) :
  hasFatalError (importLoop h cfg d modulesRaw from)
  = existsb isValidationFailed (log (importLoop h cfg d modulesRaw from)).
Proof.
  unfold importLoop. destruct modulesRaw as [modules|]; simpl; [|done].
  destruct (resolveModules_fatal h cfg from modules (mkLoop ∅ ∅ d false []))
    as (tail & -> & ->). done.
Qed.

(** What a call of [Resolve] that returns has done. *)
Lemma Resolve_Return (d d' : DepsOrderResolver) (fs : OpenResult) (r r' : Rule)
    (modulesRaw : option (list PyModule)) (lg : list LogEntry) :
  Resolve h cfg d fs r modulesRaw from = Return r' d' lg →
  let st := importLoop h cfg d modulesRaw from in
  hasFatalError st = false
  ∧ d' = (LoadDepsOrder h (resolver st) fs).1
  ∧ r' = writeAttrs cfg d' (map (filepath_Join h (label.Pkg from)) (srcs r)) r
           (addResolvedDeps r (deps st)) (pyiDeps st).
Proof.
  unfold Resolve. simpl.
  destruct (hasFatalError (importLoop h cfg d modulesRaw from)); [done|].
  destruct (LoadDepsOrder h (resolver (importLoop h cfg d modulesRaw from)) fs)
    as [d1 err]. simpl.
  by intros [= <- <- _].
Qed.

End ResolveFacts.

(** ** The removal list *)

(** C2. For a call of [Resolve] that returns, every flagged target is a
    member of the dependency set emitted in [deps] (the set the removal list
    is computed from); and a unit B whose label is a member of that set, and
    for whose label [importToSrcs] holds B's own sources, is flagged exactly
    when the rank of the sources of the unit being resolved is strictly below
    the rank of the sources of B. *)
Theorem deps_to_remove_rank (h : Host) (cfg : Config) (d d' : DepsOrderResolver)
    (fs : OpenResult) (r r' : Rule) (modulesRaw : option (list PyModule))
    (from : label.Label) (lg : list LogEntry) :
  fresh r →
  Resolve h cfg d fs r modulesRaw from = Return r' d' lg →
  let normal := addResolvedDeps r (deps (importLoop h cfg d modulesRaw from)) in
  let typeCheckOnly := pyiDeps (importLoop h cfg d modulesRaw from) in
  attrSet r' "deps" = (if GeneratePyiDeps cfg then normal else normal ∪ typeCheckOnly)
  ∧ attrSet r' "deps_to_remove" ⊆ attrSet r' "deps"
  ∧ ∀ (target : label.Label) (rule : Rule),
      rendered h from target ∈ attrSet r' "deps" →
      getSourcesForImport d' (rendered h from target) = unitSources h target rule →
      (rendered h from target ∈ attrSet r' "deps_to_remove"
       ↔ (rank d' (unitSources h from r) <? rank d' (unitSources h target rule))%float
         = true).
Proof.
  intros Hfresh Hres normal typeCheckOnly.
  apply Resolve_Return in Hres as (_ & _ & ->).
  destruct (writeAttrs_attrs cfg d' (map (filepath_Join h (label.Pkg from)) (srcs r)) r
              normal typeCheckOnly Hfresh) as (Hdeps & _ & Hremove).
  fold normal typeCheckOnly. rewrite Hdeps, Hremove. split; [done|]. split.
  - intros x Hx. by apply createDepsToRemove_elem in Hx as [Hx _].
  - intros target rule Hdep Hsrcs. rewrite createDepsToRemove_elem, Hsrcs.
    unfold unitSources at 1. tauto.
Qed.

(** With separate emission, an edge to a target imported for type checking
    only is not flagged although the unit's rank is below the target's. *)
Lemma deps_to_remove_rank_counterexample :
  Sample.middleware true
  = Return (Sample.ruleOf (Sample.middleware true))
      (Sample.resolverOf (Sample.middleware true)) []
  ∧ attrSet (Sample.ruleOf (Sample.middleware true)) "pyi_deps" = {[":application"]}
  ∧ rank (Sample.resolverOf (Sample.middleware true)) ["app/middleware.py"] = float64 1
  ∧ rank (Sample.resolverOf (Sample.middleware true))
      (getSourcesForImport (Sample.resolverOf (Sample.middleware true)) ":application")
    = float64 2
  ∧ (float64 1 <? float64 2)%float = true
  ∧ attrSet (Sample.ruleOf (Sample.middleware true)) "deps_to_remove" = ∅.
Proof. by vm_compute. Qed.

Lemma deps_to_remove_rank_witness :
  getSourcesForImport (Sample.resolverOf Sample.foundation)
    (rendered Sample.h (Sample.unit "foundation") (Sample.unit "middleware"))
  = unitSources Sample.h (Sample.unit "middleware") (Sample.rule "middleware" ∅)
  ∧ (rendered Sample.h (Sample.unit "foundation") (Sample.unit "middleware")
     ∈ attrSet (Sample.ruleOf Sample.foundation) "deps_to_remove"
     ↔ (rank (Sample.resolverOf Sample.foundation)
          (unitSources Sample.h (Sample.unit "foundation") (Sample.rule "foundation" ∅))
        <? rank (Sample.resolverOf Sample.foundation)
             (unitSources Sample.h (Sample.unit "middleware")
                (Sample.rule "middleware" ∅)))%float = true).
Proof.
  split; [by vm_compute|].
  refine (proj2 (proj2 (deps_to_remove_rank Sample.h (Sample.cfg true)
                          NewDepsOrderResolver (Sample.resolverOf Sample.foundation)
                          Sample.layers (Sample.rule "foundation" ∅)
                          (Sample.ruleOf Sample.foundation)
                          (Some [Sample.import "middleware" false])
                          (Sample.unit "foundation") (Sample.logOf Sample.foundation)
                          _ _))
            (Sample.unit "middleware") (Sample.rule "middleware" ∅) _ _).
  - by vm_compute.
  - vm_compute. reflexivity.
  - by vm_compute.
  - by vm_compute.
Defined.

(** C9. With separate emission of the type-checking-only dependencies the
    removal list is computed from the normal set alone, so a target that is
    only in the type-checking-only set is never in it; without separate
    emission it is computed from the union of the two sets. *)
Theorem deps_to_remove_source (h : Host) (cfg : Config) (d d' : DepsOrderResolver)
    (fs : OpenResult) (r r' : Rule) (modulesRaw : option (list PyModule))
    (from : label.Label) (lg : list LogEntry) :
  fresh r →
  Resolve h cfg d fs r modulesRaw from = Return r' d' lg →
  let current := map (filepath_Join h (label.Pkg from)) (srcs r) in
  let normal := addResolvedDeps r (deps (importLoop h cfg d modulesRaw from)) in
  let typeCheckOnly := pyiDeps (importLoop h cfg d modulesRaw from) in
  (GeneratePyiDeps cfg = true →
     attrSet r' "deps_to_remove" = createDepsToRemove d' current normal
     ∧ ∀ x, x ∈ typeCheckOnly → x ∉ normal → x ∉ attrSet r' "deps_to_remove")
  ∧ (GeneratePyiDeps cfg = false →
     attrSet r' "deps_to_remove"
     = createDepsToRemove d' current (normal ∪ typeCheckOnly)).
Proof.
  intros Hfresh Hres current normal typeCheckOnly.
  apply Resolve_Return in Hres as (_ & _ & ->).
  destruct (writeAttrs_attrs cfg d' current r normal typeCheckOnly Hfresh)
    as (_ & _ & Hremove).
  fold current normal typeCheckOnly. rewrite Hremove. split; intros ->; [|done].
  split; [done|]. intros x _ Hx Hin. by apply createDepsToRemove_elem in Hin as [Hin _].
Qed.

Lemma deps_to_remove_source_witness :
  (":application" ∈ attrSet (Sample.ruleOf (Sample.middleware true)) "pyi_deps"
   ∧ ":application" ∉ attrSet (Sample.ruleOf (Sample.middleware true)) "deps_to_remove")
  ∧ attrSet (Sample.ruleOf (Sample.middleware false)) "deps_to_remove"
    = {[":application"]}.
Proof.
  pose proof (deps_to_remove_source Sample.h (Sample.cfg true) NewDepsOrderResolver
                (Sample.resolverOf (Sample.middleware true)) Sample.layers
                (Sample.rule "middleware" ∅) (Sample.ruleOf (Sample.middleware true))
                (Some [Sample.import "foundation" false; Sample.import "application" true])
                (Sample.unit "middleware") (Sample.logOf (Sample.middleware true))
                ltac:(by vm_compute) ltac:(vm_compute; reflexivity)) as [Hsep _].
  pose proof (deps_to_remove_source Sample.h (Sample.cfg false) NewDepsOrderResolver
                (Sample.resolverOf (Sample.middleware false)) Sample.layers
                (Sample.rule "middleware" ∅) (Sample.ruleOf (Sample.middleware false))
                (Some [Sample.import "foundation" false; Sample.import "application" true])
                (Sample.unit "middleware") (Sample.logOf (Sample.middleware false))
                ltac:(by vm_compute) ltac:(vm_compute; reflexivity)) as [_ Hmerged].
  split.
  - split; [by vm_compute|].
    apply (proj2 (Hsep eq_refl)); by vm_compute.
  - rewrite (Hmerged eq_refl). by vm_compute.
Defined.

(** ** Qualified names *)

Lemma Split_cons (c : ascii) (s : string) (sep : ascii) :
  strings.Split (String c s) sep
  = if Ascii.eqb c sep then EmptyString :: strings.Split s sep
    else match strings.Split s sep with
         | hd :: tl => String c hd :: tl
         | [] => [String c EmptyString]
         end.
Proof. reflexivity. Qed.

Lemma Split_nonempty (s : string) (sep : ascii) : strings.Split s sep ≠ [].
Proof.
  destruct s as [|c s]; [done|]. rewrite Split_cons.
  destruct (Ascii.eqb c sep); [done|]. by destruct (strings.Split s sep).
Qed.

Lemma Join_cons_cons (e e' : string) (rest : list string) (sep : string) :
  strings.Join (e :: e' :: rest) sep = e +:+ sep +:+ strings.Join (e' :: rest) sep.
Proof. reflexivity. Qed.

(** Joining the segments of a name with dots gives the name back. *)
Lemma Join_Split (s : string) : strings.Join (strings.Split s dot) "." = s.
Proof.
  induction s as [|c s IH]; [done|]. rewrite Split_cons.
  destruct (Ascii.eqb c dot) eqn:Hc.
  - apply Ascii.eqb_eq in Hc as ->.
    pose proof (Split_nonempty s dot) as Hne.
    destruct (strings.Split s dot) as [|hd tl] eqn:Hsplit; [done|].
    rewrite Join_cons_cons, IH. done.
  - pose proof (Split_nonempty s dot) as Hne.
    destruct (strings.Split s dot) as [|hd tl] eqn:Hsplit; [done|].
    destruct tl as [|e' tl].
    + simpl in *. by rewrite IH.
    + rewrite Join_cons_cons. rewrite Join_cons_cons in IH.
      change (String c hd +:+ "." +:+ strings.Join (e' :: tl) ".")
        with (String c (hd +:+ "." +:+ strings.Join (e' :: tl) ".")).
      by rewrite IH.
Qed.

Lemma possibleLoop_spec (moduleParts possibleModules : list string) :
  possibleLoop moduleParts possibleModules
  = possibleModules
    ++ map (λ k, strings.Join (take k moduleParts) ".")
         (rev (seq 1 (length moduleParts - 1))).
Proof.
  remember (length moduleParts) as n eqn:Hn.
  revert moduleParts possibleModules Hn.
  induction n as [n IH] using lt_wf_ind. intros moduleParts possibleModules Hn.
  rewrite possibleLoop_equation_1. simpl.
  destruct (decide (1 < length moduleParts)%nat) as [Hlong|Hshort]; simpl.
  - rewrite (IH (n - 1)%nat); [|lia|rewrite length_take; lia].
    rewrite <- app_assoc. f_equal.
    replace (n - 1)%nat with (S (n - 1 - 1)) at 2 by lia.
    rewrite seq_S, rev_unit. simpl. rewrite <- Hn. f_equal.
    + f_equal. f_equal. lia.
    + apply map_ext_in. intros k Hk. apply in_rev, in_seq in Hk.
      rewrite take_take. f_equal. f_equal. lia.
  - replace (n - 1)%nat with 0%nat by lia. simpl. by rewrite app_nil_r.
Qed.

(** C7. The chain of candidates of a qualified name starts with the name
    itself, continues with the name shortened by its last dotted segment, and
    so on down to the first segment alone; it has as many elements as the
    name has dotted segments. *)
Theorem possibleModules_chain (moduleName : string) :
  possibleModulesOf moduleName = candidateChain moduleName
  ∧ length (possibleModulesOf moduleName) = length (segments moduleName)
  ∧ head (possibleModulesOf moduleName) = Some moduleName
  ∧ last (possibleModulesOf moduleName) = head (segments moduleName).
Proof.
  assert (Hchain : possibleModulesOf moduleName = candidateChain moduleName).
  { unfold possibleModulesOf, candidateChain, segments. rewrite possibleLoop_spec.
    pose proof (Split_nonempty moduleName dot) as Hne.
    destruct (length (strings.Split moduleName dot)) as [|n] eqn:Hlen.
    { by destruct (strings.Split moduleName dot). }
    rewrite seq_S, rev_unit. simpl. rewrite Nat.sub_0_r. f_equal.
    rewrite <- Hlen, firstn_all. by rewrite Join_Split. }
  split; [done|]. rewrite Hchain. unfold candidateChain.
  pose proof (Split_nonempty moduleName dot) as Hne. fold (segments moduleName) in Hne.
  set (parts := segments moduleName) in *.
  split; [by rewrite length_map, length_rev, length_seq|].
  split.
  - destruct (length parts) as [|n] eqn:Hlen; [by destruct parts|].
    rewrite seq_S, rev_unit. simpl. rewrite <- Hlen, firstn_all.
    unfold parts, segments. by rewrite Join_Split.
  - destruct parts as [|p rest] eqn:Hparts; [done|]. simpl length.
    change (seq 1 (S (length rest))) with (1%nat :: seq 2 (length rest)).
    simpl rev. rewrite map_app. cbn [map]. rewrite last_snoc.
    by destruct rest.
Qed.

(** ** Relative imports *)

Lemma IndexFunc_from_dots (s : string) (i : Z) :
  strings.IndexFunc_from i s (λ r, negb (Ascii.eqb r dot))
  = if (leadingDots s =? String.length s)%nat then -1
    else i + Z.of_nat (leadingDots s).
Proof.
  revert i. induction s as [|c s IH]; intros i; simpl; [done|].
  destruct (Ascii.eqb c dot); simpl.
  - rewrite IH. destruct (leadingDots s =? String.length s)%nat; [done|]. lia.
  - lia.
Qed.

Lemma leadingDots_le (s : string) : (leadingDots s ≤ String.length s)%nat.
Proof.
  induction s as [|c s IH]; simpl; [done|]. destruct (Ascii.eqb c dot); lia.
Qed.

(** The relative depth is the number of leading dots. *)
Lemma relativeDepthOf_dots (s : string) : relativeDepthOf s = Z.of_nat (leadingDots s).
Proof.
  unfold relativeDepthOf, strings.IndexFunc. rewrite IndexFunc_from_dots.
  destruct (leadingDots s =? String.length s)%nat eqn:Hall.
  - apply Nat.eqb_eq in Hall. unfold len_string. simpl. by rewrite Hall.
  - destruct (0 + Z.of_nat (leadingDots s) =? -1) eqn:Hneg; [|lia].
    apply Z.eqb_eq in Hneg. lia.
Qed.

Lemma TrimLeft_dots (s : string) :
  strings.TrimLeft s dot = strings.slice_from s (leadingDots s).
Proof.
  induction s as [|c s IH]; simpl; [done|]. by destruct (Ascii.eqb c dot).
Qed.

Lemma HasPrefix_dot (s : string) :
  strings.HasPrefix s "." = true → (1 ≤ leadingDots s)%nat.
Proof.
  unfold strings.HasPrefix. destruct s as [|c s]; [done|].
  change (String.prefix "." (String c s))
    with (if ascii_dec "."%char c then String.prefix "" s else false).
  destruct (ascii_dec "." c) as [<-|]; [|done]. intros _.
  cbn [leadingDots]. unfold dot. rewrite Ascii.eqb_refl. lia.
Qed.

Lemma LastIndex_from_lastSep (s : string) (sep : ascii) (i found : Z) :
  strings.LastIndex_from i s sep found
  = match lastSep s sep with
    | Some j => i + Z.of_nat j
    | None => found
    end.
Proof.
  revert i found. induction s as [|c s IH]; intros i found; simpl; [done|].
  rewrite IH. destruct (lastSep s sep) as [j|]; [lia|].
  destruct (Ascii.eqb c sep); [lia | done].
Qed.

Lemma Split_no_sep (s : string) (sep : ascii) :
  lastSep s sep = None → strings.Split s sep = [s].
Proof.
  induction s as [|c s IH]; [done|]. simpl lastSep. rewrite Split_cons.
  destruct (lastSep s sep) as [j|]; [done|].
  destruct (Ascii.eqb c sep); [done|]. intros _. by rewrite IH.
Qed.

Lemma Split_with_sep (s : string) (sep : ascii) (j : nat) :
  lastSep s sep = Some j → (2 ≤ length (strings.Split s sep))%nat.
Proof.
  revert j. induction s as [|c s IH]; intros j; [done|].
  simpl lastSep. rewrite Split_cons.
  pose proof (Split_nonempty s sep) as Hne.
  destruct (Ascii.eqb c sep).
  - intros _. destruct (strings.Split s sep); [done|]. simpl. lia.
  - destruct (lastSep s sep) as [j'|]; [|done]. intros _.
    specialize (IH j' eq_refl). destruct (strings.Split s sep); simpl in *; lia.
Qed.

(** The last segment of a name is what follows its last separator. *)
Lemma Split_last (s : string) (sep : ascii) :
  last (strings.Split s sep)
  = Some match lastSep s sep with
         | Some j => strings.slice_from s (S j)
         | None => s
         end.
Proof.
  induction s as [|c s IH]; [done|]. simpl lastSep. rewrite Split_cons.
  pose proof (Split_nonempty s sep) as Hne.
  destruct (Ascii.eqb c sep) eqn:Hc.
  - destruct (strings.Split s sep) as [|hd tl] eqn:Hsplit; [done|].
    rewrite last_cons, IH. destruct (lastSep s sep); reflexivity.
  - destruct (lastSep s sep) as [j|] eqn:Hlast.
    + pose proof (Split_with_sep s sep j Hlast) as Hlen.
      destruct (strings.Split s sep) as [|hd [|e tl]] eqn:Hsplit; simpl in Hlen; try lia.
      rewrite !last_cons in *. destruct (last tl); simpl in *; exact IH.
    + by rewrite (Split_no_sep s sep Hlast).
Qed.

Lemma importedOf_last (name : string) :
  last (segments name) = Some (importedOf name).
Proof.
  unfold segments, importedOf, strings.LastIndex.
  rewrite Split_last, LastIndex_from_lastSep.
  destruct (lastSep name dot) as [j|]; [|done].
  destruct (0 <=? 0 + Z.of_nat j) eqn:Hpos; [|apply Z.leb_gt in Hpos; lia].
  do 2 f_equal. lia.
Qed.

Lemma normalizeRelative_spec (mod_ : PyModule) (pkg : string) :
  normalizeRelative mod_ pkg
  = if decide (length (strings.Split pkg slash) < leadingDots (From mod_) - 1)%nat
    then None
    else Some (absoluteName pkg mod_).
Proof.
  unfold normalizeRelative, absoluteName. rewrite relativeDepthOf_dots.
  set (d := leadingDots (From mod_)). set (pkgParts := strings.Split pkg slash).
  unfold len.
  destruct (decide (length pkgParts < d - 1)%nat) as [Hdeep|Hok].
  - destruct (Z.of_nat (length pkgParts) <? Z.of_nat d - 1) eqn:Hlt; [done|].
    apply Z.ltb_ge in Hlt. lia.
  - destruct (Z.of_nat (length pkgParts) <? Z.of_nat d - 1) eqn:Hlt.
    { apply Z.ltb_lt in Hlt. lia. }
    f_equal. f_equal. f_equal; [|f_equal].
    + destruct (1 <? Z.of_nat d) eqn:Hd.
      * apply Z.ltb_lt in Hd. f_equal. lia.
      * apply Z.ltb_ge in Hd. replace (d - 1)%nat with 0%nat by lia.
        by rewrite Nat.sub_0_r, firstn_all.
    + unfold fromPartsOf. rewrite TrimLeft_dots. fold d.
      by destruct (String.eqb (strings.slice_from (From mod_) d) "").
    + by rewrite importedOf_last.
Qed.

(** X23. What the branch for relative imports computes.  For a relative import
    with [d] leading dots, made while relative imports are allowed and the
    unit is generated per package: [d] is at least one; when [d - 1] exceeds
    the length of [strings.Split(from.Pkg, "/")] the record only leaves the
    log entry of an invalid relative import and the loop goes on; otherwise
    the record is resolved under the name obtained by dropping the last
    [d - 1] elements of that list, appending the subpath segments and the
    imported symbol, and joining with dots. *)
Theorem relative_import_normalized (h : Host) (cfg : Config) (from : label.Label)
    (st : Loop) (mod_ : PyModule) (rest : list PyModule) :
  strings.HasPrefix (From mod_) "." = true →
  ExperimentalAllowRelativeImports cfg = true →
  isPackageGeneration cfg = true →
  let d := leadingDots (From mod_) in
  let pkgParts := strings.Split (label.Pkg from) slash in
  (1 ≤ d)%nat
  ∧ ((length pkgParts < d - 1)%nat →
     resolveModule h cfg from st mod_
     = noted st (InvalidRelativeImport (Name mod_) (Filepath mod_))
     ∧ resolveModules h cfg from (mod_ :: rest) st
       = resolveModules h cfg from rest
           (noted st (InvalidRelativeImport (Name mod_) (Filepath mod_))))
  ∧ ((d - 1 ≤ length pkgParts)%nat →
     resolveModule h cfg from st mod_
     = resolveCandidates h cfg from mod_ st []
         (possibleModulesOf (absoluteName (label.Pkg from) mod_))).
Proof.
  intros Hrel Hallow Hpkg d pkgParts.
  split; [by apply HasPrefix_dot|].
  assert (Hstep : resolveModule h cfg from st mod_
                  = match normalizeRelative mod_ (label.Pkg from) with
                    | None => noted st (InvalidRelativeImport (Name mod_) (Filepath mod_))
                    | Some moduleName =>
                        resolveCandidates h cfg from mod_ st []
                          (possibleModulesOf moduleName)
                    end).
  { unfold resolveModule. by rewrite Hrel, Hallow, Hpkg. }
  rewrite normalizeRelative_spec in Hstep. fold d pkgParts in Hstep.
  split; intros Hd.
  - destruct (decide (length pkgParts < d - 1)%nat); [|lia].
    split; [done|]. unfold resolveModules. simpl. by rewrite Hstep.
  - destruct (decide (length pkgParts < d - 1)%nat); [lia|done].
Qed.

Lemma relative_import_normalized_witness :
  resolveModule Sample.h (Sample.cfg true) Sample.nested Sample.start Sample.tooDeep
  = noted Sample.start (InvalidRelativeImport "helper" "app/sub/source.py")
  ∧ resolveModule Sample.h (Sample.cfg true) Sample.nested Sample.start Sample.relative
    = resolveCandidates Sample.h (Sample.cfg true) Sample.nested Sample.relative
        Sample.start [] ["app.shared.util.helper"; "app.shared.util"; "app.shared"; "app"].
Proof.
  split.
  - apply (relative_import_normalized Sample.h (Sample.cfg true) Sample.nested
             Sample.start Sample.tooDeep []); [reflexivity..|].
    vm_compute. lia.
  - rewrite (proj2 (proj2 (relative_import_normalized Sample.h (Sample.cfg true)
                             Sample.nested Sample.start Sample.relative []
                             eq_refl eq_refl eq_refl))).
    + reflexivity.
    + vm_compute. lia.
Defined.

(** ** The contract of [LoadDepsOrder] *)

Lemma createDepsToRemove_no_table (d : DepsOrderResolver) (current : list string)
    (allDeps : gset string) :
  fileToIndex d = ∅ → createDepsToRemove d current allDeps = ∅.
Proof. intros Hempty. unfold createDepsToRemove. by rewrite Hempty. Qed.

Lemma LoadDepsOrder_read (h : Host) (d : DepsOrderResolver) (lines : list string) :
  loaded d = false → fileToIndex d = ∅ →
  ∃ d', LoadDepsOrder h d (Opened lines None) = (d', None)
        ∧ loaded d' = true
        ∧ ∀ k, fileToIndex d' !! k = Z.of_nat <$> lastIndexOf k (keptLines h lines).
Proof.
  intros Hl Hempty. unfold LoadDepsOrder. rewrite Hl, Hempty.
  eexists. split; [done|]. split; [done|]. intros k. simpl.
  rewrite scanLoop_lookup, lookup_empty.
  by destruct (lastIndexOf k (keptLines h lines)).
Qed.

(** C8. A call of [LoadDepsOrder] that reports no error leaves the resolver
    loaded, and every call after it is a no-op.  Reading the source to its
    end skips the blank and the comment lines and gives the remaining lines
    the ranks 0, 1, 2, ... in file order (a repeated line keeps its last
    rank).  A missing source gives an empty table and no error.  A source
    that cannot be opened leaves the resolver as it was, unloaded and with an
    empty table, and [Resolve] then logs a warning, returns, and writes no
    removal list. *)
Theorem LoadDepsOrder_contract (h : Host) (d : DepsOrderResolver) :
  (∀ fs fs' d', LoadDepsOrder h d fs = (d', None) →
                LoadDepsOrder h d' fs' = (d', None))
  ∧ (loaded d = false → fileToIndex d = ∅ →
     (∀ lines, ∃ d',
        LoadDepsOrder h d (Opened lines None) = (d', None)
        ∧ (∀ k, fileToIndex d' !! k = Z.of_nat <$> lastIndexOf k (keptLines h lines))
        ∧ (NoDup (keptLines h lines) →
           ∀ k j, fileToIndex d' !! k = Some (Z.of_nat j)
                  ↔ keptLines h lines !! j = Some k))
     ∧ (∃ d', LoadDepsOrder h d NotExist = (d', None) ∧ fileToIndex d' = ∅)
     ∧ (∀ err, ∃ e, LoadDepsOrder h d (OpenError err) = (d, Some e))
     ∧ (∀ err cfg r modulesRaw from,
          fresh r →
          hasFatalError (importLoop h cfg d modulesRaw from) = false →
          ∃ r' d' lg e,
            Resolve h cfg d (OpenError err) r modulesRaw from = Return r' d' lg
            ∧ fileToIndex d' = ∅ ∧ loaded d' = false
            ∧ last lg = Some (LoadWarning e)
            ∧ attrSet r' "deps_to_remove" = ∅)).
Proof.
  split.
  { intros fs fs' d' Hload. apply LoadDepsOrder_loaded.
    by eapply LoadDepsOrder_no_error. }
  intros Hl Hempty. split; [|split; [|split]].
  - intros lines. destruct (LoadDepsOrder_read h d lines Hl Hempty) as (d' & Hd' & _ & Hk).
    exists d'. split; [done|]. split; [done|]. intros Hnodup k j. rewrite Hk.
    destruct (lastIndexOf k (keptLines h lines)) as [j0|] eqn:Hlast; simpl.
    + apply lastIndexOf_Some in Hlast as [Hat Hlater]. split.
      * intros [= Hj]. apply Nat2Z.inj in Hj. by subst.
      * intros Hat'. f_equal. f_equal.
        by eapply (NoDup_lookup _ _ _ _ Hnodup).
    + apply lastIndexOf_None in Hlast. split; [done|].
      intros Hat. exfalso. apply Hlast. by eapply list_elem_of_lookup_2.
  - unfold LoadDepsOrder. rewrite Hl. by eexists.
  - intros err. unfold LoadDepsOrder. rewrite Hl. by eexists.
  - intros err cfg r modulesRaw from Hfresh Hfatal.
    destruct (importLoop_table h cfg from d modulesRaw) as [Htable Hloaded].
    unfold Resolve. simpl. rewrite Hfatal.
    unfold LoadDepsOrder. rewrite Hloaded, Hl. simpl.
    do 4 eexists. split; [done|]. split; [by rewrite Htable|].
    split; [by rewrite Hloaded|]. split; [by rewrite last_snoc|].
    destruct (writeAttrs_attrs cfg (resolver (importLoop h cfg d modulesRaw from))
                (map (filepath_Join h (label.Pkg from)) (srcs r)) r
                (addResolvedDeps r (deps (importLoop h cfg d modulesRaw from)))
                (pyiDeps (importLoop h cfg d modulesRaw from)) Hfresh)
      as (_ & _ & ->).
    apply createDepsToRemove_no_table. by rewrite Htable.
Qed.

Lemma LoadDepsOrder_contract_witness :
  (∃ d', LoadDepsOrder Sample.h NewDepsOrderResolver (Opened Sample.orderLines None)
         = (d', None)
         ∧ fileToIndex d' !! "pkg/lib.py" = Some 3
         ∧ fileToIndex d' !! "unlisted.py" = None)
  ∧ (∃ d', LoadDepsOrder Sample.h NewDepsOrderResolver NotExist = (d', None)
           ∧ fileToIndex d' = ∅)
  ∧ ∃ e, LoadDepsOrder Sample.h NewDepsOrderResolver (OpenError "permission denied")
         = (NewDepsOrderResolver, Some e).
Proof.
  destruct (LoadDepsOrder_contract Sample.h NewDepsOrderResolver) as [_ Hfresh].
  destruct (Hfresh eq_refl eq_refl) as (Hread & Hmissing & Hopen & _).
  split; [|split; [done | apply Hopen]].
  destruct (Hread Sample.orderLines) as (d' & Hd' & Hk & _).
  exists d'. split; [done|]. by rewrite !Hk.
Defined.

(** A first call that cannot open the source is followed by a call that does
    read it, and a read that fails half way leaves the lines read so far in
    the table. *)
Lemma LoadDepsOrder_counterexample :
  (LoadDepsOrder Sample.h NewDepsOrderResolver (OpenError "permission denied")).1
  = NewDepsOrderResolver
  ∧ fileToIndex
      (LoadDepsOrder Sample.h
         (LoadDepsOrder Sample.h NewDepsOrderResolver (OpenError "permission denied")).1
         (Opened ["app/foundation.py"] None)).1
    !! "app/foundation.py" = Some 0
  ∧ (LoadDepsOrder Sample.h NewDepsOrderResolver
       (Opened ["app/foundation.py"] (Some "read error"))).2
    = Some "failed to read deps-order.txt: read error"
  ∧ fileToIndex
      (LoadDepsOrder Sample.h NewDepsOrderResolver
         (Opened ["app/foundation.py"] (Some "read error"))).1
    !! "app/foundation.py" = Some 0.
Proof. by vm_compute. Qed.

(** C10. After a load, a file's rank is the position of its last occurrence
    among the kept lines, while the counter of the loop has advanced once for
    every kept line; the table has one entry for each distinct kept line.  In
    the sample order file, where a line is repeated, the rank of a unit none
    of whose sources is listed (the number of entries) is below the rank of a
    listed file. *)
Theorem LoadDepsOrder_last_occurrence (h : Host) (lines : list string) :
  let d := (LoadDepsOrder h NewDepsOrderResolver (Opened lines None)).1 in
  let kept := keptLines h lines in
  (∀ k i, fileToIndex d !! k = Some i
          ↔ ∃ j, i = Z.of_nat j ∧ kept !! j = Some k
                 ∧ ∀ j', (j < j')%nat → kept !! j' ≠ Some k)
  ∧ (scanLoop h lines ∅ 0).2 = len kept
  ∧ size (fileToIndex d) = size (list_to_set kept : gset string)
  ∧ (keptLines Sample.h Sample.orderLines
     = ["pkg/lib.py"; "foo.py"; "pkg/lib.py"; "pkg/lib.py"; "top.py"]
     ∧ rank Sample.ordered ["unlisted.py"] = float64 3
     ∧ rank Sample.ordered ["top.py"] = float64 4
     ∧ (rank Sample.ordered ["unlisted.py"] <? rank Sample.ordered ["top.py"])%float
       = true).
Proof.
  intros d kept. split; [|split; [|split]].
  - intros k i. unfold d, LoadDepsOrder. simpl.
    rewrite scanLoop_lookup, lookup_empty. fold kept.
    destruct (lastIndexOf k kept) as [j0|] eqn:Hlast.
    + apply lastIndexOf_Some in Hlast as [Hat Hlater]. split.
      * intros [= <-]. exists j0. split; [lia|done].
      * intros (j & -> & Hat' & Hlater'). f_equal.
        destruct (Nat.lt_trichotomy j j0) as [Hlt|[->|Hgt]]; [|done|].
        -- by apply Hlater' in Hlt.
        -- by apply Hlater in Hgt.
    + apply lastIndexOf_None in Hlast. split; [done|].
      intros (j & _ & Hat & _). exfalso. apply Hlast. by eapply list_elem_of_lookup_2.
  - by rewrite scanLoop_index.
  - unfold d, LoadDepsOrder. simpl. by rewrite <- size_dom, scanLoop_dom.
  - by vm_compute.
Qed.

(** ** Validation errors *)

(** C4. The errors of one import record (those of its candidate names) end in
    a single report, logged as soon as none of the candidates resolved; they
    are dropped when a later candidate resolves.  A record logs at most one
    report and raises [hasFatalError] exactly when it does.  [Resolve] exits
    with status 1 after the loop over all records of the unit when some
    record reported, and returns otherwise.  A run stops at the first call
    that exits. *)
Theorem validation_reports (h : Host) (cfg : Config) (from : label.Label) :
  (∀ mod_ st errs possibleModules,
     Forall (λ name, ∃ es, resolveCandidate h cfg from mod_ st [] name
                           = ContinueCandidates es) possibleModules →
     resolveCandidates h cfg from mod_ st errs possibleModules
     = finish h from st
         (errs ++ flat_map (candidateErrors h cfg from mod_ st) possibleModules))
  ∧ (∀ mod_ st st' errs before name after,
       Forall (λ n, ∃ es, resolveCandidate h cfg from mod_ st [] n
                          = ContinueCandidates es) before →
       resolveCandidate h cfg from mod_ st [] name = ContinueModules st' →
       resolveCandidates h cfg from mod_ st errs (before ++ name :: after) = st'
       ∧ hasFatalError st' = hasFatalError st
       ∧ ∃ tail, log st' = log st ++ tail ∧ existsb isValidationFailed tail = false)
  ∧ (∀ st mod_, ∃ tail,
       log (resolveModule h cfg from st mod_) = log st ++ tail
       ∧ (length (List.filter isValidationFailed tail) ≤ 1)%nat
       ∧ hasFatalError (resolveModule h cfg from st mod_)
         = hasFatalError st || existsb isValidationFailed tail)
  ∧ (∀ d fs r modulesRaw,
       let st := importLoop h cfg d modulesRaw from in
       hasFatalError st = existsb isValidationFailed (log st)
       ∧ (hasFatalError st = true →
          Resolve h cfg d fs r modulesRaw from = Exit 1 (log st))
       ∧ (hasFatalError st = false →
          ∃ r' d' lg, Resolve h cfg d fs r modulesRaw from = Return r' d' lg))
  ∧ (∀ fs r modulesRaw rest d resolved lg code lg',
       Resolve h cfg d fs r modulesRaw from = Exit code lg' →
       run h (mkResolveCall cfg fs r modulesRaw from :: rest) d resolved lg
       = Aborted code resolved (lg ++ lg')).
Proof.
  split; [|split; [|split; [|split]]].
  - intros mod_ st errs possibleModules. apply resolveCandidates_unresolved.
  - intros mod_ st st' errs before name after Hbefore Hname.
    split; [by apply resolveCandidates_resolved|].
    apply resolveCandidate_quiet in Hname. by apply quiet_log in Hname.
  - intros st mod_.
    destruct (resolveModule_turn h cfg from st mod_) as [Hq|(es & Hes & ->)].
    + apply quiet_log in Hq as [Hfatal (tail & Hlog & Hnone)].
      exists tail. split; [done|]. rewrite Hfatal, Hnone, orb_false_r. split; [|done].
      clear Hlog. induction tail as [|e tail IH]; simpl in *; [lia|].
      destruct (isValidationFailed e); [done|]. by apply IH.
    + exists [ValidationFailed (fromString h from) es]. simpl.
      split; [done|]. split; [lia|]. by rewrite orb_true_r.
  - intros d fs r modulesRaw st. split; [apply importLoop_fatal|].
    unfold Resolve. fold st. split; intros ->; [done|].
    destruct (LoadDepsOrder h (resolver st) fs) as [d' err]. by do 3 eexists.
  - intros fs r modulesRaw rest d resolved lg code lg' Hexit. simpl. by rewrite Hexit.
Qed.

Lemma validation_reports_witness :
  resolveCandidates Sample.h (Sample.cfg true) (Sample.unit "middleware")
    (Sample.import "missing.part" false) Sample.start [] ["missing.part"; "missing"]
  = reported Sample.start "//app:middleware"
      [UnresolvedImport "app/source.py" 1 "missing.part";
       UnresolvedImport "app/source.py" 1 "missing"]
  ∧ resolveCandidates Sample.h (Sample.cfg true) (Sample.unit "middleware")
      (Sample.import "foundation.part" false) Sample.start []
      (["foundation.part"] ++ "foundation" :: [])
    = added Sample.start ":foundation" false {[":foundation" := ["app/foundation.py"]]}.
Proof.
  destruct (validation_reports Sample.h (Sample.cfg true) (Sample.unit "middleware"))
    as (Hreport & Hdrop & _).
  split.
  - rewrite Hreport; [reflexivity|].
    repeat constructor; eexists; vm_compute; reflexivity.
  - refine (proj1 (Hdrop (Sample.import "foundation.part" false) Sample.start _ []
                     ["foundation.part"] "foundation" [] _ _)).
    + repeat constructor; eexists; vm_compute; reflexivity.
    + vm_compute. reflexivity.
Defined.

(** Two records of one unit fail: each is reported on its own, the first
    report being in the log before the second record is looked at; and the
    run ends with the first unit, although the second one resolves. *)
Lemma validation_counterexample :
  log (resolveModules Sample.h (Sample.cfg true) (Sample.unit "middleware")
         [Sample.import "missing_one" false] Sample.start)
  = [ValidationFailed "//app:middleware"
       [UnresolvedImport "app/source.py" 1 "missing_one"]]
  ∧ run Sample.h [Sample.brokenCall; Sample.foundationCall] NewDepsOrderResolver [] []
    = Aborted 1 []
        [ValidationFailed "//app:middleware"
           [UnresolvedImport "app/source.py" 1 "missing_one"];
         ValidationFailed "//app:middleware"
           [UnresolvedImport "app/source.py" 1 "missing_two"]]
  ∧ run Sample.h [Sample.foundationCall] NewDepsOrderResolver [] []
    = Finished [Sample.ruleOf Sample.foundation] (Sample.resolverOf Sample.foundation) [].
Proof. by vm_compute. Qed.

(** ** The members of the output sets *)

(** The unit's own label, listed among the pre-resolved names, is written to
    [deps]. *)
Lemma output_targets_counterexample :
  Sample.selfListed
  = Return (Sample.ruleOf Sample.selfListed) (Sample.resolverOf Sample.selfListed) []
  ∧ label_String Sample.h
      (label_Rel Sample.h (Sample.unit "foundation") "" "app") = ":foundation"
  ∧ attrSet (Sample.ruleOf Sample.selfListed) "deps" = {[":foundation"]}.
Proof. by vm_compute. Qed.

(** ** The two dependency sets *)

Lemma addDependency_normal (dep : string) (deps0 pyiDeps0 : gset string) :
  addDependency dep false deps0 pyiDeps0 = ({[dep]} ∪ deps0, pyiDeps0 ∖ {[dep]}).
Proof. reflexivity. Qed.

Lemma addDependency_type_checking (dep : string) (deps0 pyiDeps0 : gset string) :
  addDependency dep true deps0 pyiDeps0
  = if decide (dep ∈ deps0) then (deps0, pyiDeps0) else (deps0, {[dep]} ∪ pyiDeps0).
Proof.
  unfold addDependency. destruct (decide (dep ∈ deps0)) as [Hin|Hout].
  - by rewrite bool_decide_eq_true_2.
  - by rewrite bool_decide_eq_false_2.
Qed.

(** C1. The two sets are disjoint when the loop over the import records is
    left, but the merge of the pre-resolved names inserts into [deps] without
    removing from [pyiDeps]: a target imported for type checking only and
    listed among the pre-resolved names is written to both attributes. *)
Theorem pre_resolved_overlap :
  (∀ h cfg d modulesRaw from,
     deps (importLoop h cfg d modulesRaw from)
     ## pyiDeps (importLoop h cfg d modulesRaw from))
  ∧ Sample.overlapping
    = Return (Sample.ruleOf Sample.overlapping) (Sample.resolverOf Sample.overlapping) []
  ∧ attrSet (Sample.ruleOf Sample.overlapping) "deps" = {[":foundation"]}
  ∧ attrSet (Sample.ruleOf Sample.overlapping) "pyi_deps" = {[":foundation"]}.
Proof.
  split; [intros; apply importLoop_disjoint | by vm_compute].
Qed.

(** C6. In the root package [strings.Split("", "/")] is a list with one empty
    element, not the empty list.  So [from . import y] is normalized to the
    name [.y] instead of [y], which nothing provides, and with strict
    validation the process exits; and [from .. import y], which climbs above
    the root, is not rejected but resolved as [y].  Only three dots are
    rejected. *)
Theorem relative_import_at_root :
  strings.Split "" slash = [""]
  ∧ normalizeRelative Sample.fromHere "" = Some ".y"
  ∧ possibleModulesOf ".y" = [".y"; ""]
  ∧ Sample.atRoot Sample.fromHere
    = Exit 1 [ValidationFailed "//:main"
                [UnresolvedImport "main.py" 1 ".y"; UnresolvedImport "main.py" 1 ""]]
  ∧ normalizeRelative Sample.fromParent "" = Some "y"
  ∧ attrSet (Sample.ruleOf (Sample.atRoot Sample.fromParent)) "deps" = {[":y"]}
  ∧ normalizeRelative Sample.fromGrandparent "" = None.
Proof. by vm_compute. Qed.

(** * Further properties *)

(** ** Series of calls of [addDependency] *)

Lemma addAll_cons (call : string * bool) (calls : list (string * bool))
    (sets : gset string * gset string) :
  addAll (call :: calls) sets
  = addAll calls (addDependency call.1 call.2 sets.1 sets.2).
Proof. reflexivity. Qed.

Lemma addAll_app (calls calls' : list (string * bool))
    (sets : gset string * gset string) :
  addAll (calls ++ calls') sets = addAll calls' (addAll calls sets).
Proof. apply foldl_app. Qed.

Lemma addDependency_deps (dep x : string) (tc : bool) (deps0 pyiDeps0 : gset string) :
  x ∈ (addDependency dep tc deps0 pyiDeps0).1 ↔ x ∈ deps0 ∨ (x = dep ∧ tc = false).
Proof.
  unfold addDependency. destruct tc.
  - destruct (negb (bool_decide (dep ∈ deps0))); simpl; split; auto; intros [?|[_ ?]]; done.
  - simpl. rewrite elem_of_union, elem_of_singleton. tauto.
Qed.

Lemma addDependency_pyiDeps (dep x : string) (tc : bool) (deps0 pyiDeps0 : gset string) :
  x ∈ (addDependency dep tc deps0 pyiDeps0).2
  ↔ if tc then x ∈ pyiDeps0 ∨ (x = dep ∧ dep ∉ deps0)
    else x ∈ pyiDeps0 ∧ x ≠ dep.
Proof.
  unfold addDependency. destruct tc.
  - destruct (bool_decide (dep ∈ deps0)) eqn:Hin; simpl.
    + apply bool_decide_eq_true in Hin. split; [auto|]. intros [?|[_ ?]]; done.
    + apply bool_decide_eq_false in Hin.
      rewrite elem_of_union, elem_of_singleton. tauto.
  - simpl. rewrite elem_of_difference, elem_of_singleton. tauto.
Qed.

(** Two calls can be swapped. *)
Lemma addDependency_comm (a b : string) (ta tb : bool) (deps0 pyiDeps0 : gset string) :
  addDependency b tb (addDependency a ta deps0 pyiDeps0).1
    (addDependency a ta deps0 pyiDeps0).2
  = addDependency a ta (addDependency b tb deps0 pyiDeps0).1
      (addDependency b tb deps0 pyiDeps0).2.
Proof.
  apply injective_projections; apply set_eq; intros x.
  - rewrite !addDependency_deps. tauto.
  - rewrite !addDependency_pyiDeps.
    destruct ta, tb; rewrite ?addDependency_pyiDeps, ?addDependency_deps;
      destruct (decide (x = a)) as [Ha|Ha], (decide (x = b)) as [Hb|Hb];
      try tauto; destruct (decide (a = b)) as [Hab|Hab]; subst; tauto.
Qed.

Lemma addAll_deps (calls : list (string * bool)) (sets : gset string * gset string)
    (x : string) :
  x ∈ (addAll calls sets).1 ↔ x ∈ sets.1 ∨ (x, false) ∈ calls.
Proof.
  revert sets. induction calls as [|[dep tc] calls IH]; intros sets.
  - simpl. rewrite elem_of_nil. tauto.
  - rewrite addAll_cons, IH, addDependency_deps, elem_of_cons, pair_equal_spec.
    simpl. intuition congruence.
Qed.

Lemma addAll_pyiDeps (calls : list (string * bool)) (sets : gset string * gset string)
    (x : string) :
  sets.1 ## sets.2 →
  x ∈ (addAll calls sets).2
  ↔ (x ∉ (addAll calls sets).1) ∧ (x ∈ sets.2 ∨ (x, true) ∈ calls).
Proof.
  revert sets. induction calls as [|[dep tc] calls IH]; intros sets Hdisj.
  - simpl. rewrite elem_of_nil. split; [|tauto]. intros Hx. split; [|auto].
    intros Hd. by apply (proj1 (elem_of_disjoint _ _) Hdisj x).
  - rewrite addAll_cons. simpl. rewrite IH; [|by apply addDependency_disjoint].
    rewrite !addAll_deps, addDependency_deps, addDependency_pyiDeps, !elem_of_cons,
      !pair_equal_spec. simpl.
    pose proof (proj1 (elem_of_disjoint _ _) Hdisj x) as Hx.
    destruct tc, (decide (x = dep)) as [Hxd|Hxd]; subst; intuition congruence.
Qed.

Lemma addAll_Permutation (calls calls' : list (string * bool))
    (sets : gset string * gset string) :
  calls ≡ₚ calls' → addAll calls sets = addAll calls' sets.
Proof.
  intros Hperm. revert sets.
  induction Hperm as [|call l l' _ IH|a b l|l1 l2 l3 _ IH1 _ IH2]; intros sets.
  - done.
  - rewrite !addAll_cons. apply IH.
  - rewrite !addAll_cons. f_equal. apply addDependency_comm.
  - by rewrite IH1, IH2.
Qed.

(** X1. After any series of calls of [addDependency] on two disjoint sets,
    the normal set holds what it held and every target added at least once
    with type-checking-only = false; the type-checking-only set holds what it
    held or was added with type-checking-only = true, minus the normal set.
    So a target added both ways ends in [deps] and not in [pyiDeps], and the
    two sets stay disjoint. *)
Theorem addDependency_series (calls : list (string * bool)) (deps0 pyiDeps0 : gset string)
    (x : string) :
  deps0 ## pyiDeps0 →
  (x ∈ (addAll calls (deps0, pyiDeps0)).1 ↔ x ∈ deps0 ∨ (x, false) ∈ calls)
  ∧ (x ∈ (addAll calls (deps0, pyiDeps0)).2
     ↔ (x ∉ (addAll calls (deps0, pyiDeps0)).1) ∧ (x ∈ pyiDeps0 ∨ (x, true) ∈ calls))
  ∧ ((x, false) ∈ calls →
     x ∈ (addAll calls (deps0, pyiDeps0)).1 ∧ x ∉ (addAll calls (deps0, pyiDeps0)).2).
Proof.
  intros Hdisj.
  pose proof (addAll_deps calls (deps0, pyiDeps0) x) as Hd.
  pose proof (addAll_pyiDeps calls (deps0, pyiDeps0) x Hdisj) as Hp.
  simpl in *. split; [done|]. split; [done|]. intros Hin. tauto.
Qed.

Lemma addDependency_series_witness :
  ":a" ∈ (addAll [(":a", true); (":b", true); (":a", false); (":a", true)] (∅, ∅)).1
  ∧ ":a" ∉ (addAll [(":a", true); (":b", true); (":a", false); (":a", true)] (∅, ∅)).2.
Proof.
  apply (addDependency_series [(":a", true); (":b", true); (":a", false); (":a", true)]
           ∅ ∅ ":a").
  - apply disjoint_empty_l.
  - apply list_elem_of_In. simpl. tauto.
Defined.

(** X2. The sets that a series of calls of [addDependency] produces do not
    depend on the order of the calls. *)
Theorem addDependency_order (calls calls' : list (string * bool))
    (deps0 pyiDeps0 : gset string) :
  calls ≡ₚ calls' → addAll calls (deps0, pyiDeps0) = addAll calls' (deps0, pyiDeps0).
Proof. apply addAll_Permutation. Qed.

Lemma addDependency_order_witness :
  addAll [(":a", true); (":a", false)] ({[":c"]}, {[":a"]})
  = addAll [(":a", false); (":a", true)] ({[":c"]}, {[":a"]}).
Proof.
  apply (addDependency_order [(":a", true); (":a", false)] [(":a", false); (":a", true)]).
  apply perm_swap.
Defined.

(** ** What one import record does *)

Section Actions.

Variable h : Host.
Variable cfg : Config.
Variable from : label.Label.

Lemma addAndExplain_unfold (how : Strategy) (dep : string) (mod_ : PyModule)
    (moduleName : string) (st : Loop) (d : DepsOrderResolver) :
  addAndExplain h from how dep mod_ moduleName st d
  = mkLoop (addDependency dep (TypeCheckingOnly mod_) (deps st) (pyiDeps st)).1
      (addDependency dep (TypeCheckingOnly mod_) (deps st) (pyiDeps st)).2
      d (hasFatalError st) (explain h from how dep mod_ moduleName (log st)).
Proof.
  unfold addAndExplain.
  by destruct (addDependency dep (TypeCheckingOnly mod_) (deps st) (pyiDeps st)).
Qed.

Lemma stubTargets_cons (module : string) (rest : list string) :
  stubTargets cfg (module :: rest)
  = match FindThirdPartyDependency cfg module with
    | Some (dep, _) => dep :: stubTargets cfg rest
    | None => stubTargets cfg rest
    end.
Proof.
  unfold stubTargets. simpl.
  by destruct (FindThirdPartyDependency cfg module) as [[dep dist]|].
Qed.

Lemma addStubs_addAll (modules : list string) (sets : gset string * gset string) :
  addStubs cfg modules sets
  = addAll (map (λ s, (s, true)) (stubTargets cfg modules)) sets.
Proof.
  revert sets. induction modules as [|module rest IH]; intros sets; [done|].
  rewrite addStubs_cons, stubTargets_cons.
  destruct (FindThirdPartyDependency cfg module) as [[dep dist]|].
  - rewrite map_cons, addAll_cons. apply IH.
  - apply IH.
Qed.

Lemma resolver_eta (d : DepsOrderResolver) :
  mkDepsOrderResolver (fileToIndex d) (loaded d) (importToSrcs d) = d.
Proof. by destruct d. Qed.

Lemma filterSelf_all (matches : list FindResult) :
  Forall (λ m, IsSelfImport m from = false) matches →
  filterSelf from matches [] = Some matches.
Proof.
  assert (Hgen : ∀ acc, Forall (λ m, IsSelfImport m from = false) matches →
                        filterSelf from matches acc = Some (acc ++ matches)).
  { induction matches as [|m rest IH]; intros acc Hall; simpl.
    - by rewrite app_nil_r.
    - apply Forall_cons in Hall as [-> Hrest]. rewrite IH by done.
      by rewrite <- app_assoc. }
  apply Hgen.
Qed.

Lemma filterSelf_self (matches acc : list FindResult) :
  existsb (λ m, IsSelfImport m from) matches = true →
  filterSelf from matches acc = None.
Proof.
  revert acc. induction matches as [|m rest IH]; intros acc; simpl; [done|].
  destruct (IsSelfImport m from); [done|]. simpl. apply IH.
Qed.

Lemma existsb_Forall_false {A} (f : A → bool) (l : list A) :
  existsb f l = false → Forall (λ x, f x = false) l.
Proof.
  induction l as [|x l IH]; simpl; [constructor|].
  intros [Hx Hl]%orb_false_elim. constructor; auto.
Qed.

(** A candidate name either ends the record, in a way that the host and the
    record fix, or adds errors that they fix. *)
Lemma resolveCandidate_action (mod_ : PyModule) (moduleName : string) :
  (∃ a, (a = Skip ∨ ∃ how dep stubs paths, a = Resolved how moduleName dep stubs paths)
        ∧ describes h cfg from mod_ a
        ∧ ∀ st errs, resolveCandidate h cfg from mod_ st errs moduleName
                     = ContinueModules (applyAction h from mod_ a st))
  ∨ (∃ es, Forall (describesError h cfg from mod_) es
           ∧ Forall (λ e, errorName e = moduleName) es
           ∧ ∀ st errs, resolveCandidate h cfg from mod_ st errs moduleName
                        = ContinueCandidates (errs ++ es)).
Proof.
  unfold resolveCandidate.
  destruct (FindRuleWithOverride h moduleName) as [override|] eqn:Hover.
  { destruct (label.Equal (defaultRepo from override) from) eqn:Heq; simpl.
    - right. exists []. split; [constructor|]. split; [constructor|].
      intros st errs. by rewrite app_nil_r.
    - left. eexists (Resolved ByOverride moduleName _ [] None).
      split; [right; by do 4 eexists|]. split.
      + simpl. split; [|done]. by exists override.
      + intros st errs. rewrite addAndExplain_unfold.
        unfold applyAction, callsOf. rewrite addAll_cons. cbn [fst snd map addAll foldl].
        by rewrite resolver_eta. }
  destruct (FindThirdPartyDependency cfg moduleName) as [[dep dist]|] eqn:Hthird.
  { left. exists (Resolved ByThirdParty moduleName dep
                    (stubTargets cfg (stubModules h dist)) None).
    split; [right; by do 4 eexists|]. split.
    - cbn [describes]. split; [|done]. by exists dist.
    - intros st errs.
      destruct (addDependency dep (TypeCheckingOnly mod_) (deps st) (pyiDeps st))
        as [deps1 pyiDeps1] eqn:Hadd.
      destruct (addStubs cfg (stubModules h dist) (deps1, pyiDeps1))
        as [deps2 pyiDeps2] eqn:Hstubs.
      unfold applyAction, callsOf. rewrite addAll_cons. cbn [fst snd].
      rewrite Hadd. cbn [fst snd]. rewrite <- addStubs_addAll, Hstubs. cbn [fst snd].
      by rewrite resolver_eta. }
  set (matches := FindRulesByImportWithConfig h moduleName).
  assert (Hindex :
    (∃ a, (a = Skip ∨ ∃ how dep stubs paths, a = Resolved how moduleName dep stubs paths)
          ∧ describes h cfg from mod_ a
          ∧ ∀ st errs, resolveFromIndex h cfg from mod_ moduleName st errs matches
                       = ContinueModules (applyAction h from mod_ a st))
    ∨ (∃ es, Forall (describesError h cfg from mod_) es
             ∧ Forall (λ e, errorName e = moduleName) es
             ∧ ∀ st errs, resolveFromIndex h cfg from mod_ moduleName st errs matches
                          = ContinueCandidates (errs ++ es))).
  { unfold resolveFromIndex.
    destruct (existsb (λ m, IsSelfImport m from) matches) eqn:Hself.
    { left. exists Skip. split; [by left|]. split; [done|]. intros st errs.
      by rewrite filterSelf_self. }
    apply existsb_Forall_false in Hself. rewrite (filterSelf_all _ Hself).
    assert (Haccept : ∀ candidates,
              candidates ≠ [] → (∀ m, m ∈ candidates → m ∈ matches) →
              ∃ a, (a = Skip ∨ ∃ how dep stubs paths,
                               a = Resolved how moduleName dep stubs paths)
                   ∧ describes h cfg from mod_ a
                   ∧ ∀ st errs, acceptFirst h from mod_ moduleName st errs candidates
                                = ContinueModules (applyAction h from mod_ a st)).
    { intros [|m rest] Hne Hsub; [done|].
      eexists (Resolved ByIndex moduleName _ [] (Some _)).
      split; [right; by do 4 eexists|]. split.
      - simpl. split; [|done]. exists m. split; [apply Hsub; by left|done].
      - intros st errs. cbn [acceptFirst]. rewrite addAndExplain_unfold.
        unfold applyAction, callsOf. by rewrite addAll_cons. }
    destruct (len matches =? 0) eqn:Hzero.
    { right. exists []. split; [constructor|]. split; [constructor|].
      intros st errs. by rewrite app_nil_r. }
    destruct (1 <? len matches) eqn:Hmany.
    - destruct (negb (len (List.filter _ matches) =? 1)) eqn:Hsame.
      + right. eexists [_]. split; [|split; [|done]]; [|by repeat constructor].
        constructor; [|constructor]. cbn [describesError]. cbv zeta.
        fold matches. split; [done|]. split; [done|]. split; [done|].
        split; [done|]. split; [done|]. split; [|split; [|done]].
        * apply Z.ltb_lt in Hmany. unfold len in Hmany. lia.
        * apply negb_true_iff, Z.eqb_neq in Hsame. unfold len in Hsame. lia.
      + left. apply Haccept.
        * apply negb_false_iff, Z.eqb_eq in Hsame. unfold len in Hsame.
          intros Hnil. rewrite Hnil in Hsame. simpl in Hsame. lia.
        * intros m Hm. apply list_elem_of_In in Hm. apply filter_In in Hm as [Hm _].
          by apply list_elem_of_In.
    - left. apply Haccept; [|done].
      intros Hnil. unfold matches in *. rewrite Hnil in Hzero. done. }
  destruct (len matches =? 0) eqn:Hzero; [|done].
  destruct (isStdModule h moduleName) eqn:Hstd.
  { left. exists Skip. split; [by left|]. split; [done|]. done. }
  destruct (ValidateImportStatements cfg) eqn:Hvalidate; [|done].
  right. eexists [_]. split; [|split; [|done]]; [|by repeat constructor].
  constructor; [|constructor]. simpl.
  split; [done|]. split; [done|]. split; [done|]. split; [done|]. split; [done|].
  split; [|done]. apply Z.eqb_eq in Hzero. unfold len, matches in Hzero.
  destruct (FindRulesByImportWithConfig h moduleName); [done|simpl in Hzero; lia].
Qed.

Lemma resolveCandidates_action (mod_ : PyModule) (all possibleModules : list string)
    (errs : list ResolveError) :
  (∀ name, name ∈ possibleModules → name ∈ all) →
  Forall (describesError h cfg from mod_) errs →
  Forall (λ e, errorName e ∈ all) errs →
  ∃ a, describes h cfg from mod_ a
       ∧ a ≠ Invalid
       ∧ namedIn all a
       ∧ ∀ st, resolveCandidates h cfg from mod_ st errs possibleModules
               = applyAction h from mod_ a st.
Proof.
  revert errs. induction possibleModules as [|name rest IH]; intros errs Hsub Herrs Hnames.
  - destruct errs as [|e errs].
    + exists Skip. by repeat split.
    + exists (Reported (e :: errs)). split; [by split|]. split; [done|]. split; [done|].
      intros st. simpl. unfold len. simpl. by destruct (length errs).
  - destruct (resolveCandidate_action mod_ name)
      as [(a & Hkind & Ha & Heq)|(es & Hes & Hname & Heq)].
    + exists a. split; [done|]. split; [|split].
      * destruct Hkind as [->|(? & ? & ? & ? & ->)]; done.
      * destruct Hkind as [->|(? & ? & ? & ? & ->)]; [done|]. apply Hsub. by left.
      * intros st. simpl. by rewrite Heq.
    + destruct (IH (errs ++ es)) as (a & Ha & Hne & Hnamed & Hrest).
      { intros name' Hin. apply Hsub. by right. }
      { by apply Forall_app. }
      { apply Forall_app. split; [done|]. eapply Forall_impl; [exact Hname|].
        intros e ->. apply Hsub. by left. }
      exists a. split; [done|]. split; [done|]. split; [done|].
      intros st. simpl. by rewrite Heq.
Qed.

(** What a record does is fixed by the host, the configuration and the record:
    the state only receives it.  The names it is about are candidate names
    of the record. *)
Lemma resolveModule_named (mod_ : PyModule) :
  ∃ a, describes h cfg from mod_ a
       ∧ namedIn (candidatesOf cfg from mod_) a
       ∧ ∀ st, resolveModule h cfg from st mod_ = applyAction h from mod_ a st.
Proof.
  unfold resolveModule, candidatesOf. destruct (strings.HasPrefix (From mod_) ".").
  - destruct (negb (ExperimentalAllowRelativeImports cfg)
              || negb (isPackageGeneration cfg)).
    + by exists Skip.
    + destruct (normalizeRelative mod_ (label.Pkg from)) as [moduleName|].
      * destruct (resolveCandidates_action mod_ (possibleModulesOf moduleName)
                    (possibleModulesOf moduleName) [])
          as (a & Ha & _ & Hnamed & Heq); [done|constructor|constructor|].
        by exists a.
      * by exists Invalid.
  - destruct (resolveCandidates_action mod_ (possibleModulesOf (Name mod_))
                (possibleModulesOf (Name mod_)) [])
      as (a & Ha & _ & Hnamed & Heq); [done|constructor|constructor|].
    by exists a.
Qed.

Lemma resolveModule_action (mod_ : PyModule) :
  ∃ a, describes h cfg from mod_ a
       ∧ ∀ st, resolveModule h cfg from st mod_ = applyAction h from mod_ a st.
Proof. destruct (resolveModule_named mod_) as (a & Ha & _ & Heq). by exists a. Qed.

End Actions.

(** ** The loop over the import records, record by record *)

Section LoopFacts.

Variable h : Host.
Variable cfg : Config.
Variable from : label.Label.

Lemma applyAction_core (mod_ : PyModule) (a : Action) (st : Loop) :
  core (applyAction h from mod_ a st) = coreStep mod_ a (core st).
Proof.
  unfold core, coreStep. destruct a as [| |how name dep stubs paths|errs]; simpl.
  - by rewrite orb_false_r.
  - by rewrite orb_false_r.
  - rewrite orb_false_r. cbn [fst snd]. f_equal. symmetry. apply surjective_pairing.
  - by rewrite orb_true_r.
Qed.

Lemma resolveModules_cons (m : PyModule) (rest : list PyModule) (st : Loop) :
  resolveModules h cfg from (m :: rest) st
  = resolveModules h cfg from rest (resolveModule h cfg from st m).
Proof. reflexivity. Qed.

Lemma resolveModules_app (ms ms' : list PyModule) (st : Loop) :
  resolveModules h cfg from (ms ++ ms') st
  = resolveModules h cfg from ms' (resolveModules h cfg from ms st).
Proof. apply foldl_app. Qed.

Lemma resolveModule_core (m : PyModule) (st1 st2 : Loop) :
  core st1 = core st2 →
  core (resolveModule h cfg from st1 m) = core (resolveModule h cfg from st2 m).
Proof.
  intros Hcore. destruct (resolveModule_action h cfg from m) as (a & _ & Heq).
  by rewrite !Heq, !applyAction_core, Hcore.
Qed.

Lemma resolveModules_core (ms : list PyModule) (st1 st2 : Loop) :
  core st1 = core st2 →
  core (resolveModules h cfg from ms st1) = core (resolveModules h cfg from ms st2).
Proof.
  revert st1 st2. induction ms as [|m rest IH]; intros st1 st2 Hcore; [done|].
  rewrite !resolveModules_cons. apply IH. by apply resolveModule_core.
Qed.

Lemma coreStep_comm (m1 m2 : PyModule) (a1 a2 : Action)
    (c : gset string * gset string * bool) :
  coreStep m2 a2 (coreStep m1 a1 c) = coreStep m1 a1 (coreStep m2 a2 c).
Proof.
  unfold coreStep. cbn [fst snd]. f_equal.
  - rewrite <- !addAll_app. apply addAll_Permutation, Permutation_app_comm.
  - rewrite <- !orb_assoc. f_equal. apply orb_comm.
Qed.

Lemma resolveModule_swap (m1 m2 : PyModule) (st : Loop) :
  core (resolveModule h cfg from (resolveModule h cfg from st m1) m2)
  = core (resolveModule h cfg from (resolveModule h cfg from st m2) m1).
Proof.
  destruct (resolveModule_action h cfg from m1) as (a1 & _ & Heq1).
  destruct (resolveModule_action h cfg from m2) as (a2 & _ & Heq2).
  rewrite !Heq1, !Heq2, !applyAction_core. apply coreStep_comm.
Qed.

Lemma resolveModules_Permutation (ms ms' : list PyModule) (st : Loop) :
  ms ≡ₚ ms' →
  core (resolveModules h cfg from ms st) = core (resolveModules h cfg from ms' st).
Proof.
  intros Hperm. revert st.
  induction Hperm as [|m l l' _ IH|m1 m2 l|l1 l2 l3 _ IH1 _ IH2]; intros st.
  - done.
  - rewrite !resolveModules_cons. apply IH.
  - rewrite !resolveModules_cons. apply resolveModules_core, resolveModule_swap.
  - by rewrite IH1, IH2.
Qed.

End LoopFacts.

(** X3. The two dependency sets and the flag [hasFatalError] with which the
    loop over the import records ends do not depend on the order of the
    records; so neither does the decision of [Resolve] to exit. *)
Theorem import_order (h : Host) (cfg : Config) (d : DepsOrderResolver)
    (from : label.Label) (modules modules' : list PyModule) :
  modules ≡ₚ modules' →
  core (importLoop h cfg d (Some modules) from)
  = core (importLoop h cfg d (Some modules') from)
  ∧ ∀ fs r, (∃ lg, Resolve h cfg d fs r (Some modules) from = Exit 1 lg)
            ↔ (∃ lg, Resolve h cfg d fs r (Some modules') from = Exit 1 lg).
Proof.
  intros Hperm.
  assert (Hcore : core (importLoop h cfg d (Some modules) from)
                  = core (importLoop h cfg d (Some modules') from)).
  { unfold importLoop. by apply resolveModules_Permutation. }
  split; [done|]. intros fs r. unfold Resolve.
  assert (Hfatal : hasFatalError (importLoop h cfg d (Some modules) from)
                   = hasFatalError (importLoop h cfg d (Some modules') from)).
  { unfold core in Hcore. congruence. }
  cbn zeta. rewrite Hfatal.
  destruct (hasFatalError (importLoop h cfg d (Some modules') from)).
  - split; intros _; by eexists.
  - destruct (LoadDepsOrder h (resolver (importLoop h cfg d (Some modules) from)) fs),
      (LoadDepsOrder h (resolver (importLoop h cfg d (Some modules') from)) fs).
    split; intros [lg Hlg]; done.
Qed.

Lemma import_order_witness :
  core (importLoop Sample.h (Sample.cfg true) NewDepsOrderResolver
          (Some [Sample.import "foundation" true; Sample.import "foundation" false])
          (Sample.unit "middleware"))
  = core (importLoop Sample.h (Sample.cfg true) NewDepsOrderResolver
            (Some [Sample.import "foundation" false; Sample.import "foundation" true])
            (Sample.unit "middleware")).
Proof.
  apply (import_order Sample.h (Sample.cfg true) NewDepsOrderResolver
           (Sample.unit "middleware")
           [Sample.import "foundation" true; Sample.import "foundation" false]
           [Sample.import "foundation" false; Sample.import "foundation" true]).
  apply perm_swap.
Defined.

Lemma addDependency_union (dep x : string) (tc : bool) (deps0 pyiDeps0 : gset string) :
  x ∈ (addDependency dep tc deps0 pyiDeps0).1 ∪ (addDependency dep tc deps0 pyiDeps0).2
  ↔ x ∈ deps0 ∪ pyiDeps0 ∨ x = dep.
Proof.
  rewrite !elem_of_union, addDependency_deps, addDependency_pyiDeps.
  destruct tc, (decide (x = dep)) as [Hx|Hx]; subst;
    destruct (decide (dep ∈ deps0)); intuition congruence.
Qed.

Lemma addAll_union (calls : list (string * bool)) (sets : gset string * gset string)
    (x : string) :
  x ∈ (addAll calls sets).1 ∪ (addAll calls sets).2
  ↔ x ∈ sets.1 ∪ sets.2 ∨ x ∈ calls.*1.
Proof.
  revert sets. induction calls as [|[dep tc] calls IH]; intros sets.
  - simpl. rewrite elem_of_nil. tauto.
  - rewrite addAll_cons, IH. cbn [fst snd fmap list_fmap]. rewrite addDependency_union.
    rewrite elem_of_cons. tauto.
Qed.

Section LoopInvariants.

Variable h : Host.
Variable cfg : Config.
Variable from : label.Label.

Lemma resolveModules_named_actions (P : Loop → Prop) (ms : list PyModule) (st : Loop) :
  P st →
  (∀ m a st', m ∈ ms → describes h cfg from m a → namedIn (candidatesOf cfg from m) a →
              P st' → P (applyAction h from m a st')) →
  P (resolveModules h cfg from ms st).
Proof.
  revert st. induction ms as [|m rest IH]; intros st Hst Hstep; [done|].
  rewrite resolveModules_cons. apply IH.
  - destruct (resolveModule_named h cfg from m) as (a & Ha & Hnamed & Heq). rewrite Heq.
    apply Hstep; [left|done|done|done].
  - intros m' a st' Hin. apply Hstep. by right.
Qed.

Lemma resolveModules_actions (P : Loop → Prop) (ms : list PyModule) (st : Loop) :
  P st →
  (∀ m a st', m ∈ ms → describes h cfg from m a → P st' →
              P (applyAction h from m a st')) →
  P (resolveModules h cfg from ms st).
Proof.
  revert st. induction ms as [|m rest IH]; intros st Hst Hstep; [done|].
  rewrite resolveModules_cons. apply IH.
  - destruct (resolveModule_action h cfg from m) as (a & Ha & Heq). rewrite Heq.
    apply Hstep; [left|done|done].
  - intros m' a st' Hin. apply Hstep. by right.
Qed.

Lemma applyAction_deps (m : PyModule) (a : Action) (st : Loop) (x : string) :
  x ∈ deps (applyAction h from m a st) ↔ x ∈ deps st ∨ (x, false) ∈ callsOf m a.
Proof.
  pose proof (applyAction_core h from m a st) as Hcore.
  unfold core, coreStep in Hcore. cbn [fst snd] in Hcore.
  assert (Hd : deps (applyAction h from m a st)
               = (addAll (callsOf m a) (deps st, pyiDeps st)).1).
  { destruct (addAll (callsOf m a) (deps st, pyiDeps st)). simpl. congruence. }
  rewrite Hd. apply addAll_deps.
Qed.

Lemma applyAction_union (m : PyModule) (a : Action) (st : Loop) (x : string) :
  x ∈ deps (applyAction h from m a st) ∪ pyiDeps (applyAction h from m a st)
  ↔ x ∈ deps st ∪ pyiDeps st ∨ x ∈ (callsOf m a).*1.
Proof.
  pose proof (applyAction_core h from m a st) as Hcore.
  unfold core, coreStep in Hcore. cbn [fst snd] in Hcore.
  assert (Hd : (deps (applyAction h from m a st), pyiDeps (applyAction h from m a st))
               = addAll (callsOf m a) (deps st, pyiDeps st)) by congruence.
  pose proof (addAll_union (callsOf m a) (deps st, pyiDeps st) x) as Hun.
  rewrite <- Hd in Hun. apply Hun.
Qed.

Lemma applyAction_fatal (m : PyModule) (a : Action) (st : Loop) :
  hasFatalError (applyAction h from m a st) = hasFatalError st || isReported a.
Proof.
  pose proof (applyAction_core h from m a st) as Hcore.
  unfold core, coreStep in Hcore. cbn [fst snd] in Hcore. congruence.
Qed.

Lemma resolveModules_monotone (ms : list PyModule) (st : Loop) :
  deps st ⊆ deps (resolveModules h cfg from ms st)
  ∧ deps st ∪ pyiDeps st
    ⊆ deps (resolveModules h cfg from ms st) ∪ pyiDeps (resolveModules h cfg from ms st)
  ∧ (hasFatalError st = true → hasFatalError (resolveModules h cfg from ms st) = true).
Proof.
  apply (resolveModules_actions
           (λ st', deps st ⊆ deps st'
                   ∧ deps st ∪ pyiDeps st ⊆ deps st' ∪ pyiDeps st'
                   ∧ (hasFatalError st = true → hasFatalError st' = true))).
  - done.
  - intros m a st' _ _ (Hd & Hu & Hf). split; [|split].
    + intros x Hx. apply applyAction_deps. left. by apply Hd.
    + intros x Hx. apply applyAction_union. left. by apply Hu.
    + intros Hst. rewrite applyAction_fatal, (Hf Hst). done.
Qed.

End LoopInvariants.

(** X4. Import records only add: the unit with further records has every
    normal dependency it has without them, every target of its two sets is
    still in one of the two (a target leaves [pyiDeps] only by moving to
    [deps]), and a validation failure is not taken back. *)
Theorem import_monotone (h : Host) (cfg : Config) (d : DepsOrderResolver)
    (from : label.Label) (modules more : list PyModule) :
  let st := importLoop h cfg d (Some modules) from in
  let st' := importLoop h cfg d (Some (modules ++ more)) from in
  deps st ⊆ deps st'
  ∧ deps st ∪ pyiDeps st ⊆ deps st' ∪ pyiDeps st'
  ∧ (if hasFatalError st then hasFatalError st' = true else True).
Proof.
  intros st st'. unfold st', importLoop. rewrite resolveModules_app.
  fold (importLoop h cfg d (Some modules) from). fold st.
  destruct (resolveModules_monotone h cfg from more st) as (Hd & Hu & Hf).
  split; [done|]. split; [done|]. destruct (hasFatalError st); [by apply Hf|done].
Qed.

Section Composition.

Variable h : Host.
Variable cfg : Config.
Variable from : label.Label.

Lemma resolveModule_deps_split (m : PyModule) (st st0 : Loop) (x : string) :
  deps st0 = ∅ →
  x ∈ deps (resolveModule h cfg from st m)
  ↔ x ∈ deps st ∨ x ∈ deps (resolveModule h cfg from st0 m).
Proof.
  intros Hempty. destruct (resolveModule_action h cfg from m) as (a & _ & Heq).
  rewrite !Heq, !applyAction_deps, Hempty.
  pose proof (not_elem_of_empty (C := gset string) x). tauto.
Qed.

Lemma resolveModule_union_split (m : PyModule) (st st0 : Loop) (x : string) :
  deps st0 = ∅ → pyiDeps st0 = ∅ →
  x ∈ deps (resolveModule h cfg from st m) ∪ pyiDeps (resolveModule h cfg from st m)
  ↔ x ∈ deps st ∪ pyiDeps st
    ∨ x ∈ deps (resolveModule h cfg from st0 m) ∪ pyiDeps (resolveModule h cfg from st0 m).
Proof.
  intros Hd Hp. destruct (resolveModule_action h cfg from m) as (a & _ & Heq).
  rewrite !Heq, !applyAction_union, Hd, Hp, (elem_of_union ∅ ∅).
  pose proof (not_elem_of_empty (C := gset string) x). tauto.
Qed.

Lemma resolveModule_fatal_split (m : PyModule) (st st0 : Loop) :
  hasFatalError st0 = false →
  hasFatalError (resolveModule h cfg from st m)
  = hasFatalError st || hasFatalError (resolveModule h cfg from st0 m).
Proof.
  intros Hf. destruct (resolveModule_action h cfg from m) as (a & _ & Heq).
  by rewrite !Heq, !applyAction_fatal, Hf.
Qed.

Lemma resolveModules_split (ms : list PyModule) (st st0 : Loop) (x : string) :
  deps st0 = ∅ → pyiDeps st0 = ∅ → hasFatalError st0 = false →
  (x ∈ deps (resolveModules h cfg from ms st)
   ↔ x ∈ deps st ∨ ∃ m, m ∈ ms ∧ x ∈ deps (resolveModule h cfg from st0 m))
  ∧ (x ∈ deps (resolveModules h cfg from ms st) ∪ pyiDeps (resolveModules h cfg from ms st)
     ↔ x ∈ deps st ∪ pyiDeps st
       ∨ ∃ m, m ∈ ms ∧ x ∈ deps (resolveModule h cfg from st0 m)
                             ∪ pyiDeps (resolveModule h cfg from st0 m))
  ∧ (hasFatalError (resolveModules h cfg from ms st) = true
     ↔ hasFatalError st = true
       ∨ ∃ m, m ∈ ms ∧ hasFatalError (resolveModule h cfg from st0 m) = true).
Proof.
  intros Hd Hp Hf. revert st. induction ms as [|m rest IH]; intros st.
  - simpl. repeat split; auto; intros [?|(? & Hin & _)]; try done;
      by apply elem_of_nil in Hin.
  - rewrite resolveModules_cons. destruct (IH (resolveModule h cfg from st m))
      as (IHd & IHu & IHf).
    rewrite IHd, IHu, IHf, (resolveModule_deps_split m st st0 x Hd),
      (resolveModule_union_split m st st0 x Hd Hp), (resolveModule_fatal_split m st st0 Hf),
      orb_true_iff.
    repeat split.
    + intros [[?|?]|(m' & Hin & ?)]; [by left| |].
      * right. exists m. split; [left|done].
      * right. exists m'. split; [by right|done].
    + intros [?|(m' & Hin & ?)]; [by left; left|].
      apply elem_of_cons in Hin as [->|Hin]; [by left; right|].
      right. by exists m'.
    + intros [[?|?]|(m' & Hin & ?)]; [by left| |].
      * right. exists m. split; [left|done].
      * right. exists m'. split; [by right|done].
    + intros [?|(m' & Hin & ?)]; [by left; left|].
      apply elem_of_cons in Hin as [->|Hin]; [by left; right|].
      right. by exists m'.
    + intros [[?|?]|(m' & Hin & ?)]; [by left| |].
      * right. exists m. split; [left|done].
      * right. exists m'. split; [by right|done].
    + intros [?|(m' & Hin & ?)]; [by left; left|].
      apply elem_of_cons in Hin as [->|Hin]; [by left; right|].
      right. by exists m'.
Qed.

End Composition.

(** X5. The sets of a unit are put together from what each of its import
    records gives when it is resolved alone: a target is a normal dependency
    exactly when some record alone makes it one; it is a type-checking-only
    dependency exactly when some record alone makes it one and no record
    makes it a normal one; and the unit fails validation exactly when some
    record alone does. *)
Theorem import_records_compose (h : Host) (cfg : Config) (d : DepsOrderResolver)
    (from : label.Label) (modules : list PyModule) (x : string) :
  let all := importLoop h cfg d (Some modules) from in
  let one := λ m, importLoop h cfg d (Some [m]) from in
  (x ∈ deps all ↔ ∃ m, m ∈ modules ∧ x ∈ deps (one m))
  ∧ (x ∈ pyiDeps all
     ↔ (x ∉ deps all) ∧ ∃ m, m ∈ modules ∧ x ∈ pyiDeps (one m))
  ∧ (hasFatalError all = true ↔ ∃ m, m ∈ modules ∧ hasFatalError (one m) = true).
Proof.
  intros all one.
  destruct (resolveModules_split h cfg from modules (mkLoop ∅ ∅ d false [])
              (mkLoop ∅ ∅ d false []) x eq_refl eq_refl eq_refl) as (Hd & Hu & Hf).
  change (resolveModules h cfg from modules (mkLoop ∅ ∅ d false [])) with all in *.
  change (λ m, resolveModule h cfg from (mkLoop ∅ ∅ d false []) m) with one in *.
  cbn [deps pyiDeps hasFatalError] in Hd, Hu, Hf.
  assert (Hdisj : deps all ## pyiDeps all) by apply importLoop_disjoint.
  split; [|split].
  - rewrite Hd. pose proof (not_elem_of_empty (C := gset string) x). tauto.
  - split.
    + intros Hx. assert (Hnot : x ∉ deps all).
      { intros Hin. by apply (proj1 (elem_of_disjoint _ _) Hdisj x). }
      split; [done|].
      destruct (proj1 Hu (elem_of_union_r _ _ _ Hx)) as [Hin|(m & Hin & Hm)].
      { pose proof (not_elem_of_empty (C := gset string) x).
        apply elem_of_union in Hin. tauto. }
      exists m. split; [done|]. apply elem_of_union in Hm as [Hm|Hm]; [|done].
      exfalso. apply Hnot, Hd. right. by exists m.
    + intros (Hnot & m & Hin & Hm).
      assert (Hx : x ∈ deps all ∪ pyiDeps all).
      { apply Hu. right. exists m. split; [done|]. by apply elem_of_union_r. }
      apply elem_of_union in Hx as [Hx|Hx]; done.
  - rewrite Hf. split; [by intros [?|?]|by right].
Qed.

(** ** Bounds, explanations and reports *)

Lemma size_union_le (X Y : gset string) : (size (X ∪ Y) ≤ size X + size Y)%nat.
Proof.
  rewrite size_union_alt.
  assert (size (Y ∖ X) ≤ size Y)%nat; [|lia].
  apply subseteq_size. intros x Hx. by apply elem_of_difference in Hx as [Hx _].
Qed.

Lemma size_list_to_set_le (l : list string) :
  (size (list_to_set l : gset string) ≤ length l)%nat.
Proof.
  induction l as [|x l IH].
  - rewrite list_to_set_nil, (size_empty (C := gset string)). done.
  - rewrite list_to_set_cons. pose proof (size_union_le {[x]} (list_to_set l)) as Hle.
    rewrite size_singleton in Hle. simpl. lia.
Qed.

Lemma stubTargets_length (cfg : Config) (modules : list string) :
  (length (stubTargets cfg modules) ≤ length modules)%nat.
Proof.
  induction modules as [|module rest IH]; [done|].
  rewrite stubTargets_cons. destruct (FindThirdPartyDependency cfg module) as [[dep dist]|];
    simpl; lia.
Qed.

Section Bounds.

Variable h : Host.
Variable cfg : Config.
Variable from : label.Label.

Lemma callsOf_length (m : PyModule) (a : Action) :
  describes h cfg from m a → (length (callsOf m a) ≤ 5)%nat.
Proof.
  destruct a as [| |how name dep stubs paths|errs]; simpl; try lia.
  rewrite length_map. destruct how.
  - intros (_ & -> & _). simpl. lia.
  - intros ((dist & _ & ->) & _).
    pose proof (stubTargets_length cfg (stubModules h dist)) as Hle. simpl in Hle. lia.
  - intros (_ & _ & _ & _ & ->). simpl. lia.
Qed.

Lemma applyAction_deps_size (m : PyModule) (a : Action) (st : Loop) :
  (size (deps (applyAction h from m a st))
   ≤ size (deps st) + if TypeCheckingOnly m then 0 else 1)%nat.
Proof.
  destruct a as [| |how name dep stubs paths|errs]; try (simpl; lia).
  assert (Hsub : deps (applyAction h from m (Resolved how name dep stubs paths) st)
                 ⊆ deps st ∪ (if TypeCheckingOnly m then ∅ else {[dep]})).
  { intros x Hx. apply applyAction_deps in Hx as [Hx|Hx]; [by apply elem_of_union_l|].
    apply elem_of_union_r. cbn [callsOf] in Hx.
    apply elem_of_cons in Hx as [Hx|Hx].
    - apply pair_equal_spec in Hx as [-> <-]. by apply elem_of_singleton.
    - apply list_elem_of_fmap in Hx as (s & Hs & _). by apply pair_equal_spec in Hs as [_ ?]. }
  apply subseteq_size in Hsub. pose proof (size_union_le (deps st)
    (if TypeCheckingOnly m then ∅ else {[dep]})) as Hle.
  destruct (TypeCheckingOnly m).
  - rewrite (size_empty (C := gset string)) in Hle. lia.
  - rewrite size_singleton in Hle. lia.
Qed.

Lemma applyAction_union_size (m : PyModule) (a : Action) (st : Loop) :
  describes h cfg from m a →
  (size (deps (applyAction h from m a st) ∪ pyiDeps (applyAction h from m a st))
   ≤ size (deps st ∪ pyiDeps st) + 5)%nat.
Proof.
  intros Ha.
  assert (Hsub : deps (applyAction h from m a st) ∪ pyiDeps (applyAction h from m a st)
                 ⊆ (deps st ∪ pyiDeps st) ∪ list_to_set (callsOf m a).*1).
  { intros x Hx. apply applyAction_union in Hx as [Hx|Hx]; [by apply elem_of_union_l|].
    apply elem_of_union_r. by apply elem_of_list_to_set. }
  apply subseteq_size in Hsub.
  pose proof (size_union_le (deps st ∪ pyiDeps st) (list_to_set (callsOf m a).*1)) as Hle.
  pose proof (size_list_to_set_le (callsOf m a).*1) as Hlist.
  rewrite length_fmap in Hlist. pose proof (callsOf_length m a Ha). lia.
Qed.

Lemma resolveModules_size (ms : list PyModule) (st : Loop) :
  (size (deps (resolveModules h cfg from ms st))
   ≤ size (deps st) + length (List.filter (λ m, negb (TypeCheckingOnly m)) ms))%nat
  ∧ (size (deps (resolveModules h cfg from ms st)
           ∪ pyiDeps (resolveModules h cfg from ms st))
     ≤ size (deps st ∪ pyiDeps st) + 5 * length ms)%nat.
Proof.
  revert st. induction ms as [|m rest IH]; intros st.
  - simpl. lia.
  - rewrite resolveModules_cons.
    destruct (IH (resolveModule h cfg from st m)) as [IHd IHu].
    destruct (resolveModule_action h cfg from m) as (a & Ha & Heq).
    rewrite Heq in IHd, IHu. rewrite Heq.
    pose proof (applyAction_deps_size m a st) as Hd.
    pose proof (applyAction_union_size m a st Ha) as Hu.
    cbn [List.filter length]. destruct (TypeCheckingOnly m); simpl in *; lia.
Qed.

End Bounds.

(** X6. A unit has at most one normal dependency for each of its import
    records that is not marked as type-checking-only (so none when all are
    marked), and at most five targets in its two sets for each record: the
    target of the record and the four stub packages of a distribution. *)
Theorem import_bounds (h : Host) (cfg : Config) (d : DepsOrderResolver)
    (from : label.Label) (modules : list PyModule) :
  let st := importLoop h cfg d (Some modules) from in
  (size (deps st) ≤ length (List.filter (λ m, negb (TypeCheckingOnly m)) modules))%nat
  ∧ (size (deps st ∪ pyiDeps st) ≤ 5 * length modules)%nat.
Proof.
  intros st.
  destruct (resolveModules_size h cfg from modules (mkLoop ∅ ∅ d false [])) as [Hd Hu].
  fold (importLoop h cfg d (Some modules) from) in Hd, Hu. fold st in Hd, Hu.
  cbn [deps pyiDeps] in Hd, Hu.
  rewrite (left_id_L ∅ (∪)), (size_empty (C := gset string)) in Hu.
  rewrite (size_empty (C := gset string)) in Hd. done.
Qed.

Section Logs.

Variable h : Host.
Variable cfg : Config.
Variable from : label.Label.

Lemma resolveModules_explained (ms : list PyModule) (st : Loop) :
  let explained := λ st' : Loop,
    ∀ how dep f filepath name line,
      ExplainDependency how dep f filepath name line ∈ log st' →
      dep = EXPLAIN_DEPENDENCY h ∧ f = fromString h from
      ∧ dep ∈ deps st' ∪ pyiDeps st'
      ∧ ∃ m, m ∈ ms ∧ filepath = Filepath m ∧ line = LineNumber m in
  explained st → explained (resolveModules h cfg from ms st).
Proof.
  intros explained Hst. apply resolveModules_actions; [done|].
  intros m a st' Hm _ IH how dep f filepath name line Hin.
  assert (Hold : ExplainDependency how dep f filepath name line ∈ log st' →
                 dep = EXPLAIN_DEPENDENCY h ∧ f = fromString h from
                 ∧ dep ∈ deps (applyAction h from m a st')
                         ∪ pyiDeps (applyAction h from m a st')
                 ∧ ∃ m, m ∈ ms ∧ filepath = Filepath m ∧ line = LineNumber m).
  { intros Hlog. destruct (IH _ _ _ _ _ _ Hlog) as (? & ? & ? & ?).
    repeat split; try done. apply applyAction_union. by left. }
  destruct a as [| |how' name' dep' stubs paths|errs].
  - by apply Hold.
  - cbn [applyAction noted log] in Hin. apply elem_of_app in Hin as [Hin|Hin]; [by apply Hold|].
    by apply list_elem_of_singleton in Hin.
  - assert (Hlog : log (applyAction h from m (Resolved how' name' dep' stubs paths) st')
                   = explain h from how' dep' m name' (log st')) by reflexivity.
    rewrite Hlog in Hin. unfold explain in Hin.
    destruct (String.eqb (EXPLAIN_DEPENDENCY h) dep') eqn:Heq; [|by apply Hold].
    apply elem_of_app in Hin as [Hin|Hin]; [by apply Hold|].
    apply list_elem_of_singleton in Hin. injection Hin as -> -> -> -> -> ->.
    apply String.eqb_eq in Heq. repeat split; try done.
    + apply applyAction_union. right. cbn [callsOf fmap list_fmap fst]. by left.
    + by exists m.
  - cbn [applyAction reported log] in Hin.
    apply elem_of_app in Hin as [Hin|Hin]; [by apply Hold|].
    by apply list_elem_of_singleton in Hin.
Qed.

Lemma resolveModules_reports (ms : list PyModule) (st : Loop) :
  let described := λ st' : Loop,
    ∀ f errs, ValidationFailed f errs ∈ log st' →
              f = fromString h from ∧ errs ≠ []
              ∧ ∃ m, m ∈ ms
                     ∧ Forall (λ e, errorName e ∈ candidatesOf cfg from m
                                    ∧ describesError h cfg from m e) errs in
  described st → described (resolveModules h cfg from ms st).
Proof.
  intros described Hst. apply resolveModules_named_actions; [done|].
  intros m a st' Hm Ha Hnamed IH f errs Hin.
  destruct a as [| |how' name' dep' stubs paths|errs'].
  - by apply IH.
  - cbn [applyAction noted log] in Hin. apply elem_of_app in Hin as [Hin|Hin]; [by apply IH|].
    by apply list_elem_of_singleton in Hin.
  - assert (Hlog : log (applyAction h from m (Resolved how' name' dep' stubs paths) st')
                   = explain h from how' dep' m name' (log st')) by reflexivity.
    rewrite Hlog in Hin. unfold explain in Hin.
    destruct (String.eqb (EXPLAIN_DEPENDENCY h) dep'); [|by apply IH].
    apply elem_of_app in Hin as [Hin|Hin]; [by apply IH|].
    by apply list_elem_of_singleton in Hin.
  - cbn [applyAction reported log] in Hin.
    apply elem_of_app in Hin as [Hin|Hin]; [by apply IH|].
    apply list_elem_of_singleton in Hin. injection Hin as -> ->.
    destruct Ha as [Hne Hall]. split; [done|]. split; [done|].
    exists m. split; [done|]. cbn [namedIn] in Hnamed.
    apply Forall_forall. intros e He. split.
    + by apply (proj1 (Forall_forall _ _) Hnamed).
    + by apply (proj1 (Forall_forall _ _) Hall).
Qed.

Lemma importLoop_reports (d : DepsOrderResolver) (modules : list PyModule)
    (f : string) (errs : list ResolveError) :
  ValidationFailed f errs ∈ log (importLoop h cfg d (Some modules) from) →
  f = fromString h from ∧ errs ≠ []
  ∧ ∃ m, m ∈ modules
         ∧ Forall (λ e, errorName e ∈ candidatesOf cfg from m
                        ∧ describesError h cfg from m e) errs.
Proof.
  intros Hin.
  refine (resolveModules_reports modules (mkLoop ∅ ∅ d false []) _ f errs Hin).
  intros f' errs' Hin'. by apply elem_of_nil in Hin'.
Qed.

End Logs.

(** X7. An explanation is logged only for the label named by
    [EXPLAIN_DEPENDENCY], only on behalf of the unit and of one of its import
    records, and only for a target that is in one of the two sets of the
    unit when the loop is left. *)
Theorem explanation_logged (h : Host) (cfg : Config) (d : DepsOrderResolver)
    (from : label.Label) (modules : list PyModule) (how : Strategy)
    (dep f filepath name : string) (line : Z) :
  let st := importLoop h cfg d (Some modules) from in
  ExplainDependency how dep f filepath name line ∈ log st →
  dep = EXPLAIN_DEPENDENCY h ∧ f = fromString h from
  ∧ dep ∈ deps st ∪ pyiDeps st
  ∧ ∃ m, m ∈ modules ∧ filepath = Filepath m ∧ line = LineNumber m.
Proof.
  intros st Hin.
  refine (resolveModules_explained h cfg from modules (mkLoop ∅ ∅ d false []) _
            how dep f filepath name line Hin).
  intros ? ? ? ? ? ? Hin'. by apply elem_of_nil in Hin'.
Qed.

(** X8. A report is logged on behalf of the unit, is not empty, and holds
    the errors of one import record of the unit: every error of the report is
    about a candidate name of that record and carries its file and line.  An
    unresolved import is reported only with validation on, for a name that
    has no override, no third-party distribution and no match in the rule
    index and is not a standard module.  An ambiguous import is reported only
    for a name without override and third-party distribution that has at
    least two matches in the index, none of them the unit itself, and not
    exactly one of them under the Python project root; the report lists all
    the matches. *)
Theorem reported_errors (h : Host) (cfg : Config) (d : DepsOrderResolver)
    (from : label.Label) (modules : list PyModule) (f : string)
    (errs : list ResolveError) :
  ValidationFailed f errs ∈ log (importLoop h cfg d (Some modules) from) →
  f = fromString h from ∧ errs ≠ []
  ∧ ∃ m, m ∈ modules
         ∧ ∀ e, e ∈ errs →
                errorName e ∈ candidatesOf cfg from m ∧ describesError h cfg from m e.
Proof.
  intros Hlog. apply importLoop_reports in Hlog as (Hf & Hne & m & Hm & Hall).
  split; [done|]. split; [done|]. exists m. split; [done|].
  by apply Forall_forall.
Qed.

Lemma explanation_logged_witness :
  ":foundation" ∈ deps (importLoop Further.explaining (Sample.cfg true) NewDepsOrderResolver
                          (Some [Sample.import "foundation" false])
                          (Sample.unit "middleware"))
                  ∪ pyiDeps (importLoop Further.explaining (Sample.cfg true)
                               NewDepsOrderResolver
                               (Some [Sample.import "foundation" false])
                               (Sample.unit "middleware")).
Proof.
  apply (explanation_logged Further.explaining (Sample.cfg true) NewDepsOrderResolver
           (Sample.unit "middleware") [Sample.import "foundation" false]
           ByIndex ":foundation" "//app:middleware" "app/source.py" "foundation" 1).
  apply list_elem_of_In. vm_compute. tauto.
Defined.

Lemma reported_errors_witness :
  ∃ m, m ∈ [Sample.import "pkg.missing" false]
       ∧ ∀ e, e ∈ [UnresolvedImport "app/source.py" 1 "pkg.missing";
                   UnresolvedImport "app/source.py" 1 "pkg"] →
              errorName e ∈ candidatesOf (Sample.cfg true) (Sample.unit "middleware") m
              ∧ describesError Sample.h (Sample.cfg true) (Sample.unit "middleware") m e.
Proof.
  apply (reported_errors Sample.h (Sample.cfg true) NewDepsOrderResolver
           (Sample.unit "middleware") [Sample.import "pkg.missing" false]
           "//app:middleware"
           [UnresolvedImport "app/source.py" 1 "pkg.missing";
            UnresolvedImport "app/source.py" 1 "pkg"]).
  apply list_elem_of_In. vm_compute. tauto.
Defined.

(** ** Where the members of the output sets come from *)

Lemma stubTargets_elem (cfg : Config) (modules : list string) (x : string) :
  x ∈ stubTargets cfg modules
  ↔ ∃ module stubDistribution,
      module ∈ modules ∧ FindThirdPartyDependency cfg module = Some (x, stubDistribution).
Proof.
  unfold stubTargets. rewrite list_elem_of_omap. split.
  - intros (module & Hin & Hfind). apply fmap_Some in Hfind as ([dep dist] & Hfind & ->).
    by exists module, dist.
  - intros (module & dist & Hin & Hfind). exists module. by rewrite Hfind.
Qed.

Lemma Equal_components (l l' : label.Label) :
  label.Repo l = label.Repo l' → label.Pkg l = label.Pkg l' →
  label.Name l = label.Name l' → label.Relative l = label.Relative l' →
  label.Equal l l' = true.
Proof.
  intros Hrepo Hpkg Hname Hrel. unfold label.Equal.
  rewrite Hrepo, Hpkg, Hname, Hrel, !String.eqb_refl. by destruct (label.Relative l').
Qed.

Section Provenance.

Variable h : Host.
Variable cfg : Config.
Variable from : label.Label.

Lemma describes_obtained (m : PyModule) (names : list string) (a : Action) (x : string) :
  describes h cfg from m a → namedIn names a → x ∈ (callsOf m a).*1 →
  ∃ moduleName, moduleName ∈ names ∧ obtainedFor h cfg from moduleName x.
Proof.
  destruct a as [| |how moduleName dep stubs paths|errs]; cbn [callsOf namedIn];
    try (intros _ _ Hin; by apply elem_of_nil in Hin).
  intros Ha Hname Hin. exists moduleName. split; [done|].
  rewrite fmap_cons, elem_of_cons in Hin. cbn [fst] in Hin.
  assert (Hstub : x ∈ (map (λ s : string, (s, true)) stubs).*1 → x ∈ stubs).
  { intros Hx. apply list_elem_of_fmap in Hx as ([s b] & -> & Hx).
    apply list_elem_of_fmap in Hx as (s' & Heq & Hx). by injection Heq as -> _. }
  destruct how; cbn [describes] in Ha.
  - destruct Ha as ((override & Hfind & Hne & Hdep) & -> & _). left.
    destruct Hin as [->|Hin].
    + by exists override.
    + apply Hstub in Hin. by apply elem_of_nil in Hin.
  - destruct Ha as ((dist & Hfind & ->) & _). right. left. exists dep, dist.
    split; [done|]. destruct Hin as [->|Hin]; [by left|].
    right. by apply stubTargets_elem, Hstub.
  - destruct Ha as ((m0 & Hm0 & Hdep & _) & Hself & _ & _ & ->). right. right.
    destruct Hin as [->|Hin].
    + exists m0. split; [done|]. split; [|done].
      by apply (proj1 (Forall_forall _ _) Hself).
    + apply Hstub in Hin. by apply elem_of_nil in Hin.
Qed.

Lemma resolveModules_obtained (ms : list PyModule) (st : Loop) (x : string) :
  x ∈ deps (resolveModules h cfg from ms st) ∪ pyiDeps (resolveModules h cfg from ms st) →
  x ∈ deps st ∪ pyiDeps st
  ∨ ∃ m moduleName, m ∈ ms ∧ moduleName ∈ candidatesOf cfg from m
                    ∧ obtainedFor h cfg from moduleName x.
Proof.
  apply (resolveModules_named_actions h cfg from
           (λ st', x ∈ deps st' ∪ pyiDeps st' →
                   x ∈ deps st ∪ pyiDeps st
                   ∨ ∃ m moduleName, m ∈ ms ∧ moduleName ∈ candidatesOf cfg from m
                                     ∧ obtainedFor h cfg from moduleName x)).
  - by left.
  - intros m a st' Hm Ha Hnamed IH Hx.
    apply applyAction_union in Hx as [Hx|Hx]; [by apply IH|].
    right. destruct (describes_obtained m _ a x Ha Hnamed Hx) as (moduleName & Hin & Hob).
    by exists m, moduleName.
Qed.

Lemma importLoop_obtained (d : DepsOrderResolver) (modulesRaw : option (list PyModule))
    (x : string) :
  x ∈ deps (importLoop h cfg d modulesRaw from) ∪ pyiDeps (importLoop h cfg d modulesRaw from) →
  ∃ modules m moduleName,
    modulesRaw = Some modules ∧ m ∈ modules ∧ moduleName ∈ candidatesOf cfg from m
    ∧ obtainedFor h cfg from moduleName x.
Proof.
  pose proof (not_elem_of_empty (C := gset string) x) as Hempty.
  unfold importLoop. destruct modulesRaw as [modules|].
  - intros [Hx|(m & moduleName & Hrest)]%resolveModules_obtained.
    + cbn [deps pyiDeps] in Hx. apply elem_of_union in Hx. tauto.
    + by exists modules, m, moduleName.
  - cbn [deps pyiDeps]. intros Hx. apply elem_of_union in Hx. tauto.
Qed.

(** No candidate name obtains the unit's own label. *)
Lemma obtainedFor_own (moduleName : string) :
  absoluteLabels h from → rendersOnlyUnit h from →
  externalManifest cfg (ownLabel h from) →
  ¬ obtainedFor h cfg from moduleName (ownLabel h from).
Proof.
  intros (Hfrom & Hindex & Hoverride) Hrender Hmanifest
    [(override & Hfind & Hne & Hown)|[(dep & dist & Hfind & Hown)|(m & Hm & Hself & Hown)]].
  - assert (Hrel : label.Relative (defaultRepo from override) = false).
    { unfold defaultRepo. destruct (String.eqb (label.Repo override) "");
        by rewrite <- (Hoverride _ _ Hfind). }
    assert (Hrel' : label.Relative (elideRepo from (defaultRepo from override)) = false).
    { unfold elideRepo.
      by destruct (String.eqb (label.Repo (defaultRepo from override)) (label.Repo from)). }
    destruct (Hrender _ Hrel' (eq_sym Hown)) as (Hrepo & Hpkg & Hname).
    assert (Hsame : label.Equal (defaultRepo from override) from = true); [|congruence].
    revert Hrepo Hpkg Hname. unfold elideRepo.
    destruct (String.eqb (label.Repo (defaultRepo from override)) (label.Repo from))
      eqn:Heq; cbn [label.withRepo label.Repo label.Pkg label.Name]; intros Hrepo Hpkg Hname.
    + apply String.eqb_eq in Heq. apply Equal_components; congruence.
    + apply Equal_components; congruence.
  - destruct Hown as [<-|(module & stubDist & _ & Hstub)].
    + by apply (Hmanifest moduleName dist).
    + by apply (Hmanifest module stubDist).
  - assert (Hrel : label.Relative (Label m) = false) by by eapply Hindex.
    destruct (Hrender _ Hrel (eq_sym Hown)) as (Hrepo & Hpkg & Hname).
    unfold IsSelfImport in Hself. apply orb_false_elim in Hself as [Hself _].
    assert (Hsame : label.Equal from (Label m) = true); [|congruence].
    apply Equal_components; congruence.
Qed.

End Provenance.

(** The sample host writes only the unit's own label as the unit's. *)
Lemma Sample_rendersOnlyUnit (name : string) :
  rendersOnlyUnit Sample.h (Sample.unit name).
Proof.
  intros [repo pkg n rel]. cbn. intros -> Hown.
  unfold Sample.rel, Sample.render in Hown. cbn in Hown.
  destruct (String.eqb repo "") eqn:Hrepo; cbn in Hown.
  - apply String.eqb_eq in Hrepo.
    destruct (String.eqb pkg "app") eqn:Hpkg; cbn in Hown.
    + apply String.eqb_eq in Hpkg. injection Hown as Hn. by subst.
    + done.
  - rewrite Hrepo in Hown. done.
Qed.

Lemma Sample_absoluteLabels (name : string) :
  absoluteLabels Sample.h (Sample.unit name).
Proof.
  split; [done|]. split; [|done]. intros moduleName m. cbn. unfold Sample.index.
  destruct (String.eqb moduleName "foundation" || String.eqb moduleName "middleware"
            || String.eqb moduleName "application").
  - by intros ->%list_elem_of_singleton.
  - intros Hin. by apply elem_of_nil in Hin.
Qed.

(** C5. For a call of [Resolve] that returns, every member of the three
    output sets is one of the pre-resolved names of the rule, or a target
    obtained for a candidate name of one of the import records of the unit:
    the label of an override that is not the unit, a target of the
    third-party manifest (for the name or for a stub package of its
    distribution), or a match of the rule index that is not the unit and does
    not embed it.  So, with absolute labels in the index and the override
    table, a rendering that writes only the unit's label as the unit's, and a
    manifest that does not name the unit, the unit's own label is a member of
    an output set only when it is one of the pre-resolved names. *)
Theorem output_targets (h : Host) (cfg : Config) (d d' : DepsOrderResolver)
    (fs : OpenResult) (r r' : Rule) (modulesRaw : option (list PyModule))
    (from : label.Label) (lg : list LogEntry) (x : string) :
  fresh r →
  Resolve h cfg d fs r modulesRaw from = Return r' d' lg →
  x ∈ attrSet r' "deps" ∪ attrSet r' "pyi_deps" ∪ attrSet r' "deps_to_remove" →
  (x ∈ resolvedDeps r
   ∨ ∃ modules m moduleName,
       modulesRaw = Some modules ∧ m ∈ modules
       ∧ moduleName ∈ candidatesOf cfg from m
       ∧ obtainedFor h cfg from moduleName x)
  ∧ (absoluteLabels h from → rendersOnlyUnit h from →
     externalManifest cfg (ownLabel h from) →
     x = ownLabel h from → x ∈ resolvedDeps r).
Proof.
  intros Hfresh Hres Hx. apply Resolve_Return in Hres as (_ & _ & ->).
  pose proof (importLoop_obtained h cfg from d modulesRaw x) as Hloop.
  destruct (writeAttrs_attrs cfg d' (map (filepath_Join h (label.Pkg from)) (srcs r)) r
              (addResolvedDeps r (deps (importLoop h cfg d modulesRaw from)))
              (pyiDeps (importLoop h cfg d modulesRaw from)) Hfresh)
    as (Hdeps & Hpyi & Hremove).
  rewrite Hdeps, Hpyi, Hremove in Hx.
  assert (Hall : x ∈ resolvedDeps r
                 ∨ x ∈ deps (importLoop h cfg d modulesRaw from)
                       ∪ pyiDeps (importLoop h cfg d modulesRaw from)).
  { pose proof (not_elem_of_empty (C := gset string) x) as Hempty.
    rewrite !elem_of_union, createDepsToRemove_elem in Hx. rewrite elem_of_union.
    destruct (GeneratePyiDeps cfg);
      rewrite ?elem_of_union, ?addResolvedDeps_elem in Hx; tauto. }
  assert (Hfrom : x ∈ resolvedDeps r
                  ∨ ∃ modules m moduleName,
                      modulesRaw = Some modules ∧ m ∈ modules
                      ∧ moduleName ∈ candidatesOf cfg from m
                      ∧ obtainedFor h cfg from moduleName x).
  { destruct Hall as [?|Hin]; [by left|]. right. by apply Hloop. }
  split; [done|]. intros Habs Hrender Hmanifest ->.
  destruct Hfrom as [?|(modules & m & moduleName & _ & _ & _ & Hob)]; [done|].
  by apply (obtainedFor_own h cfg from moduleName) in Hob.
Qed.

Lemma output_targets_witness :
  (":middleware" ∈ resolvedDeps (Sample.rule "foundation" ∅)
   ∨ ∃ modules m moduleName,
       Some [Sample.import "middleware" false] = Some modules ∧ m ∈ modules
       ∧ moduleName ∈ candidatesOf (Sample.cfg true) (Sample.unit "foundation") m
       ∧ obtainedFor Sample.h (Sample.cfg true) (Sample.unit "foundation") moduleName
           ":middleware")
  ∧ ownLabel Sample.h (Sample.unit "foundation")
    ∈ resolvedDeps (Sample.rule "foundation" {[":foundation"]}).
Proof.
  split.
  - apply (output_targets Sample.h (Sample.cfg true) NewDepsOrderResolver
             (Sample.resolverOf Sample.foundation) Sample.layers
             (Sample.rule "foundation" ∅) (Sample.ruleOf Sample.foundation)
             (Some [Sample.import "middleware" false]) (Sample.unit "foundation")
             (Sample.logOf Sample.foundation) ":middleware").
    + by vm_compute.
    + vm_compute. reflexivity.
    + by vm_compute.
  - apply (output_targets Sample.h (Sample.cfg true) NewDepsOrderResolver
             (Sample.resolverOf Sample.selfListed) Sample.layers
             (Sample.rule "foundation" {[":foundation"]}) (Sample.ruleOf Sample.selfListed)
             (Some []) (Sample.unit "foundation") (Sample.logOf Sample.selfListed)
             (ownLabel Sample.h (Sample.unit "foundation"))).
    + by vm_compute.
    + vm_compute. reflexivity.
    + by vm_compute.
    + apply Sample_absoluteLabels.
    + apply Sample_rendersOnlyUnit.
    + intros moduleName distributionName. done.
    + reflexivity.
Defined.

(** X9. With validation off, in a repository whose rule index has at most
    one match for every name, [Resolve] returns whatever the unit imports:
    nothing is reported. *)
Theorem unambiguous_returns (h : Host) (cfg : Config) (d : DepsOrderResolver)
    (fs : OpenResult) (r : Rule) (modulesRaw : option (list PyModule))
    (from : label.Label) :
  ValidateImportStatements cfg = false →
  (∀ name, (length (FindRulesByImportWithConfig h name) ≤ 1)%nat) →
  hasFatalError (importLoop h cfg d modulesRaw from) = false
  ∧ ∃ r' d' lg, Resolve h cfg d fs r modulesRaw from = Return r' d' lg.
Proof.
  intros Hoff Hone.
  assert (Hfatal : hasFatalError (importLoop h cfg d modulesRaw from) = false).
  { rewrite importLoop_fatal.
    destruct (existsb isValidationFailed (log (importLoop h cfg d modulesRaw from)))
      eqn:Hex; [|done].
    apply existsb_exists in Hex as (entry & Hin & Hentry).
    destruct entry as [| |f errs|]; try done. apply list_elem_of_In in Hin.
    destruct modulesRaw as [modules|]; [|by apply elem_of_nil in Hin].
    apply importLoop_reports in Hin as (_ & Hne & m & _ & Hall).
    destruct errs as [|e errs]; [done|]. apply Forall_cons in Hall as [[_ He] _].
    destruct e as [filepath line name|filepath line targets name]; simpl in He.
    - destruct He as (_ & _ & Hon & _). congruence.
    - destruct He as (_ & _ & _ & _ & _ & Htwo & _). specialize (Hone name). lia. }
  split; [done|]. unfold Resolve. cbn zeta. rewrite Hfatal.
  destruct (LoadDepsOrder h (resolver (importLoop h cfg d modulesRaw from)) fs).
  by do 3 eexists.
Qed.

Lemma unambiguous_returns_witness :
  ∃ r' d' lg,
    Resolve Sample.h Further.cfg NewDepsOrderResolver Sample.layers
      (Sample.rule "middleware" ∅)
      (Some [Sample.import "missing_one" false; Sample.import "foundation" false])
      (Sample.unit "middleware")
    = Return r' d' lg.
Proof.
  apply (unambiguous_returns Sample.h Further.cfg NewDepsOrderResolver Sample.layers
           (Sample.rule "middleware" ∅)
           (Some [Sample.import "missing_one" false; Sample.import "foundation" false])
           (Sample.unit "middleware")).
  - reflexivity.
  - intros name. simpl. unfold Sample.index.
    destruct (String.eqb name "foundation" || String.eqb name "middleware"
              || String.eqb name "application"); simpl; lia.
Defined.

(** ** Records that are dropped, and the sources recorded for a target *)

Lemma possibleModulesOf_head (moduleName : string) :
  ∃ rest, possibleModulesOf moduleName = moduleName :: rest.
Proof. unfold possibleModulesOf. rewrite possibleLoop_spec. by eexists. Qed.

Lemma Contains_lastSep (s : string) (sep : ascii) :
  strings.Contains s sep = false → lastSep s sep = None.
Proof.
  induction s as [|c s IH]; simpl; [done|].
  intros [Hc Hs]%orb_false_elim. by rewrite (IH Hs), Hc.
Qed.

Lemma depSrcsPathsOf_last (h : Host) (moduleName : string) (m : FindResult) :
  depSrcsPathsOf h moduleName m
  = [filepath_Join h (label.Pkg (Label m))
       (default "" (last (segments moduleName)) +:+ ".py")].
Proof.
  unfold depSrcsPathsOf, segments.
  destruct (strings.Contains moduleName dot) eqn:Hdot; [done|].
  by rewrite (Split_no_sep _ _ (Contains_lastSep _ _ Hdot)).
Qed.

(** X10. An import of a name that the unit itself provides, or of a standard
    module that nothing in the index provides, leaves every variable of
    [Resolve] as it is: no dependency, no error and no log entry, also with
    validation on and also when the index has further matches for the
    name. *)
Theorem dropped_import (h : Host) (cfg : Config) (from : label.Label) (st : Loop)
    (m : PyModule) :
  isRelative m = false →
  FindRuleWithOverride h (Name m) = None →
  FindThirdPartyDependency cfg (Name m) = None →
  existsb (λ r, IsSelfImport r from) (FindRulesByImportWithConfig h (Name m)) = true
  ∨ (FindRulesByImportWithConfig h (Name m) = [] ∧ isStdModule h (Name m) = true) →
  resolveModule h cfg from st m = st.
Proof.
  intros Hrel Hover Hthird Hcase. unfold resolveModule.
  unfold isRelative in Hrel. rewrite Hrel.
  destruct (possibleModulesOf_head (Name m)) as [rest ->].
  cbn [resolveCandidates]. unfold resolveCandidate. rewrite Hover, Hthird.
  destruct Hcase as [Hself|[Hnone Hstd]].
  - destruct (FindRulesByImportWithConfig h (Name m)) as [|r rs] eqn:Hmatches; [done|].
    unfold len. cbn [length]. 
    replace (Z.of_nat (S (length rs)) =? 0) with false
      by (symmetry; apply Z.eqb_neq; lia).
    unfold resolveFromIndex. by rewrite filterSelf_self.
  - rewrite Hnone. cbn. by rewrite Hstd.
Qed.

Lemma dropped_import_witness :
  resolveModule Sample.h (Sample.cfg true) (Sample.unit "foundation") Sample.start
    (Sample.import "foundation" false)
  = Sample.start.
Proof.
  apply (dropped_import Sample.h (Sample.cfg true) (Sample.unit "foundation")
           Sample.start (Sample.import "foundation" false)).
  - reflexivity.
  - reflexivity.
  - reflexivity.
  - left. reflexivity.
Defined.

Section Sources.

Variable h : Host.
Variable cfg : Config.
Variable from : label.Label.

Lemma resolveModules_sources (d : DepsOrderResolver) (ms : list PyModule) (st : Loop) :
  let recorded := λ st' : Loop,
    ∀ x, importToSrcs (resolver st') !! x = importToSrcs d !! x
         ∨ ∃ name m,
             m ∈ FindRulesByImportWithConfig h name
             ∧ x = label_String h
                     (label_Rel h (Label m) (label.Repo from) (label.Pkg from))
             ∧ x ∈ deps st' ∪ pyiDeps st'
             ∧ importToSrcs (resolver st') !! x = Some (depSrcsPathsOf h name m) in
  recorded st → recorded (resolveModules h cfg from ms st).
Proof.
  intros recorded Hst. apply resolveModules_actions; [done|].
  intros m a st' _ Ha IH x.
  assert (Hold : resolver (applyAction h from m a st') = resolver st' →
    importToSrcs (resolver (applyAction h from m a st')) !! x = importToSrcs d !! x
    ∨ ∃ name m0,
        m0 ∈ FindRulesByImportWithConfig h name
        ∧ x = label_String h (label_Rel h (Label m0) (label.Repo from) (label.Pkg from))
        ∧ x ∈ deps (applyAction h from m a st') ∪ pyiDeps (applyAction h from m a st')
        ∧ importToSrcs (resolver (applyAction h from m a st')) !! x
          = Some (depSrcsPathsOf h name m0)).
  { intros ->. destruct (IH x) as [Hsame|(name & m0 & Hin & Hx & Hun & Hsrc)]; [by left|].
    right. exists name, m0. repeat split; try done. apply applyAction_union. by left. }
  destruct a as [| |how name dep stubs paths|errs]; try (by apply Hold).
  destruct paths as [srcs|]; [|apply Hold; cbn; by rewrite resolver_eta].
  destruct how; cbn [describes] in Ha.
  - by destruct Ha as (_ & _ & ?).
  - by destruct Ha as (_ & _ & ?).
  - destruct Ha as ((m0 & Hin & Hdep & Hpaths) & _). injection Hpaths as ->.
    destruct (decide (x = dep)) as [Hx|Hx].
    + right. exists name, m0. split; [done|]. split; [congruence|]. split.
      * apply applyAction_union. right. cbn [callsOf fmap list_fmap fst].
        apply elem_of_cons. by left.
      * cbn. rewrite Hx. apply lookup_insert_eq.
    + assert (Hsame : importToSrcs
                        (resolver (applyAction h from m
                                     (Resolved ByIndex name dep stubs
                                        (Some (depSrcsPathsOf h name m0))) st')) !! x
                      = importToSrcs (resolver st') !! x).
      { cbn. by rewrite lookup_insert_ne. }
      rewrite Hsame.
      destruct (IH x) as [Hsame'|(name' & m' & Hin' & Hx' & Hun & Hsrc)]; [by left|].
      right. exists name', m'. repeat split; try done. apply applyAction_union. by left.
Qed.

End Sources.

(** X11. The loop over the import records records sources only for targets
    it resolved through the rule index, and each of them is in one of the two
    sets of the unit: for every other label the map [importToSrcs] is as
    before the call.  The sources recorded for such a target are one guessed
    path: the package of the matched rule joined with the last dotted
    segment of the candidate name and [.py]. *)
Theorem recorded_sources (h : Host) (cfg : Config) (d : DepsOrderResolver)
    (from : label.Label) (modules : list PyModule) (x : string) :
  let st := importLoop h cfg d (Some modules) from in
  importToSrcs (resolver st) !! x = importToSrcs d !! x
  ∨ ∃ name m,
      m ∈ FindRulesByImportWithConfig h name
      ∧ x = label_String h (label_Rel h (Label m) (label.Repo from) (label.Pkg from))
      ∧ x ∈ deps st ∪ pyiDeps st
      ∧ importToSrcs (resolver st) !! x
        = Some [filepath_Join h (label.Pkg (Label m))
                  (default "" (last (segments name)) +:+ ".py")].
Proof.
  intros st.
  destruct (resolveModules_sources h cfg from d modules (mkLoop ∅ ∅ d false [])
              (λ x, or_introl eq_refl) x) as [Hsame|(name & m & Hin & Hx & Hun & Hsrc)].
  - by left.
  - right. exists name, m. rewrite <- depSrcsPathsOf_last. done.
Qed.

(** ** The order of the ranks *)

Ltac compare_cases :=
  unfold Pos.compare in *;
  repeat match goal with
         | H : context [Z.compare ?a ?b] |- _ => destruct (Z.compare_spec a b)
         | H : context [Pos.compare_cont Eq ?a ?b] |- _ =>
             change (Pos.compare_cont Eq a b) with (Pos.compare a b) in *;
             destruct (Pos.compare_spec a b)
         | |- context [Z.compare ?a ?b] => destruct (Z.compare_spec a b)
         | |- context [Pos.compare_cont Eq ?a ?b] =>
             change (Pos.compare_cont Eq a b) with (Pos.compare a b) in *;
             destruct (Pos.compare_spec a b)
         end;
  simpl in *; try done; try lia.

Lemma SFcompare_irrefl (x : spec_float) : SFcompare x x ≠ Some Lt.
Proof.
  destruct x as [s|s| |s m e]; simpl; try done.
  - by destruct s.
  - destruct s; compare_cases.
Qed.

Lemma SFcompare_asym (x y : spec_float) :
  SFcompare x y = Some Lt → SFcompare y x = Some Gt.
Proof.
  destruct x as [sx|sx| |sx mx ex], y as [sy|sy| |sy my ey]; simpl; try done;
    try (destruct sx; done); try (destruct sy; done);
    try (destruct sx, sy; done).
  destruct sx, sy; try done; intros H; compare_cases.
Qed.

Lemma SFcompare_trans (x y z : spec_float) :
  SFcompare x y = Some Lt → SFcompare y z = Some Lt → SFcompare x z = Some Lt.
Proof.
  destruct x as [sx|sx| |sx mx ex], y as [sy|sy| |sy my ey], z as [sz|sz| |sz mz ez];
    simpl; try done;
    try (destruct sx; done); try (destruct sy; done); try (destruct sz; done);
    try (destruct sx, sy; done); try (destruct sy, sz; done); try (destruct sx, sz; done);
    try (destruct sx, sy, sz; done).
  destruct sx, sy, sz; try done; intros H1 H2; compare_cases.
Qed.

Lemma ltb_Lt (x y : float) :
  (x <? y)%float = true ↔ SFcompare (Prim2SF x) (Prim2SF y) = Some Lt.
Proof.
  rewrite ltb_spec. unfold SFltb.
  destruct (SFcompare (Prim2SF x) (Prim2SF y)) as [[]|]; split; congruence.
Qed.

Lemma ltb_irrefl (x : float) : (x <? x)%float = false.
Proof.
  destruct (x <? x)%float eqn:E; [|done].
  apply ltb_Lt in E. by apply SFcompare_irrefl in E.
Qed.

Lemma ltb_asym (x y : float) : (x <? y)%float = true → (y <? x)%float = false.
Proof.
  intros Hxy%ltb_Lt%SFcompare_asym.
  destruct (y <? x)%float eqn:E; [|done]. apply ltb_Lt in E. congruence.
Qed.

Lemma ltb_trans (x y z : float) :
  (x <? y)%float = true → (y <? z)%float = true → (x <? z)%float = true.
Proof. rewrite !ltb_Lt. apply SFcompare_trans. Qed.

(** X12. Under one order table, the comparison that flags a dependency for
    removal is a strict order on lists of sources: it never holds between a
    list and itself, it never holds in both directions, and it is
    transitive.  (This is about the two lists handed to the comparison, not
    about the edges between units.) *)
Theorem ShouldAddToDepsToRemove_strict (d : DepsOrderResolver)
    (a b c : list string) :
  ShouldAddToDepsToRemove d a a = false
  ∧ (ShouldAddToDepsToRemove d a b = true → ShouldAddToDepsToRemove d b a = false)
  ∧ (ShouldAddToDepsToRemove d a b = true → ShouldAddToDepsToRemove d b c = true →
     ShouldAddToDepsToRemove d a c = true).
Proof.
  unfold ShouldAddToDepsToRemove. destruct (len_map (fileToIndex d) =? 0); [done|].
  cbn zeta. split; [apply ltb_irrefl|]. split; [apply ltb_asym|apply ltb_trans].
Qed.

Lemma ShouldAddToDepsToRemove_strict_witness :
  ShouldAddToDepsToRemove Sample.ordered ["top.py"] ["foo.py"] = false
  ∧ ShouldAddToDepsToRemove Sample.ordered ["foo.py"] ["top.py"] = true.
Proof.
  split.
  - apply (proj1 (proj2 (ShouldAddToDepsToRemove_strict Sample.ordered
                           ["foo.py"] ["top.py"] []))).
    by vm_compute.
  - apply (proj2 (proj2 (ShouldAddToDepsToRemove_strict Sample.ordered
                           ["foo.py"] ["pkg/lib.py"] ["top.py"]))); by vm_compute.
Defined.

(** X13. The rank of a list of sources depends only on the ranks of those
    of its sources that the table lists, taken as a multiset: neither the
    order of the sources nor sources that the table does not list change
    it. *)
Theorem GetAverageIndex_found (d : DepsOrderResolver) (srcs srcs' : list string) :
  foundRanks (fileToIndex d) srcs ≡ₚ foundRanks (fileToIndex d) srcs' →
  GetAverageIndex d srcs = GetAverageIndex d srcs'.
Proof.
  intros Hperm. unfold GetAverageIndex.
  destruct (len_map (fileToIndex d) =? 0); [done|].
  change (sumIndexes (fileToIndex d) srcs 0 0)
    with (sumIndexes (fileToIndex d) srcs (wrap64 0) 0).
  change (sumIndexes (fileToIndex d) srcs' 0 0)
    with (sumIndexes (fileToIndex d) srcs' (wrap64 0) 0).
  rewrite !sumIndexes_spec.
  assert (Hsum : sumZ (foundRanks (fileToIndex d) srcs)
                 = sumZ (foundRanks (fileToIndex d) srcs')).
  { unfold sumZ. induction Hperm as [|x l l' _ IH|x y l|l1 l2 l3 _ IH1 _ IH2]; simpl; lia. }
  assert (Hlen : len (foundRanks (fileToIndex d) srcs)
                 = len (foundRanks (fileToIndex d) srcs')).
  { unfold len. by rewrite (Permutation_length Hperm). }
  by rewrite Hsum, Hlen.
Qed.

Lemma GetAverageIndex_found_witness :
  GetAverageIndex Sample.ordered ["pkg/lib.py"; "other/missing.py"; "foo.py"]
  = GetAverageIndex Sample.ordered ["other/foo.py"; "pkg/lib.py"].
Proof.
  apply (GetAverageIndex_found Sample.ordered
           ["pkg/lib.py"; "other/missing.py"; "foo.py"] ["other/foo.py"; "pkg/lib.py"]).
  assert (H1 : foundRanks (fileToIndex Sample.ordered)
                 ["pkg/lib.py"; "other/missing.py"; "foo.py"] = [3; 1]) by by vm_compute.
  assert (H2 : foundRanks (fileToIndex Sample.ordered) ["other/foo.py"; "pkg/lib.py"]
               = [1; 3]) by by vm_compute.
  rewrite H1, H2. apply perm_swap.
Defined.

(** ** Loading the order file again *)

Lemma scanLoop_kept (h : Host) (lines lines' : list string) (tbl : gmap string Z) (i : Z) :
  keptLines h lines = keptLines h lines' →
  scanLoop h lines tbl i = scanLoop h lines' tbl i.
Proof.
  intros Hkept. apply injective_projections.
  - apply map_eq. intros k. by rewrite !scanLoop_lookup, Hkept.
  - by rewrite !scanLoop_index, Hkept.
Qed.

(** X14. What a load makes of the order file depends only on its kept
    lines (trimmed, neither blank nor comments).  An unloaded resolver takes
    the ranks of the lines that are read and keeps the entries it had for
    every other file, also when the scanner fails, in which case it stays
    unloaded; so a load that follows a failed one merges the two readings.
    No load changes the sources recorded for the targets. *)
Theorem LoadDepsOrder_merge (h : Host) (d : DepsOrderResolver) (lines : list string)
    (scanErr : option string) :
  let d' := (LoadDepsOrder h d (Opened lines scanErr)).1 in
  (∀ lines', keptLines h lines = keptLines h lines' →
             LoadDepsOrder h d (Opened lines scanErr)
             = LoadDepsOrder h d (Opened lines' scanErr))
  ∧ importToSrcs d' = importToSrcs d
  ∧ (if loaded d then d' = d
     else loaded d' = bool_decide (scanErr = None)
          ∧ ∀ k, fileToIndex d' !! k
                 = match lastIndexOf k (keptLines h lines) with
                   | Some j => Some (Z.of_nat j)
                   | None => fileToIndex d !! k
                   end).
Proof.
  intros d'. unfold d', LoadDepsOrder. destruct (loaded d) eqn:Hl.
  - done.
  - split; [|split].
    + intros lines' Hkept. by rewrite (scanLoop_kept h lines lines' _ _ Hkept).
    + by destruct scanErr.
    + split; [by destruct scanErr|]. intros k.
      assert (Htbl : fileToIndex
                       (match scanErr with
                        | Some err =>
                            (mkDepsOrderResolver (scanLoop h lines (fileToIndex d) 0).1 false
                               (importToSrcs d),
                             Some ("failed to read " +:+ depsOrderFilename +:+ ": " +:+ err))
                        | None =>
                            (mkDepsOrderResolver (scanLoop h lines (fileToIndex d) 0).1 true
                               (importToSrcs d), None)
                        end).1
                     = (scanLoop h lines (fileToIndex d) 0).1) by by destruct scanErr.
      rewrite Htbl, scanLoop_lookup. by destruct (lastIndexOf k (keptLines h lines)).
Qed.

(** X15. Once the resolver is loaded, a call of [Resolve] does not depend
    on the order file any more: whatever the file system answers, the call
    ends in the same way, and when it returns the resolver has the table it
    had, is still loaded, and nothing about the file is logged. *)
Theorem Resolve_loaded (h : Host) (cfg : Config) (d : DepsOrderResolver)
    (fs fs' : OpenResult) (r : Rule) (modulesRaw : option (list PyModule))
    (from : label.Label) :
  loaded d = true →
  Resolve h cfg d fs r modulesRaw from = Resolve h cfg d fs' r modulesRaw from
  ∧ ∀ r' d' lg, Resolve h cfg d fs r modulesRaw from = Return r' d' lg →
                fileToIndex d' = fileToIndex d ∧ loaded d' = true
                ∧ lg = log (importLoop h cfg d modulesRaw from).
Proof.
  intros Hl. destruct (importLoop_table h cfg from d modulesRaw) as [Htbl Hloaded].
  rewrite Hl in Hloaded. unfold Resolve. cbn zeta.
  rewrite !(LoadDepsOrder_loaded h _ _ Hloaded). split; [done|].
  intros r' d' lg. destruct (hasFatalError (importLoop h cfg d modulesRaw from)); [done|].
  intros [= _ <- <-]. done.
Qed.

Lemma Resolve_loaded_witness :
  Resolve Sample.h (Sample.cfg true) Sample.ordered NotExist (Sample.rule "middleware" ∅)
    (Some [Sample.import "foundation" false]) (Sample.unit "middleware")
  = Resolve Sample.h (Sample.cfg true) Sample.ordered (OpenError "permission denied")
      (Sample.rule "middleware" ∅)
      (Some [Sample.import "foundation" false]) (Sample.unit "middleware").
Proof.
  apply (Resolve_loaded Sample.h (Sample.cfg true) Sample.ordered NotExist
           (OpenError "permission denied") (Sample.rule "middleware" ∅)
           (Some [Sample.import "foundation" false]) (Sample.unit "middleware")).
  reflexivity.
Defined.

(** ** The attributes that are written *)

Lemma SetAttr_lookup (r : Rule) (key key' : string) (value : gset string) :
  attrs (SetAttr r key value) !! key'
  = if decide (key = key') then Some value else attrs r !! key'.
Proof.
  unfold SetAttr. simpl. destruct (decide (key = key')) as [->|Hne].
  - by rewrite lookup_insert_eq.
  - by rewrite lookup_insert_ne.
Qed.

Lemma isEmpty_false (s : gset string) : isEmpty s = false → s ≠ ∅.
Proof. apply bool_decide_eq_false. Qed.

Lemma writeAttrs_frame (cfg : Config) (d : DepsOrderResolver) (current : list string)
    (r : Rule) (deps0 pyiDeps0 : gset string) (key : string) :
  let r' := writeAttrs cfg d current r deps0 pyiDeps0 in
  srcs r' = srcs r ∧ resolvedDeps r' = resolvedDeps r
  ∧ (attrs r' !! key = attrs r !! key
     ∨ (key = "deps" ∨ key = "deps_to_remove"
        ∨ (key = "pyi_deps" ∧ GeneratePyiDeps cfg = true))
       ∧ ∃ s, attrs r' !! key = Some s ∧ s ≠ ∅).
Proof.
  unfold writeAttrs. destruct (GeneratePyiDeps cfg).
  - destruct (isEmpty deps0) eqn:Ed, (isEmpty pyiDeps0) eqn:Ep; cbn [negb];
      try destruct (isEmpty (createDepsToRemove d current deps0)) eqn:Er; cbn [negb];
      (split; [done|]); (split; [done|]); rewrite ?SetAttr_lookup;
      try apply isEmpty_false in Ed; try apply isEmpty_false in Ep;
      try apply isEmpty_false in Er;
      repeat (let E := fresh "E" in destruct (decide (_ = key)) as [E|E];
              [right; split; [rewrite <- E; tauto|by eexists]|]);
      by left.
  - destruct (isEmpty (∅ ∪ deps0 ∪ pyiDeps0)) eqn:Ed; cbn [negb];
      try destruct (isEmpty (createDepsToRemove d current (∅ ∪ deps0 ∪ pyiDeps0))) eqn:Er;
      cbn [negb];
      (split; [done|]); (split; [done|]); rewrite ?SetAttr_lookup;
      try apply isEmpty_false in Ed; try apply isEmpty_false in Er;
      repeat (let E := fresh "E" in destruct (decide (_ = key)) as [E|E];
              [right; split; [rewrite <- E; tauto|by eexists]|]);
      by left.
Qed.

(** X16. A call of [Resolve] that returns leaves the sources and the
    pre-resolved names of the rule alone and writes at most the attributes
    [deps], [deps_to_remove] and, with separate emission only, [pyi_deps];
    it never writes an empty set: an attribute whose set would be empty
    keeps the value it had. *)
Theorem Resolve_writes (h : Host) (cfg : Config) (d d' : DepsOrderResolver)
    (fs : OpenResult) (r r' : Rule) (modulesRaw : option (list PyModule))
    (from : label.Label) (lg : list LogEntry) (key : string) :
  Resolve h cfg d fs r modulesRaw from = Return r' d' lg →
  srcs r' = srcs r ∧ resolvedDeps r' = resolvedDeps r
  ∧ (attrs r' !! key = attrs r !! key
     ∨ (key = "deps" ∨ key = "deps_to_remove"
        ∨ (key = "pyi_deps" ∧ GeneratePyiDeps cfg = true))
       ∧ ∃ s, attrs r' !! key = Some s ∧ s ≠ ∅).
Proof.
  intros Hres. apply Resolve_Return in Hres as (_ & _ & ->). apply writeAttrs_frame.
Qed.

Lemma Resolve_writes_witness :
  attrs (Sample.ruleOf (Sample.middleware false)) !! "pyi_deps"
  = attrs (Sample.rule "middleware" ∅) !! "pyi_deps"
  ∨ ("pyi_deps" = "deps" ∨ "pyi_deps" = "deps_to_remove"
     ∨ ("pyi_deps" = "pyi_deps" ∧ GeneratePyiDeps (Sample.cfg false) = true))
    ∧ ∃ s, attrs (Sample.ruleOf (Sample.middleware false)) !! "pyi_deps" = Some s ∧ s ≠ ∅.
Proof.
  apply (Resolve_writes Sample.h (Sample.cfg false) NewDepsOrderResolver
           (Sample.resolverOf (Sample.middleware false)) Sample.layers
           (Sample.rule "middleware" ∅) (Sample.ruleOf (Sample.middleware false))
           (Some [Sample.import "foundation" false; Sample.import "application" true])
           (Sample.unit "middleware") (Sample.logOf (Sample.middleware false)) "pyi_deps").
  by vm_compute.
Defined.

(** ** Relative imports that are not resolved *)

Lemma resolveModules_relative_off (h : Host) (cfg : Config) (from : label.Label)
    (modules : list PyModule) (st : Loop) :
  negb (ExperimentalAllowRelativeImports cfg) || negb (isPackageGeneration cfg) = true →
  resolveModules h cfg from modules st
  = resolveModules h cfg from (List.filter (λ m, negb (isRelative m)) modules) st.
Proof.
  intros Hoff. revert st. induction modules as [|m rest IH]; intros st; [done|].
  rewrite resolveModules_cons. cbn [List.filter].
  assert (Hm : isRelative m = strings.HasPrefix (From m) ".") by done. rewrite Hm.
  destruct (strings.HasPrefix (From m) ".") eqn:Hrel; cbn [negb].
  - assert (Hskip : resolveModule h cfg from st m = st).
    { unfold resolveModule. by rewrite Hrel, Hoff. }
    rewrite Hskip. apply IH.
  - rewrite resolveModules_cons. apply IH.
Qed.

(** X17. Unless relative imports are allowed and the unit is generated per
    package, the relative import records of a unit count for nothing: the
    call of [Resolve] ends as it does for the unit without them. *)
Theorem relative_imports_off (h : Host) (cfg : Config) (d : DepsOrderResolver)
    (fs : OpenResult) (r : Rule) (modules : list PyModule) (from : label.Label) :
  ExperimentalAllowRelativeImports cfg = false ∨ isPackageGeneration cfg = false →
  Resolve h cfg d fs r (Some modules) from
  = Resolve h cfg d fs r (Some (List.filter (λ m, negb (isRelative m)) modules)) from.
Proof.
  intros Hoff.
  assert (Hloop : importLoop h cfg d (Some modules) from
                  = importLoop h cfg d
                      (Some (List.filter (λ m, negb (isRelative m)) modules)) from).
  { unfold importLoop. apply resolveModules_relative_off.
    destruct Hoff as [-> | ->]; [done|apply orb_true_r]. }
  unfold Resolve. by rewrite Hloop.
Qed.

Lemma relative_imports_off_witness :
  Resolve Sample.h Further.perFile NewDepsOrderResolver Sample.layers
    (Sample.rule "middleware" ∅)
    (Some [Sample.relative; Sample.import "foundation" false]) (Sample.unit "middleware")
  = Resolve Sample.h Further.perFile NewDepsOrderResolver Sample.layers
      (Sample.rule "middleware" ∅)
      (Some (List.filter (λ m, negb (isRelative m))
               [Sample.relative; Sample.import "foundation" false]))
      (Sample.unit "middleware").
Proof.
  apply (relative_imports_off Sample.h Further.perFile NewDepsOrderResolver Sample.layers
           (Sample.rule "middleware" ∅)
           [Sample.relative; Sample.import "foundation" false] (Sample.unit "middleware")).
  right. reflexivity.
Defined.

(** ** The sources registered for the names a rule provides *)

Lemma register_lookup (srcs : list string) (importSpecs : list string)
    (m : gmap string (list string)) (imp : string) :
  foldl (λ m imp, <[imp := srcs]> m) m importSpecs !! imp
  = if decide (imp ∈ importSpecs) then Some srcs else m !! imp.
Proof.
  revert m. induction importSpecs as [|spec rest IH]; intros m.
  - simpl. destruct (decide (imp ∈ [])) as [Hin|_]; [by apply elem_of_nil in Hin|done].
  - simpl. rewrite IH.
    destruct (decide (imp ∈ rest)) as [Hin|Hout].
    + destruct (decide (imp ∈ spec :: rest)) as [_|Hno]; [done|].
      exfalso. apply Hno. by right.
    + destruct (decide (imp = spec)) as [->|Hne].
      * rewrite lookup_insert_eq.
        destruct (decide (spec ∈ spec :: rest)) as [_|Hno]; [done|].
        exfalso. apply Hno. by left.
      * rewrite lookup_insert_ne by done.
        destruct (decide (imp ∈ spec :: rest)) as [Hin|_]; [|done].
        apply elem_of_cons in Hin as [?|?]; done.
Qed.

(** X18. After [RegisterImportSources], [getSourcesForImport] answers, for
    each of the registered names, all the sources of the rule joined with the
    package path, whatever was registered for the name before; for every
    other name it answers as before (the empty list for a name never
    registered); the order table and the flag [loaded] are as before. *)
Theorem RegisterImportSources_lookup (h : Host) (d : DepsOrderResolver)
    (importSpecs : list string) (pkgPath : string) (srcs : list string)
    (imp : string) :
  let d' := RegisterImportSources h d importSpecs pkgPath srcs in
  getSourcesForImport d' imp
  = (if decide (imp ∈ importSpecs) then map (filepath_Join h pkgPath) srcs
     else getSourcesForImport d imp)
  ∧ getSourcesForImport NewDepsOrderResolver imp = []
  ∧ fileToIndex d' = fileToIndex d ∧ loaded d' = loaded d.
Proof.
  intros d'. split; [|done]. unfold d', getSourcesForImport, RegisterImportSources.
  cbn [importToSrcs]. rewrite register_lookup. by destruct (decide (imp ∈ importSpecs)).
Qed.

(** ** The names a rule provides *)

Section ProvidesFacts.

Variable h : Host.
Variable p : Package.

Lemma providesLoop_cons (cfg : Config) (pkg : string) (allSrcs : list string)
    (src : string) (rest provides : list string) :
  providesLoop h p cfg pkg allSrcs (src :: rest) provides
  = if indexable p cfg allSrcs src then
      match importSpecFromSrc h p (PythonProjectRoot cfg) pkg src with
      | None => None
      | Some provide => providesLoop h p cfg pkg allSrcs rest (provides ++ [provide])
      end
    else providesLoop h p cfg pkg allSrcs rest provides.
Proof.
  cbn [providesLoop]. unfold indexable.
  destruct (String.eqb (filepath_Ext src) ".py"); cbn [negb andb]; [|done].
  by destruct (PerFileGeneration cfg && (1 <? len allSrcs)
               && String.eqb src (pyLibraryEntrypointFilename p)).
Qed.

Lemma importSpecFromSrc_None (root pkg src : string) :
  importSpecFromSrc h p root pkg src = None
  ↔ filepath_Rel p root (filepath_Join h pkg (filepath_Dir p src)) = None.
Proof.
  unfold importSpecFromSrc.
  destruct (filepath_Rel p root (filepath_Join h pkg (filepath_Dir p src))) as [rel|];
    [|done].
  cbn zeta.
  destruct (String.eqb (filepath.Base src) (pyLibraryEntrypointFilename p)
            && negb (String.eqb
                       (strings_ReplaceAll (if String.eqb rel "." then "" else rel)
                          slash dot) "")); [done|].
  by destruct (String.eqb (strings_ReplaceAll (if String.eqb rel "." then "" else rel)
                             slash dot) "").
Qed.

Lemma providesLoop_None (cfg : Config) (pkg : string) (allSrcs srcs provides : list string) :
  providesLoop h p cfg pkg allSrcs srcs provides = None
  ↔ ∃ src, src ∈ srcs ∧ indexable p cfg allSrcs src = true
           ∧ importSpecFromSrc h p (PythonProjectRoot cfg) pkg src = None.
Proof.
  revert provides. induction srcs as [|src rest IH]; intros provides.
  - simpl. split; [done|]. intros (src & Hin & _). by apply elem_of_nil in Hin.
  - rewrite providesLoop_cons.
    destruct (indexable p cfg allSrcs src) eqn:Hidx.
    + destruct (importSpecFromSrc h p (PythonProjectRoot cfg) pkg src) as [provide|] eqn:Hspec.
      * rewrite IH. split.
        -- intros (src' & Hin & Hrest). exists src'. split; [by right|done].
        -- intros (src' & Hin & Hidx' & Hspec'). exists src'.
           apply elem_of_cons in Hin as [->|Hin]; [congruence|done].
      * split; [|done]. intros _. exists src. split; [left|done].
    + rewrite IH. split.
      * intros (src' & Hin & Hrest). exists src'. split; [by right|done].
      * intros (src' & Hin & Hidx' & Hspec'). exists src'.
        apply elem_of_cons in Hin as [->|Hin]; [congruence|done].
Qed.

Lemma providesLoop_Some (cfg : Config) (pkg : string) (allSrcs srcs provides names : list string) :
  providesLoop h p cfg pkg allSrcs srcs provides = Some names →
  ∃ new, names = provides ++ new
         ∧ Forall2 (λ src name,
                      importSpecFromSrc h p (PythonProjectRoot cfg) pkg src = Some name)
             (List.filter (indexable p cfg allSrcs) srcs) new.
Proof.
  revert provides. induction srcs as [|src rest IH]; intros provides.
  - simpl. intros [= <-]. exists []. by rewrite app_nil_r.
  - rewrite providesLoop_cons. cbn [List.filter].
    destruct (indexable p cfg allSrcs src) eqn:Hidx.
    + destruct (importSpecFromSrc h p (PythonProjectRoot cfg) pkg src) as [provide|] eqn:Hspec;
        [|done].
      intros (new & -> & Hall)%IH. exists (provide :: new).
      rewrite <- app_assoc. split; [done|]. by constructor.
    + apply IH.
Qed.

End ProvidesFacts.

(** X19. When [Imports] returns a list of names, the list is not empty and
    has, in order, the name [importSpecFromSrc] gives for each indexable
    source of the rule; every one of these names is then registered with all
    the sources of the rule (indexable or not) joined with the package path,
    and nothing else about the resolver changes.  When it returns [nil], the
    rule has no indexable source and the resolver is as before. *)
Theorem Imports_registers (h : Host) (p : Package) (cfg : Config)
    (d d' : DepsOrderResolver) (r : Rule) (pkg : string)
    (provides : option (list string)) :
  Imports h p cfg d r pkg = ImportsReturn provides d' →
  match provides with
  | None => d' = d ∧ List.filter (indexable p cfg (srcs r)) (srcs r) = []
  | Some names =>
      names ≠ []
      ∧ Forall2 (λ src name,
                   importSpecFromSrc h p (PythonProjectRoot cfg) pkg src = Some name)
          (List.filter (indexable p cfg (srcs r)) (srcs r)) names
      ∧ (∀ imp, getSourcesForImport d' imp
                = if decide (imp ∈ names) then map (filepath_Join h pkg) (srcs r)
                  else getSourcesForImport d imp)
      ∧ fileToIndex d' = fileToIndex d ∧ loaded d' = loaded d
  end.
Proof.
  unfold Imports.
  destruct (providesLoop h p cfg pkg (srcs r) (srcs r) []) as [names|] eqn:Hloop; [|done].
  apply providesLoop_Some in Hloop as (new & -> & Hall). rewrite app_nil_l.
  destruct (len new =? 0) eqn:Hlen.
  - intros [= <- <-]. split; [done|].
    apply Z.eqb_eq in Hlen. destruct new; [|by unfold len in Hlen].
    by apply Forall2_nil_inv_r in Hall.
  - intros [= <- <-]. split; [by intros ->|]. split; [done|]. split; [|done].
    intros imp. unfold getSourcesForImport, RegisterImportSources. cbn [importToSrcs].
    rewrite register_lookup. by destruct (decide (imp ∈ new)).
Qed.

Lemma Imports_registers_witness :
  getSourcesForImport
    (RegisterImportSources Sample.h NewDepsOrderResolver ["app.foundation"] "app"
       (srcs Further.library)) "app.foundation"
  = ["app/foundation.py"; "app/data.txt"].
Proof.
  assert (Hcall : Imports Sample.h Further.package (Sample.cfg true) NewDepsOrderResolver
                    Further.library "app"
                  = ImportsReturn (Some ["app.foundation"])
                      (RegisterImportSources Sample.h NewDepsOrderResolver
                         ["app.foundation"] "app" (srcs Further.library)))
    by reflexivity.
  rewrite (proj1 (proj2 (proj2 (Imports_registers Sample.h Further.package
                                  (Sample.cfg true) NewDepsOrderResolver _
                                  Further.library "app" (Some ["app.foundation"])
                                  Hcall)))).
  reflexivity.
Defined.

(** X20. [Imports] panics exactly when [filepath.Rel] fails for the
    directory of one of the indexable sources of the rule; sources that are
    not indexable are never looked at. *)
Theorem Imports_panics (h : Host) (p : Package) (cfg : Config) (d : DepsOrderResolver)
    (r : Rule) (pkg : string) :
  Imports h p cfg d r pkg = ImportsPanic
  ↔ ∃ src, src ∈ srcs r ∧ indexable p cfg (srcs r) src = true
           ∧ filepath_Rel p (PythonProjectRoot cfg)
               (filepath_Join h pkg (filepath_Dir p src)) = None.
Proof.
  unfold Imports.
  destruct (providesLoop h p cfg pkg (srcs r) (srcs r) []) as [names|] eqn:Hloop.
  - split.
    + by destruct (len names =? 0).
    + intros (src & Hin & Hidx & Hrel).
      assert (Hnone : providesLoop h p cfg pkg (srcs r) (srcs r) [] = None).
      { apply providesLoop_None. exists src. by rewrite importSpecFromSrc_None. }
      congruence.
  - split; [|done]. intros _.
    apply providesLoop_None in Hloop as (src & Hin & Hidx & Hspec).
    exists src. by rewrite <- importSpecFromSrc_None.
Qed.

(** ** The shape of the provided names *)

Lemma Contains_app (a b : string) (c : ascii) :
  strings.Contains (a +:+ b) c = strings.Contains a c || strings.Contains b c.
Proof.
  induction a as [|x a IH]; [done|].
  change (String x a +:+ b) with (String x (a +:+ b)). simpl.
  by rewrite IH, orb_assoc.
Qed.

Lemma Contains_ReplaceAll (s : string) :
  strings.Contains (strings_ReplaceAll s slash dot) slash = false.
Proof.
  induction s as [|x s IH]; [done|]. simpl. rewrite IH, orb_false_r.
  destruct (Ascii.eqb x slash) eqn:Hx; [done|]. exact Hx.
Qed.

Lemma Contains_slice_to (s : string) (n : nat) (c : ascii) :
  strings.Contains s c = false → strings.Contains (slice_to s n) c = false.
Proof.
  revert s. induction n as [|n IH]; intros s; [done|].
  destruct s as [|x s]; [done|]. simpl.
  intros [Hx Hs]%orb_false_elim. by rewrite Hx, IH.
Qed.

Lemma Contains_list (l : list ascii) (c : ascii) :
  strings.Contains (string_of_list_ascii l) c = existsb (λ x, Ascii.eqb x c) l.
Proof. induction l as [|x l IH]; [done|]. simpl. by rewrite IH. Qed.

Lemma existsb_rev {A} (f : A → bool) (l : list A) : existsb f (rev l) = existsb f l.
Proof.
  induction l as [|x l IH]; [done|]. simpl.
  rewrite existsb_app, IH. simpl. rewrite orb_false_r. apply orb_comm.
Qed.

Lemma last_element_no_slash (l : list ascii) :
  existsb (λ x, Ascii.eqb x slash) (filepath.last_element l) = false.
Proof.
  induction l as [|x l IH]; [done|]. simpl.
  destruct (Ascii.eqb x slash) eqn:Hx; [done|]. simpl. by rewrite Hx, IH.
Qed.

Lemma ext_loop_nonempty (l tail : list ascii) :
  ext_loop l tail ≠ [] →
  ∃ x rest, l = x :: rest ∧ Ascii.eqb x slash = false.
Proof.
  destruct l as [|x rest]; [done|]. simpl.
  destruct (Ascii.eqb x slash) eqn:Hx.
  - intros Hne. by destruct Hne.
  - intros _. by exists x, rest.
Qed.

Lemma Base_no_slash (path : string) :
  filepath_Ext path = ".py" → strings.Contains (filepath.Base path) slash = false.
Proof.
  unfold filepath_Ext, filepath.Base. intros Hext.
  destruct (ext_loop_nonempty (rev (list_ascii_of_string path)) [])
    as (x & rest & Hrev & Hx).
  { intros Hnil. by rewrite Hnil in Hext. }
  destruct (String.eqb path "") eqn:Hempty.
  { apply String.eqb_eq in Hempty. subst path. done. }
  rewrite Hrev. cbn [filepath.strip_slashes]. rewrite Hx.
  cbn [filepath.last_element]. rewrite Hx. cbn [rev].
  destruct (String.eqb (string_of_list_ascii (rev (filepath.last_element rest) ++ [x])) "")
    eqn:Helem.
  - apply String.eqb_eq in Helem.
    destruct (rev (filepath.last_element rest)); simpl in Helem; done.
  - rewrite Contains_list, existsb_app, existsb_rev, last_element_no_slash. simpl.
    by rewrite Hx.
Qed.

Lemma importSpecFromSrc_no_slash (h : Host) (p : Package) (root pkg src name : string) :
  filepath_Ext src = ".py" →
  importSpecFromSrc h p root pkg src = Some name →
  strings.Contains name slash = false.
Proof.
  intros Hext. pose proof (Base_no_slash src Hext) as Hbase.
  unfold importSpecFromSrc.
  destruct (filepath_Rel p root (filepath_Join h pkg (filepath_Dir p src))) as [rel|];
    [|done].
  cbn zeta. set (pythonPkg := strings_ReplaceAll _ slash dot).
  assert (Hpkg : strings.Contains pythonPkg slash = false) by apply Contains_ReplaceAll.
  assert (Hmod : strings.Contains (strings_TrimSuffix (filepath.Base src) ".py") slash
                 = false).
  { unfold strings_TrimSuffix. destruct (strings_HasSuffix (filepath.Base src) ".py");
      [by apply Contains_slice_to|done]. }
  destruct (String.eqb (filepath.Base src) (pyLibraryEntrypointFilename p)
            && negb (String.eqb pythonPkg "")); [by intros [= <-]|].
  destruct (String.eqb pythonPkg ""); intros [= <-]; [done|].
  by rewrite !Contains_app, Hpkg, Hmod.
Qed.

(** X21. The names [Imports] returns for a rule are dotted names: none of
    them contains a path separator, whatever the paths of the sources and
    whatever [filepath.Rel] answers. *)
Theorem provided_names_dotted (h : Host) (p : Package) (cfg : Config)
    (d d' : DepsOrderResolver) (r : Rule) (pkg : string) (names : list string) :
  Imports h p cfg d r pkg = ImportsReturn (Some names) d' →
  Forall (λ name, strings.Contains name slash = false) names.
Proof.
  unfold Imports.
  destruct (providesLoop h p cfg pkg (srcs r) (srcs r) []) as [found|] eqn:Hloop; [|done].
  apply providesLoop_Some in Hloop as (new & -> & Hall). rewrite app_nil_l.
  destruct (len new =? 0); [done|]. intros [= <- _].
  assert (Hpy : Forall (λ src, filepath_Ext src = ".py")
                  (List.filter (indexable p cfg (srcs r)) (srcs r))).
  { apply Forall_forall. intros src Hin. apply list_elem_of_In, filter_In in Hin as [_ Hidx].
    unfold indexable in Hidx. apply andb_true_iff in Hidx as [Hext _].
    by apply String.eqb_eq in Hext. }
  induction Hall as [|src name srcs' names' Hspec _ IH]; [constructor|].
  apply Forall_cons in Hpy as [Hext Hrest]. constructor; [|by apply IH].
  by eapply importSpecFromSrc_no_slash.
Qed.

Lemma provided_names_dotted_witness :
  Forall (λ name, strings.Contains name slash = false) ["app.foundation"].
Proof.
  apply (provided_names_dotted Sample.h Further.package (Sample.cfg true)
           NewDepsOrderResolver
           (RegisterImportSources Sample.h NewDepsOrderResolver ["app.foundation"] "app"
              (srcs Further.library))
           Further.library "app" ["app.foundation"]).
  reflexivity.
Defined.

(** ** Third-party distributions and their stubs *)

Lemma resolveCandidate_third_party (h : Host) (cfg : Config) (from : label.Label)
    (mod_ : PyModule) (st : Loop) (errs : list ResolveError)
    (moduleName dep distributionName : string) :
  FindRuleWithOverride h moduleName = None →
  FindThirdPartyDependency cfg moduleName = Some (dep, distributionName) →
  resolveCandidate h cfg from mod_ st errs moduleName
  = ContinueModules
      (applyAction h from mod_
         (Resolved ByThirdParty moduleName dep
            (stubTargets cfg (stubModules h distributionName)) None) st).
Proof.
  intros Hover Hthird. unfold resolveCandidate. rewrite Hover, Hthird.
  destruct (addDependency dep (TypeCheckingOnly mod_) (deps st) (pyiDeps st))
    as [deps1 pyiDeps1] eqn:Hadd.
  destruct (addStubs cfg (stubModules h distributionName) (deps1, pyiDeps1))
    as [deps2 pyiDeps2] eqn:Hstubs.
  unfold applyAction, callsOf. rewrite addAll_cons. cbn [fst snd].
  rewrite Hadd. cbn [fst snd]. rewrite <- addStubs_addAll, Hstubs. cbn [fst snd].
  by rewrite resolver_eta.
Qed.

(** X22. A candidate name that the third-party manifest knows (and no
    override names) ends the record: its target becomes a normal dependency
    unless the record is type-checking-only, and the targets the manifest
    knows for the four stub package names of the distribution become
    type-checking-only dependencies, never normal ones; a target that is a
    normal dependency is not among the type-checking-only ones.  The resolver
    and the validation flag are as before. *)
Theorem third_party_stubs (h : Host) (cfg : Config) (from : label.Label)
    (mod_ : PyModule) (st : Loop) (errs : list ResolveError)
    (moduleName dep distributionName x : string) :
  FindRuleWithOverride h moduleName = None →
  FindThirdPartyDependency cfg moduleName = Some (dep, distributionName) →
  deps st ## pyiDeps st →
  ∃ st', resolveCandidate h cfg from mod_ st errs moduleName = ContinueModules st'
         ∧ (x ∈ deps st' ↔ x ∈ deps st ∨ (x = dep ∧ TypeCheckingOnly mod_ = false))
         ∧ (x ∈ pyiDeps st'
            ↔ (x ∉ deps st')
              ∧ (x ∈ pyiDeps st ∨ x = dep
                 ∨ x ∈ stubTargets cfg (stubModules h distributionName)))
         ∧ resolver st' = resolver st ∧ hasFatalError st' = hasFatalError st.
Proof.
  intros Hover Hthird Hdisj. eexists. split; [by apply resolveCandidate_third_party|].
  set (a := Resolved ByThirdParty moduleName dep
              (stubTargets cfg (stubModules h distributionName)) None).
  assert (Hd : x ∈ deps (applyAction h from mod_ a st)
               ↔ x ∈ deps st ∨ (x = dep ∧ TypeCheckingOnly mod_ = false)).
  { rewrite applyAction_deps. unfold a. cbn [callsOf]. rewrite elem_of_cons, pair_equal_spec.
    split.
    - intros [?|[[-> <-]|Hin]]; [by left|by right|].
      apply list_elem_of_fmap in Hin as (s & Hs & _). by apply pair_equal_spec in Hs as [_ ?].
    - intros [?|[-> ->]]; [by left|]. right. by left. }
  split; [done|]. split; [|split; [|done]].
  - assert (Hp : pyiDeps (applyAction h from mod_ a st)
                 = (addAll (callsOf mod_ a) (deps st, pyiDeps st)).2) by done.
    assert (Hd' : deps (applyAction h from mod_ a st)
                  = (addAll (callsOf mod_ a) (deps st, pyiDeps st)).1) by done.
    rewrite Hp, Hd', (addAll_pyiDeps (callsOf mod_ a) (deps st, pyiDeps st) x Hdisj), <- Hd'.
    cbn [fst snd].
    unfold a at 2. cbn [callsOf]. rewrite elem_of_cons, pair_equal_spec.
    split.
    + intros [Hnot [?|[[-> _]|Hin]]]; split; try done; [by left|by right; left|].
      right. right. apply list_elem_of_fmap in Hin as (s & Hs & Hin).
      apply pair_equal_spec in Hs as [-> _]. done.
    + intros [Hnot [?|[->|Hin]]]; split; try done; [by left| |].
      * right. left. split; [done|].
        destruct (TypeCheckingOnly mod_) eqn:Htc; [done|].
        exfalso. apply Hnot, Hd. by right.
      * right. right. apply list_elem_of_fmap. by exists x.
  - unfold a. cbn. by rewrite resolver_eta.
Qed.

Lemma third_party_stubs_witness :
  ∃ st', resolveCandidate Sample.h Further.pip (Sample.unit "middleware")
           (Sample.import "requests" false) Sample.start [] "requests"
         = ContinueModules st'
         ∧ ("@pip//types_requests" ∈ deps st'
            ↔ "@pip//types_requests" ∈ deps Sample.start
              ∨ ("@pip//types_requests" = "@pip//requests"
                 ∧ TypeCheckingOnly (Sample.import "requests" false) = false))
         ∧ ("@pip//types_requests" ∈ pyiDeps st'
            ↔ ("@pip//types_requests" ∉ deps st')
              ∧ ("@pip//types_requests" ∈ pyiDeps Sample.start
                 ∨ "@pip//types_requests" = "@pip//requests"
                 ∨ "@pip//types_requests"
                   ∈ stubTargets Further.pip (stubModules Sample.h "requests")))
         ∧ resolver st' = resolver Sample.start
         ∧ hasFatalError st' = hasFatalError Sample.start.
Proof.
  apply (third_party_stubs Sample.h Further.pip (Sample.unit "middleware")
           (Sample.import "requests" false) Sample.start [] "requests"
           "@pip//requests" "requests" "@pip//types_requests").
  - reflexivity.
  - reflexivity.
  - apply disjoint_empty_l.
Defined.

(** ** Dependencies without recorded sources *)

Lemma GetAverageIndex_nil (d : DepsOrderResolver) :
  fileToIndex d ≠ ∅ → GetAverageIndex d [] = float64 (len_map (fileToIndex d)).
Proof. intros Hne. unfold GetAverageIndex. by rewrite (len_map_nonzero _ Hne). Qed.

(** X24. A dependency for which no sources are recorded when [Resolve]
    looks for the edges to remove (a target of an override or of the
    third-party manifest, or a pre-resolved name) is ranked like a unit none
    of whose sources is listed, at the number of entries of the table: such
    a member of the emitted [deps] is flagged exactly when the table is not
    empty and the rank of the unit's own sources is below that number. *)
Theorem unrecorded_dependency (h : Host) (cfg : Config) (d d' : DepsOrderResolver)
    (fs : OpenResult) (r r' : Rule) (modulesRaw : option (list PyModule))
    (from : label.Label) (lg : list LogEntry) (dep : string) :
  fresh r →
  Resolve h cfg d fs r modulesRaw from = Return r' d' lg →
  importToSrcs d' !! dep = None →
  dep ∈ attrSet r' "deps" →
  dep ∈ attrSet r' "deps_to_remove"
  ↔ fileToIndex d' ≠ ∅
    ∧ (rank d' (map (filepath_Join h (label.Pkg from)) (srcs r))
       <? float64 (len_map (fileToIndex d')))%float = true.
Proof.
  intros Hfresh Hres Hnone Hdep. apply Resolve_Return in Hres as (_ & _ & ->).
  destruct (writeAttrs_attrs cfg d' (map (filepath_Join h (label.Pkg from)) (srcs r)) r
              (addResolvedDeps r (deps (importLoop h cfg d modulesRaw from)))
              (pyiDeps (importLoop h cfg d modulesRaw from)) Hfresh)
    as (Hdeps & _ & Hremove).
  rewrite Hremove. rewrite Hdeps in Hdep. rewrite createDepsToRemove_elem.
  assert (Hsrcs : getSourcesForImport d' dep = []).
  { unfold getSourcesForImport. by rewrite Hnone. }
  rewrite Hsrcs. destruct (decide (fileToIndex d' = ∅)) as [Hempty|Hne].
  - split; [|tauto]. intros [_ Hlt]. exfalso.
    unfold rank, GetAverageIndex in Hlt. rewrite Hempty in Hlt. by vm_compute in Hlt.
  - unfold rank at 2. rewrite (GetAverageIndex_nil d' Hne). tauto.
Qed.

Lemma unrecorded_dependency_witness :
  ":external" ∈ attrSet (Sample.ruleOf Further.listed) "deps_to_remove"
  ↔ fileToIndex (Sample.resolverOf Further.listed) ≠ ∅
    ∧ (rank (Sample.resolverOf Further.listed)
         (map (filepath_Join Sample.h (label.Pkg (Sample.unit "foundation")))
            (srcs (Sample.rule "foundation" {[":external"]})))
       <? float64 (len_map (fileToIndex (Sample.resolverOf Further.listed))))%float = true.
Proof.
  apply (unrecorded_dependency Sample.h (Sample.cfg true) NewDepsOrderResolver
           (Sample.resolverOf Further.listed) Sample.layers
           (Sample.rule "foundation" {[":external"]}) (Sample.ruleOf Further.listed)
           (Some []) (Sample.unit "foundation") (Sample.logOf Further.listed) ":external").
  - by vm_compute.
  - vm_compute. reflexivity.
  - by vm_compute.
  - by vm_compute.
Defined.
